(** * track: record store, pause ledger, filters and report aggregation

    A shallow embedding of the Go package [core] of the time tracker
    (filter.go, record.go, report.go) together with the properties its
    specification states about it.

    Conventions of the embedding:
    - a [time.Time] is the number of nanoseconds since Go's zero instant
      (0001-01-01 00:00:00 UTC); the zero [time.Time] value, which the code
      uses for "absent", is [0]; instants before the zero instant are not
      modelled;
    - a [time.Duration] is an [int64] count of nanoseconds: a [Z] whose
      additions and subtractions wrap around at 64 bits;
    - a Go [error] made from a message is that message; the errors of the
      [os] package keep their type ([*os.PathError]);
    - Go maps are [gmap]s, Go slices are lists. *)

From Stdlib Require Import ZArith NArith List Bool Lia String Ascii.
From Stdlib Require Import DecimalString.
From stdpp Require Import base option list gmap strings fin_maps sorting.

Local Open Scope string_scope.
Local Open Scope list_scope.

(** ** Instants and durations *)

Definition time := N.

(** Modelled from the spec: [util.NoTime] is the zero / absent instant. *)
Definition NoTime : time := 0%N.

Definition IsZero (t : time) : bool := N.eqb t 0.
Definition Before (t u : time) : bool := N.ltb t u.
Definition After (t u : time) : bool := N.ltb u t.

(** A wall-clock time [h:m] on a fixed day (day 738000 after the zero
    instant), used by the examples. *)
Definition clock (h m : N) : time :=
  ((738000 * 24 * 60 + h * 60 + m) * 60 * 1000000000)%N.

Definition duration := Z.

Definition wrap64 (z : Z) : duration :=
  ((z + 2 ^ 63) mod 2 ^ 64 - 2 ^ 63)%Z.

Definition dur_add (a b : duration) : duration := wrap64 (a + b).
Definition dur_sub (a b : duration) : duration := wrap64 (a - b).

Definition in_int64 (z : Z) : Prop := (- 2 ^ 63 <= z < 2 ^ 63)%Z.

(** ** Errors *)

(** The system-call failures the store can meet. *)
Inductive errno := ENOENT | EACCES | EISDIR | ENOTDIR | ENOTEMPTY.

(** A Go [error] value: one made by [errors.New] / [fmt.Errorf], known by its
    message, or an [*os.PathError], the type of every error the [os] package
    returns from opening, reading, listing or removing a path. *)
Inductive error :=
| ErrorString (msg : string)
| PathError (op : string) (path : list string) (e : errno).

(** [fmt.Errorf] with a constant format. *)
Definition Errorf (msg : string) : error := ErrorString msg.

Definition ErrNoRecords : error := ErrorString "no records for date".
Definition ErrRecordNotFound : error := ErrorString "record not found".

(** Results of fallible operations: a value or an error. *)
Inductive result (A : Type) : Type :=
| Ok (a : A)
| Err (err : error).
Arguments Ok {A} a.
Arguments Err {A} err.

(** ** Data model (record.go) *)

Record Pause := mkPause {
  pStart : time;
  pEnd : time;
  pNote : string
}.

Record RecordT := mkRecord {
  rProject : string;
  rStart : time;
  rEnd : time;
  rNote : string;
  rTags : list string;
  rPause : list Pause
}.

(** Modelled from the spec: the [Project] struct lives in project.go; the
    spec gives it a name, an optional parent name and an archived flag. *)
Record Project := mkProject {
  prjName : string;
  prjParent : string;
  prjArchived : bool
}.

(** The zero value Go yields when a map is indexed at a missing key. *)
Definition zeroProject : Project := mkProject "" "" false.

Definition zeroPause : Pause := mkPause NoTime NoTime "".

Definition set_rEnd (r : RecordT) (e : time) : RecordT :=
  mkRecord (rProject r) (rStart r) e (rNote r) (rTags r) (rPause r).

Definition set_rPause (r : RecordT) (ps : list Pause) : RecordT :=
  mkRecord (rProject r) (rStart r) (rEnd r) (rNote r) (rTags r) ps.

Definition set_pEnd (p : Pause) (e : time) : Pause :=
  mkPause (pStart p) e (pNote p).

(** ** Filter predicates (filter.go) *)

Definition FilterFunction := RecordT -> bool.

Fixpoint Filter (record : RecordT) (filters : list FilterFunction) : bool :=
  match filters with
  | [] => true
  | f :: rest => if f record then Filter record rest else false
  end.

Definition FilterByProjects (projects : list string) : FilterFunction :=
  let prj : gmap string bool :=
    fold_left (fun m p => <[p := true]> m) projects ∅ in
  fun r => match prj !! rProject r with Some _ => true | None => false end.

Definition FilterByTime (start end_ : time) : FilterFunction :=
  fun r =>
    if IsZero (rEnd r) then
      (IsZero start || After (rStart r) start)
      && (IsZero end_ || Before (rStart r) end_)
    else
      (IsZero start || After (rEnd r) start)
      && (IsZero end_ || Before (rStart r) end_).

Definition FilterByArchived (archived : bool) (projects : gmap string Project)
  : FilterFunction :=
  fun r =>
    Bool.eqb (prjArchived (default zeroProject (projects !! rProject r))) archived.

Definition FilterByTagsAny (tags : list string) : FilterFunction :=
  let tg : gmap string bool :=
    fold_left (fun m t => <[t := true]> m) tags ∅ in
  fun r => existsb (fun t => match tg !! t with Some _ => true | None => false end)
             (rTags r).

Definition FilterByTagsAll (tags : list string) : FilterFunction :=
  fun r => forallb (fun t => existsb (String.eqb t) (rTags r)) tags.

(** ** Pause ledger (record.go) *)

Definition HasEnded (r : RecordT) : bool := negb (IsZero (rEnd r)).

Definition IsPaused (r : RecordT) : bool :=
  match last (rPause r) with
  | Some p => IsZero (pEnd p)
  | None => false
  end.

Definition CurrentPause (r : RecordT) : Pause * bool :=
  match last (rPause r) with
  | Some p => if IsZero (pEnd p) then (p, true) else (zeroPause, false)
  | None => (zeroPause, false)
  end.

Definition LastPause (r : RecordT) : Pause * bool :=
  match last (rPause r) with
  | Some p => if negb (IsZero (pEnd p)) then (p, true) else (zeroPause, false)
  | None => (zeroPause, false)
  end.

(** [Check]: the first violated rule, in the order the code tests them. *)
Fixpoint Check_pauses (r : RecordT) (prevStart prevEnd : time) (ps : list Pause)
  : option error :=
  match ps with
  | [] => None
  | p :: rest =>
      if Before (pStart p) (rStart r) then
        Some (Errorf "pause starts before record")
      else if negb (IsZero (rEnd r)) && After (pEnd p) (rEnd r) then
        Some (Errorf "pause ends after record")
      else if After prevStart (pStart p) then
        Some (Errorf "pause starts not in chronological order")
      else if After prevEnd (pStart p) then
        Some (Errorf "pauses overlap")
      else Check_pauses r (pStart p) (pEnd p) rest
  end.

Definition Check (r : RecordT) : option error :=
  if negb (IsZero (rEnd r)) && Before (rEnd r) (rStart r) then
    Some (Errorf "end time is before start time")
  else Check_pauses r NoTime NoTime (rPause r).

(** [InsertPause] mutates the record; the model returns the record after the
    call together with the returned pause, or the error. *)
Definition InsertPause (r : RecordT) (start end_ : time) (note : string)
  : result (RecordT * Pause) :=
  let new := mkPause start end_ note in
  match last (rPause r) with
  | None =>
      if Before start (rStart r) then
        Err (Errorf "start of pause before start of current record")
      else Ok (set_rPause r (rPause r ++ [new]), new)
  | Some lastp =>
      if Before start (pEnd lastp) then
        Err (Errorf "start of pause before end of previous pause")
      else Ok (set_rPause r (rPause r ++ [new]), new)
  end.

Definition PopPause (r : RecordT) : RecordT * option Pause :=
  match last (rPause r) with
  | None => (r, None)
  | Some p => (set_rPause r (removelast (rPause r)), Some p)
  end.

Definition EndPause (r : RecordT) (t : time) : result (RecordT * Pause) :=
  match last (rPause r) with
  | None => Err (Errorf "no pause to end")
  | Some p =>
      if negb (IsZero (pEnd p)) then Err (Errorf "last pause is already ended")
      else
        let p' := set_pEnd p t in
        Ok (set_rPause r (removelast (rPause r) ++ [p']), p')
  end.

(** ** Stopping a record (record.go, [Track.StopRecord]) *)

(** The test of the stop loop on the last pause. *)
Definition stop_cond (end_ : time) (p : Pause) : bool :=
  IsZero (pEnd p) || After (pEnd p) end_.

(** The loop [for len(record.Pause) > 0 { ... }], run on the pauses read from
    the last one backwards: [rps] is the pause slice reversed, [recEnd] the
    current value of [record.End].  The result is the final [record.End] and
    the remaining pauses (still reversed). *)
Fixpoint stop_loop (end_ : time) (recEnd : time) (rps : list Pause)
  : time * list Pause :=
  match rps with
  | [] => (recEnd, [])
  | p :: rest =>
      if stop_cond end_ p then stop_loop end_ (pStart p) rest
      else (recEnd, rps)
  end.

Definition stop_record (r : RecordT) (end_ : time) : RecordT :=
  let '(e, rps) := stop_loop end_ end_ (rev (rPause r)) in
  set_rPause (set_rEnd r e) (rev rps).

(** [StopRecord]: [opened] is what [t.OpenRecord()] returned, [save] is
    [t.SaveRecord].  The result is the returned record reference and error. *)
Definition StopRecord (opened : result (option RecordT))
    (save : RecordT -> bool -> option error) (end_ : time)
  : option RecordT * option error :=
  match opened with
  | Err e => (None, Some e)
  | Ok None => (None, Some (Errorf "no running record"))
  | Ok (Some record) =>
      let record' := stop_record record end_ in
      (Some record', save record' true)
  end.

(** ** Properties of the filters *)

Lemma IsZero_true (t : time) : IsZero t = true <-> t = 0%N.
Proof. unfold IsZero. apply N.eqb_eq. Qed.

Lemma IsZero_false (t : time) : IsZero t = false <-> t <> 0%N.
Proof. unfold IsZero. apply N.eqb_neq. Qed.

Lemma Before_lt (t u : time) : Before t u = true <-> (t < u)%N.
Proof. unfold Before. apply N.ltb_lt. Qed.

Lemma After_gt (t u : time) : After t u = true <-> (u < t)%N.
Proof. unfold After. apply N.ltb_lt. Qed.

Lemma Before_ge (t u : time) : Before t u = false <-> (u <= t)%N.
Proof. unfold Before. apply N.ltb_ge. Qed.

Lemma After_le (t u : time) : After t u = false <-> (t <= u)%N.
Proof. unfold After. apply N.ltb_ge. Qed.

(** What "the instant [x] lies inside the optionally open range" means for
    the lower and the upper bound: a zero bound does not constrain. *)
Definition after_bound (start x : time) : Prop := start = 0%N \/ (start < x)%N.
Definition before_bound (end_ x : time) : Prop := end_ = 0%N \/ (x < end_)%N.

Lemma after_bound_spec start x :
  IsZero start || After x start = true <-> after_bound start x.
Proof.
  unfold after_bound. rewrite orb_true_iff, IsZero_true, After_gt. tauto.
Qed.

Lemma before_bound_spec end_ x :
  IsZero end_ || Before x end_ = true <-> before_bound end_ x.
Proof.
  unfold before_bound. rewrite orb_true_iff, IsZero_true, Before_lt. tauto.
Qed.

Lemma FilterByTime_open start end_ r :
  IsZero (rEnd r) = true ->
  FilterByTime start end_ r = true
  <-> after_bound start (rStart r) /\ before_bound end_ (rStart r).
Proof.
  intros Hopen. unfold FilterByTime. rewrite Hopen.
  now rewrite andb_true_iff, after_bound_spec, before_bound_spec.
Qed.

Lemma FilterByTime_closed start end_ r :
  IsZero (rEnd r) = false ->
  FilterByTime start end_ r = true
  <-> after_bound start (rEnd r) /\ before_bound end_ (rStart r).
Proof.
  intros Hclosed. unfold FilterByTime. rewrite Hclosed.
  now rewrite andb_true_iff, after_bound_spec, before_bound_spec.
Qed.

(** C8. The time-range filter with both bounds zero matches every record;
    an open record (zero end) is matched according to its start alone: the
    start must lie after a non-zero lower bound and before a non-zero upper
    bound, so two open records with the same start are matched alike; a
    closed record is matched when its end lies after the lower bound and its
    start before the upper bound (overlap with the range). *)
Theorem FilterByTime_bounds :
  (forall r, FilterByTime NoTime NoTime r = true)
  /\ (forall start end_ r, IsZero (rEnd r) = true ->
        (FilterByTime start end_ r = true
         <-> after_bound start (rStart r) /\ before_bound end_ (rStart r)))
  /\ (forall start end_ r1 r2,
        IsZero (rEnd r1) = true -> IsZero (rEnd r2) = true ->
        rStart r1 = rStart r2 ->
        FilterByTime start end_ r1 = FilterByTime start end_ r2)
  /\ (forall start end_ r, IsZero (rEnd r) = false ->
        (FilterByTime start end_ r = true
         <-> after_bound start (rEnd r) /\ before_bound end_ (rStart r))).
Proof.
  split; [| split; [| split]].
  - intros r. unfold FilterByTime. now destruct (IsZero (rEnd r)).
  - intros start end_ r. apply FilterByTime_open.
  - intros start end_ r1 r2 H1 H2 Hs. unfold FilterByTime.
    now rewrite H1, H2, Hs.
  - intros start end_ r. apply FilterByTime_closed.
Qed.

(** C9. A record whose project is missing from the snapshot map is judged
    against the zero-value [Project]: it passes the "not archived" filter and
    fails the "archived" filter. *)
Theorem FilterByArchived_missing_project :
  forall (projects : gmap string Project) (r : RecordT),
    projects !! rProject r = None ->
    default zeroProject (projects !! rProject r) = zeroProject
    /\ FilterByArchived false projects r = true
    /\ FilterByArchived true projects r = false.
Proof.
  intros projects r Hmiss. unfold FilterByArchived.
  rewrite Hmiss. simpl. auto.
Qed.

Definition sample_projects : gmap string Project :=
  <["work" := mkProject "work" "" true]> ∅.

Definition orphan_record : RecordT :=
  mkRecord "ghost" (clock 9 0) (clock 10 0) "" [] [].

Lemma FilterByArchived_missing_project_witness :
  default zeroProject (sample_projects !! rProject orphan_record) = zeroProject
  /\ FilterByArchived false sample_projects orphan_record = true
  /\ FilterByArchived true sample_projects orphan_record = false.
Proof.
  apply (FilterByArchived_missing_project sample_projects orphan_record).
  vm_compute. reflexivity.
Defined.

(** ** Properties of the pause ledger *)

Lemma IsPaused_last (r : RecordT) :
  IsPaused r = true ->
  exists ps p, rPause r = ps ++ [p] /\ pEnd p = NoTime.
Proof.
  unfold IsPaused. destruct (last (rPause r)) as [p|] eqn:Hlast; [|discriminate].
  intros Hz%IsZero_true. apply last_Some in Hlast as [ps Hps].
  now exists ps, p.
Qed.

(** C10. When the last pause of a record is open, [InsertPause] accepts every
    start time: the test compares the start with the zero end of the open
    pause.  The new pause is appended, and the pause that was open is still
    open and is no longer the last one. *)
Theorem InsertPause_while_paused :
  forall (r : RecordT) (t e : time) (note : string),
    IsPaused r = true ->
    InsertPause r t e note
      = Ok (set_rPause r (rPause r ++ [mkPause t e note]), mkPause t e note)
    /\ exists (i : nat) (q : Pause),
         (rPause r ++ [mkPause t e note]) !! i = Some q
         /\ IsZero (pEnd q) = true
         /\ S i < length (rPause r ++ [mkPause t e note]).
Proof.
  intros r t e note Hpaused.
  destruct (IsPaused_last r Hpaused) as (ps & p & Hps & Hopen).
  split.
  - unfold InsertPause. rewrite Hps, last_snoc, Hopen.
    unfold Before, NoTime. now destruct t.
  - exists (length ps), p. rewrite Hps. repeat split.
    + rewrite <- app_assoc. simpl. now apply list_lookup_middle.
    + now rewrite Hopen.
    + rewrite !length_app. simpl. lia.
Qed.

Definition paused_record : RecordT :=
  mkRecord "work" (clock 9 0) NoTime "" [] [mkPause (clock 10 0) NoTime "tea"].

Lemma InsertPause_while_paused_witness :
  InsertPause paused_record (clock 9 30) (clock 9 45) "again"
    = Ok (set_rPause paused_record
            (rPause paused_record ++ [mkPause (clock 9 30) (clock 9 45) "again"]),
          mkPause (clock 9 30) (clock 9 45) "again")
  /\ exists (i : nat) (q : Pause),
       (rPause paused_record ++ [mkPause (clock 9 30) (clock 9 45) "again"]) !! i
         = Some q
       /\ IsZero (pEnd q) = true
       /\ S i < length (rPause paused_record
                          ++ [mkPause (clock 9 30) (clock 9 45) "again"]).
Proof.
  apply (InsertPause_while_paused paused_record (clock 9 30) (clock 9 45) "again").
  reflexivity.
Defined.

(** Without an open last pause the start is checked: here it is rejected. *)
Example InsertPause_checks_closed_pause :
  InsertPause
    (mkRecord "work" (clock 9 0) NoTime "" []
       [mkPause (clock 10 0) (clock 10 30) "tea"])
    (clock 10 15) NoTime ""
  = Err (Errorf "start of pause before end of previous pause").
Proof. reflexivity. Qed.

(** *** Check *)

(** [adjacent R ps]: every pause is related by [R] to the one after it. *)
Fixpoint adjacent (R : Pause -> Pause -> Prop) (ps : list Pause) : Prop :=
  match ps with
  | [] => True
  | p :: rest =>
      match rest with [] => True | q :: _ => R p q end /\ adjacent R rest
  end.

(** A pause lies within the span of the record: it starts no earlier than the
    record, and if both the record and the pause have an end, the pause ends
    no later than the record. *)
Definition pause_within (r : RecordT) (p : Pause) : Prop :=
  (rStart r <= pStart p)%N
  /\ (rEnd r <> NoTime -> pEnd p <> NoTime -> (pEnd p <= rEnd r)%N).

Definition end_after_start (r : RecordT) : Prop :=
  rEnd r = NoTime \/ (rStart r <= rEnd r)%N.

Definition no_overlap (p q : Pause) : Prop := (pEnd p <= pStart q)%N.

(** The rules as the specification words them: pauses strictly ordered. *)
Definition Check_rules_strict (r : RecordT) : Prop :=
  end_after_start r
  /\ adjacent (fun p q => (pStart p < pStart q)%N) (rPause r)
  /\ adjacent no_overlap (rPause r)
  /\ Forall (pause_within r) (rPause r).

(** The rules [Check] enforces: pauses ordered, equal starts allowed. *)
Definition Check_rules (r : RecordT) : Prop :=
  end_after_start r
  /\ adjacent (fun p q => (pStart p <= pStart q)%N) (rPause r)
  /\ adjacent no_overlap (rPause r)
  /\ Forall (pause_within r) (rPause r).

Lemma Check_pauses_spec (r : RecordT) (prev : Pause) (ps : list Pause) :
  Check_pauses r (pStart prev) (pEnd prev) ps = None
  <-> adjacent (fun p q => (pStart p <= pStart q)%N) (prev :: ps)
      /\ adjacent no_overlap (prev :: ps)
      /\ Forall (pause_within r) ps.
Proof.
  revert prev. induction ps as [|p rest IH]; intros prev.
  - simpl. intuition constructor.
  - cbn [Check_pauses].
    destruct (Before (pStart p) (rStart r)) eqn:Hb.
    { apply Before_lt in Hb. split; [discriminate|].
      intros (_ & _ & Hall). inversion Hall as [|? ? [Hw _] _]. lia. }
    apply Before_ge in Hb.
    destruct (negb (IsZero (rEnd r)) && After (pEnd p) (rEnd r)) eqn:Ha.
    { apply andb_true_iff in Ha as [Hnz Hgt].
      apply negb_true_iff, IsZero_false in Hnz. apply After_gt in Hgt.
      split; [discriminate|].
      intros (_ & _ & Hall). inversion Hall as [|? ? [_ Hw] _].
      unfold NoTime in Hw. assert (Hpz : pEnd p <> 0%N) by lia.
      specialize (Hw Hnz Hpz). lia. }
    assert (Hin : pause_within r p).
    { split; [exact Hb|]. intros Hnz _.
      apply andb_false_iff in Ha as [Ha|Ha].
      - apply negb_false_iff, IsZero_true in Ha. contradiction.
      - now apply After_le in Ha. }
    destruct (After (pStart prev) (pStart p)) eqn:Ho.
    { apply After_gt in Ho. split; [discriminate|].
      intros ([Hord _] & _). lia. }
    apply After_le in Ho.
    destruct (After (pEnd prev) (pStart p)) eqn:Hov.
    { apply After_gt in Hov. split; [discriminate|].
      intros (_ & [Hno _] & _). unfold no_overlap in Hno. lia. }
    apply After_le in Hov.
    rewrite IH. cbn [adjacent]. split.
    + intros (H1 & H2 & H3). repeat split; try tauto.
      now constructor.
    + intros ((_ & H1) & (_ & H2) & H3). inversion H3; subst. tauto.
Qed.

Lemma adjacent_zeroPause (R : Pause -> Pause -> Prop) (ps : list Pause) :
  (forall q, R zeroPause q) ->
  adjacent R (zeroPause :: ps) <-> adjacent R ps.
Proof.
  intros HR. cbn [adjacent]. destruct ps; intuition.
Qed.

(** C4 (as the code has it). [Check] succeeds exactly when: the end is absent
    or not before the start; the pauses are ordered by start, equal starts
    being allowed; each pause starts no earlier than the previous pause ends;
    and each pause lies within the span of the record. *)
Theorem Check_succeeds_iff :
  forall r : RecordT, Check r = None <-> Check_rules r.
Proof.
  intros r. unfold Check, Check_rules.
  destruct (negb (IsZero (rEnd r)) && Before (rEnd r) (rStart r)) eqn:He.
  - apply andb_true_iff in He as [Hnz Hlt].
    apply negb_true_iff, IsZero_false in Hnz. apply Before_lt in Hlt.
    split; [discriminate|]. intros ([Hz|Hle] & _); [contradiction|lia].
  - assert (Hes : end_after_start r).
    { apply andb_false_iff in He as [He|He].
      - left. now apply negb_false_iff, IsZero_true in He.
      - right. now apply Before_ge in He. }
    change NoTime with (pStart zeroPause) at 1.
    change NoTime with (pEnd zeroPause) at 1.
    rewrite Check_pauses_spec.
    rewrite !adjacent_zeroPause.
    + tauto.
    + intros q. apply N.le_0_l.
    + intros q. apply N.le_0_l.
Qed.

(** A record with a zero-length pause followed by a pause that starts at the
    same instant. *)
Definition equal_starts_record : RecordT :=
  mkRecord "work" (clock 9 0) NoTime "" []
    [mkPause (clock 10 0) (clock 10 0) ""; mkPause (clock 10 0) (clock 10 30) ""].

(** C4 (as the specification words it) fails: [Check] accepts a record whose
    pauses are not strictly ordered by start. *)
Lemma Check_accepts_equal_starts :
  Check equal_starts_record = None /\ ~ Check_rules_strict equal_starts_record.
Proof.
  split; [reflexivity|].
  intros (_ & [Hlt _] & _). cbn in Hlt. lia.
Qed.

(** *** StopRecord *)

Lemma stop_loop_spec (t e : time) (rps : list Pause) :
  exists dropped kept,
    rps = dropped ++ kept
    /\ stop_loop t e rps
       = (match last dropped with Some p => pStart p | None => e end, kept)
    /\ Forall (fun p => stop_cond t p = true) dropped
    /\ (forall q, head kept = Some q -> stop_cond t q = false).
Proof.
  revert e. induction rps as [|p rest IH]; intros e.
  - exists [], []. repeat split; [constructor | discriminate].
  - cbn [stop_loop]. destruct (stop_cond t p) eqn:Hc.
    + destruct (IH (pStart p)) as (dropped & kept & -> & Hloop & Hall & Hhd).
      exists (p :: dropped), kept. repeat split; [| now constructor | exact Hhd].
      rewrite Hloop. f_equal.
      destruct dropped as [|d dropped] using rev_ind; [reflexivity|].
      rewrite app_comm_cons, !last_snoc. reflexivity.
    + exists [], (p :: rest). repeat split; [constructor|].
      intros q [= <-]. exact Hc.
Qed.

Lemma stop_cond_true (t : time) (p : Pause) :
  stop_cond t p = true <-> pEnd p = NoTime \/ (t < pEnd p)%N.
Proof.
  unfold stop_cond. now rewrite orb_true_iff, IsZero_true, After_gt.
Qed.

Lemma stop_cond_false (t : time) (p : Pause) :
  stop_cond t p = false <-> pEnd p <> NoTime /\ (pEnd p <= t)%N.
Proof.
  unfold stop_cond. now rewrite orb_false_iff, IsZero_false, After_le.
Qed.

(** The two steps of the loop, read on the pause slice as the code holds it:
    nothing to inspect, or the last pause inspected. *)
Lemma stop_record_no_pause (r : RecordT) (t : time) :
  rPause r = [] -> stop_record r t = set_rEnd r t.
Proof.
  intros Hnil. unfold stop_record. rewrite Hnil. cbn.
  unfold set_rPause, set_rEnd. cbn. now rewrite Hnil.
Qed.

Lemma stop_loop_snoc (t e : time) (ps : list Pause) (p : Pause) :
  stop_loop t e (rev (ps ++ [p]))
  = if stop_cond t p then stop_loop t (pStart p) (rev ps)
    else (e, rev (ps ++ [p])).
Proof. rewrite rev_unit. reflexivity. Qed.

Lemma adjacent_app_inv (R : Pause -> Pause -> Prop) (l1 l2 : list Pause) :
  adjacent R (l1 ++ l2) ->
  forall q d, last l1 = Some q -> head l2 = Some d -> R q d.
Proof.
  induction l1 as [|a l1 IH]; intros Hadj q d Hq Hd; [discriminate|].
  destruct l1 as [|b l1].
  - injection Hq as <-. destruct l2 as [|d' l2]; [discriminate|].
    injection Hd as <-. now destruct Hadj.
  - destruct Hadj as [_ Hadj]. apply (IH Hadj q d); [|exact Hd].
    exact Hq.
Qed.

(** C3 (as the code has it). [StopRecord(t)] on an open record [r] drops the
    longest run of trailing pauses that are open or end after [t], and sets
    the end of the record to the start of the earliest dropped pause, or to
    [t] when no pause is dropped; the last remaining pause, if any, is closed
    and ends at or before [t].  It ends at or before the new end of the
    record when the pauses of [r] do not overlap, each starting no earlier
    than the one before it ends.  A record started at 09:00 with one open
    pause that started at 10:00, stopped at 11:00, ends at 10:00 and has no
    pause. *)
Theorem StopRecord_rewinds :
  (forall (r : RecordT) (t : time) (save : RecordT -> bool -> option error),
    exists (r' : RecordT) (dropped : list Pause),
      StopRecord (Ok (Some r)) save t = (Some r', save r' true)
      /\ rPause r = rPause r' ++ dropped
      /\ Forall (fun p => pEnd p = NoTime \/ (t < pEnd p)%N) dropped
      /\ rEnd r' = match dropped with [] => t | p :: _ => pStart p end
      /\ (forall q, last (rPause r') = Some q ->
            pEnd q <> NoTime /\ (pEnd q <= t)%N)
      /\ (adjacent no_overlap (rPause r) ->
          forall q, last (rPause r') = Some q -> (pEnd q <= rEnd r')%N)
      /\ (rProject r', rStart r', rNote r', rTags r')
         = (rProject r, rStart r, rNote r, rTags r))
  /\ (forall save,
        StopRecord
          (Ok (Some (mkRecord "work" (clock 9 0) NoTime "" []
                       [mkPause (clock 10 0) NoTime ""])))
          save (clock 11 0)
        = (Some (mkRecord "work" (clock 9 0) (clock 10 0) "" [] []),
           save (mkRecord "work" (clock 9 0) (clock 10 0) "" [] []) true)).
Proof.
  split; [|reflexivity].
  intros r t save.
  destruct (stop_loop_spec t t (rev (rPause r)))
    as (dropped & kept & Hsplit & Hloop & Hall & Hhd).
  assert (Hps : rPause r = rev kept ++ rev dropped).
  { rewrite <- rev_app_distr, <- Hsplit. now rewrite rev_involutive. }
  assert (Hexit : forall q, last (rev kept) = Some q ->
                    pEnd q <> NoTime /\ (pEnd q <= t)%N).
  { intros q Hq. apply stop_cond_false, Hhd.
    rewrite <- Hq. destruct kept as [|k kept]; [reflexivity|].
    simpl. now rewrite last_snoc. }
  assert (Hend : match last dropped with Some p => pStart p | None => t end
                 = match rev dropped with [] => t | p :: _ => pStart p end).
  { destruct dropped as [|d dropped] using rev_ind; [reflexivity|].
    now rewrite last_snoc, rev_unit. }
  exists (set_rPause (set_rEnd r
            (match last dropped with Some p => pStart p | None => t end))
            (rev kept)), (rev dropped).
  repeat split.
  - unfold StopRecord, stop_record. now rewrite Hloop.
  - exact Hps.
  - apply Forall_rev. eapply Forall_impl; [exact Hall|].
    intros p Hp. now apply stop_cond_true.
  - exact Hend.
  - now apply Hexit.
  - now apply Hexit.
  - intros Hadj q Hq. cbn [set_rPause set_rEnd rEnd rPause] in *.
    rewrite Hend. destruct (rev dropped) as [|d rd] eqn:Hrd.
    + now apply Hexit.
    + rewrite Hps in Hadj.
      apply (adjacent_app_inv _ _ _ Hadj q d Hq eq_refl).
Qed.

(** An open record whose second pause starts while the first is running. *)
Definition overlapping_record : RecordT :=
  mkRecord "work" (clock 9 0) NoTime "" []
    [mkPause (clock 10 0) (clock 10 50) ""; mkPause (clock 10 30) NoTime ""].

(** C3 (as the specification words it) fails: stopped at 11:00, the record
    with the overlapping pauses ends at 10:30, the start of the open pause,
    and the pause that remains ends at 10:50, after the new end. *)
Lemma StopRecord_overlapping_pauses :
  StopRecord (Ok (Some overlapping_record)) (fun _ _ => None) (clock 11 0)
  = (Some (mkRecord "work" (clock 9 0) (clock 10 30) "" []
             [mkPause (clock 10 0) (clock 10 50) ""]),
     None)
  /\ HasEnded overlapping_record = false
  /\ last (rPause (stop_record overlapping_record (clock 11 0)))
     = Some (mkPause (clock 10 0) (clock 10 50) "")
  /\ (rEnd (stop_record overlapping_record (clock 11 0)) < clock 10 50)%N.
Proof. vm_compute. repeat split. Qed.

(** ** The record store on disk (record.go) *)

(** A path is its list of segments; [filepath.Dir] drops the last one. *)
Definition Dir (p : list string) : list string := removelast p.

(** What a path holds: a file, with its bytes and whether the process may
    read it, or a directory. *)
Inductive node :=
| File (data : string) (readable : bool)
| Directory.

Definition is_child (d k : list string) : bool :=
  bool_decide (k <> [] /\ Dir k = d).

(** No entry of the file system lies directly in [d]. *)
Definition no_entries (fs : gmap (list string) node) (d : list string) : bool :=
  forallb (fun kv => negb (is_child d (fst kv))) (map_to_list fs).

(** [os.ReadFile]: every failure is an [*os.PathError]. *)
Definition os_ReadFile (fs : gmap (list string) node) (p : list string)
  : result string :=
  match fs !! p with
  | None => Err (PathError "open" p ENOENT)
  | Some Directory => Err (PathError "read" p EISDIR)
  | Some (File data readable) =>
      if readable then Ok data else Err (PathError "open" p EACCES)
  end.

(** [os.Remove]: removes a file or an empty directory. *)
Definition os_Remove (fs : gmap (list string) node) (p : list string)
  : gmap (list string) node * option error :=
  match fs !! p with
  | None => (fs, Some (PathError "remove" p ENOENT))
  | Some (File _ _) => (delete p fs, None)
  | Some Directory =>
      if no_entries fs p then (delete p fs, None)
      else (fs, Some (PathError "remove" p ENOTEMPTY))
  end.

(** Modelled from the spec: [fs.FileExists] of the repository's [fs] package,
    the "path existence" check of the file system collaborator. *)
Definition FileExists (fs : gmap (list string) node) (p : list string) : bool :=
  match fs !! p with Some _ => true | None => false end.

(** Modelled from the spec: [fs.DirIsEmpty] of the repository's [fs] package,
    the "is directory empty" check; it fails on what is not a directory. *)
Definition DirIsEmpty (fs : gmap (list string) node) (d : list string)
  : result bool :=
  match fs !! d with
  | None => Err (PathError "open" d ENOENT)
  | Some (File _ _) => Err (PathError "readdirent" d ENOTDIR)
  | Some Directory => Ok (no_entries fs d)
  end.

Section RecordStore.

(** The records directory of the workspace, and the four path segments a
    start time is formatted to (year, month, day, time of day with the file
    extension). *)
Variable RecordsDir : list string.
Variables dirYear dirMonth dirDay fileName : time -> string.

Definition RecordDir (tm : time) : list string :=
  RecordsDir ++ [dirYear tm; dirMonth tm; dirDay tm].

Definition RecordPath (tm : time) : list string :=
  RecordDir tm ++ [fileName tm].

Definition DeleteRecord (fs : gmap (list string) node) (record : RecordT)
  : gmap (list string) node * option error :=
  let path := RecordPath (rStart record) in
  if negb (FileExists fs path) then
    (fs, Some (Errorf "record does not exist"))
  else
    match os_Remove fs path with
    | (fs1, Some err) => (fs1, Some err)
    | (fs1, None) =>
        let dayDir := Dir path in
        match DirIsEmpty fs1 dayDir with
        | Err err => (fs1, Some err)
        | Ok false => (fs1, None)
        | Ok true =>
            let fs2 := fst (os_Remove fs1 dayDir) in
            let monthDir := Dir dayDir in
            match DirIsEmpty fs2 monthDir with
            | Err err => (fs2, Some err)
            | Ok false => (fs2, None)
            | Ok true =>
                let fs3 := fst (os_Remove fs2 monthDir) in
                let yearDir := Dir monthDir in
                match DirIsEmpty fs3 yearDir with
                | Err err => (fs3, Some err)
                | Ok false => (fs3, None)
                | Ok true => (fst (os_Remove fs3 yearDir), None)
                end
            end
        end
    end.

(** *** Facts about paths and directory listings *)

Lemma Dir_snoc (d : list string) (x : string) : Dir (d ++ [x]) = d.
Proof. unfold Dir. apply removelast_last. Qed.

Lemma snoc_neq (d : list string) (x : string) : d ++ [x] <> d.
Proof.
  intros Heq. apply (f_equal (@length string)) in Heq.
  rewrite length_app in Heq. simpl in Heq. lia.
Qed.

Lemma snoc2_neq (d : list string) (x y : string) : (d ++ [x]) ++ [y] <> d.
Proof.
  intros Heq. apply (f_equal (@length string)) in Heq.
  rewrite !length_app in Heq. simpl in Heq. lia.
Qed.

Lemma snoc3_neq (d : list string) (x y z : string) :
  ((d ++ [x]) ++ [y]) ++ [z] <> d.
Proof.
  intros Heq. apply (f_equal (@length string)) in Heq.
  rewrite !length_app in Heq. simpl in Heq. lia.
Qed.

Lemma is_child_spec (d k : list string) :
  is_child d k = true <-> exists x, k = d ++ [x].
Proof.
  unfold is_child. rewrite bool_decide_eq_true. split.
  - intros [Hne <-]. destruct (exists_last Hne) as (k' & x & ->).
    exists x. now rewrite Dir_snoc.
  - intros [x ->]. split; [now destruct d | apply Dir_snoc].
Qed.

Lemma no_entries_spec (fs : gmap (list string) node) (d : list string) :
  no_entries fs d = true
  <-> forall k, is_child d k = true -> fs !! k = None.
Proof.
  unfold no_entries. rewrite forallb_forall. split.
  - intros Hall k Hk. destruct (fs !! k) as [n|] eqn:Hlook; [|reflexivity].
    apply elem_of_map_to_list, list_elem_of_In, Hall in Hlook.
    simpl in Hlook. rewrite Hk in Hlook. discriminate.
  - intros Hnone [k n] Hin%list_elem_of_In%elem_of_map_to_list. simpl.
    destruct (is_child d k) eqn:Hk; [|reflexivity].
    rewrite (Hnone k Hk) in Hin. discriminate.
Qed.

(** [d] holds nothing besides [k]. *)
Definition only_entry (fs : gmap (list string) node) (d k : list string) : Prop :=
  forall k', is_child d k' = true -> k' <> k -> fs !! k' = None.

Lemma no_entries_delete (fs : gmap (list string) node) (d k : list string) :
  no_entries (delete k fs) d = true <-> only_entry fs d k.
Proof.
  rewrite no_entries_spec. unfold only_entry. split.
  - intros H k' Hc Hne. specialize (H k' Hc).
    now rewrite lookup_delete_ne in H.
  - intros H k' Hc. destruct (decide (k = k')) as [->|Hne].
    + apply lookup_delete_eq.
    + rewrite lookup_delete_ne by exact Hne. apply H; [exact Hc|congruence].
Qed.

(** Removing entries that are not children of [d] does not change whether
    [d] is empty. *)
Lemma no_entries_delete_other (fs : gmap (list string) node) (d k : list string) :
  is_child d k = false ->
  no_entries (delete k fs) d = no_entries fs d.
Proof.
  intros Hnc. apply eq_true_iff_eq. rewrite !no_entries_spec. split.
  - intros H k' Hc. specialize (H k' Hc).
    rewrite lookup_delete_ne in H; [exact H|]. intros ->. congruence.
  - intros H k' Hc. rewrite lookup_delete_ne; [now apply H|].
    intros ->. congruence.
Qed.

Lemma is_child_grandchild (d : list string) (x y : string) :
  is_child d ((d ++ [x]) ++ [y]) = false.
Proof.
  apply not_true_iff_false. rewrite is_child_spec. intros [z Hz].
  apply (f_equal (@length string)) in Hz. rewrite !length_app in Hz.
  simpl in Hz. lia.
Qed.

Lemma is_child_great_grandchild (d : list string) (x y z : string) :
  is_child d (((d ++ [x]) ++ [y]) ++ [z]) = false.
Proof.
  apply not_true_iff_false. rewrite is_child_spec. intros [w Hw].
  apply (f_equal (@length string)) in Hw. rewrite !length_app in Hw.
  simpl in Hw. lia.
Qed.

(** The directories above a record file. *)
Definition yearDirOf (tm : time) : list string := RecordsDir ++ [dirYear tm].
Definition monthDirOf (tm : time) : list string := yearDirOf tm ++ [dirMonth tm].

Lemma RecordDir_chain (tm : time) : RecordDir tm = monthDirOf tm ++ [dirDay tm].
Proof.
  unfold RecordDir, monthDirOf, yearDirOf. now rewrite <- !app_assoc.
Qed.

(** The store after a successful delete: the file is removed, then each
    directory above it as long as the one below was removed and left it
    empty. *)
Definition cascade (fs : gmap (list string) node) (tm : time)
  : gmap (list string) node :=
  let fs1 := delete (RecordPath tm) fs in
  if no_entries fs1 (RecordDir tm) then
    let fs2 := delete (RecordDir tm) fs1 in
    if no_entries fs2 (monthDirOf tm) then
      let fs3 := delete (monthDirOf tm) fs2 in
      if no_entries fs3 (yearDirOf tm) then delete (yearDirOf tm) fs3 else fs3
    else fs2
  else fs1.

(** The directories of a record file exist. *)
Definition dirs_exist (fs : gmap (list string) node) (tm : time) : Prop :=
  fs !! RecordDir tm = Some Directory
  /\ fs !! monthDirOf tm = Some Directory
  /\ fs !! yearDirOf tm = Some Directory.

Lemma os_Remove_file (fs : gmap (list string) node) (p : list string)
    (data : string) (readable : bool) :
  fs !! p = Some (File data readable) -> os_Remove fs p = (delete p fs, None).
Proof. intros H. unfold os_Remove. now rewrite H. Qed.

Lemma os_Remove_empty_dir (fs : gmap (list string) node) (d : list string) :
  fs !! d = Some Directory -> no_entries fs d = true ->
  os_Remove fs d = (delete d fs, None).
Proof. intros H E. unfold os_Remove. now rewrite H, E. Qed.

Lemma DirIsEmpty_dir (fs : gmap (list string) node) (d : list string) :
  fs !! d = Some Directory -> DirIsEmpty fs d = Ok (no_entries fs d).
Proof. intros H. unfold DirIsEmpty. now rewrite H. Qed.

Lemma store_paths_distinct (tm : time) :
  Dir (RecordPath tm) = RecordDir tm
  /\ Dir (RecordDir tm) = monthDirOf tm
  /\ Dir (monthDirOf tm) = yearDirOf tm
  /\ RecordPath tm <> RecordDir tm
  /\ RecordPath tm <> monthDirOf tm
  /\ RecordPath tm <> yearDirOf tm
  /\ RecordDir tm <> monthDirOf tm
  /\ RecordDir tm <> yearDirOf tm
  /\ monthDirOf tm <> yearDirOf tm.
Proof.
  unfold RecordPath. rewrite RecordDir_chain. unfold monthDirOf.
  repeat split;
    auto using Dir_snoc, snoc_neq, snoc2_neq, snoc3_neq.
Qed.

Lemma DeleteRecord_present (fs : gmap (list string) node) (record : RecordT)
    (data : string) (readable : bool) :
  fs !! RecordPath (rStart record) = Some (File data readable) ->
  dirs_exist fs (rStart record) ->
  DeleteRecord fs record = (cascade fs (rStart record), None).
Proof.
  intros Hfile (Hday & Hmonth & Hyear).
  unfold DeleteRecord, cascade, FileExists.
  rewrite Hfile. cbn [negb].
  set (tm := rStart record) in *.
  destruct (store_paths_distinct tm)
    as (HdirP & HdirD & HdirM & Hpd & Hpm & Hpy & Hdm & Hdy & Hmy).
  rewrite HdirP, HdirD, HdirM.
  rewrite (os_Remove_file _ _ _ _ Hfile).
  rewrite DirIsEmpty_dir by now rewrite lookup_delete_ne.
  destruct (no_entries (delete (RecordPath tm) fs) (RecordDir tm)) eqn:E1;
    [|reflexivity].
  rewrite os_Remove_empty_dir by (try exact E1; now rewrite lookup_delete_ne).
  cbn [fst].
  rewrite DirIsEmpty_dir by now rewrite !lookup_delete_ne.
  destruct (no_entries (delete (RecordDir tm) (delete (RecordPath tm) fs))
              (monthDirOf tm)) eqn:E2; [|reflexivity].
  rewrite os_Remove_empty_dir by (try exact E2; now rewrite !lookup_delete_ne).
  cbn [fst].
  rewrite DirIsEmpty_dir by now rewrite !lookup_delete_ne.
  destruct (no_entries _ (yearDirOf tm)) eqn:E3; [|reflexivity].
  rewrite os_Remove_empty_dir by (try exact E3; now rewrite !lookup_delete_ne).
  reflexivity.
Qed.

(** Settles [x = None <-> P] once [x] is a known value and [P] is decided by
    the hypotheses. *)
Ltac by_value :=
  split; intros; first [reflexivity | discriminate | exfalso; tauto | tauto].

Lemma only_entry_delete_other (fs : gmap (list string) node) (d k k2 : list string) :
  is_child d k = false ->
  only_entry (delete k fs) d k2 <-> only_entry fs d k2.
Proof.
  intros Hnc. unfold only_entry. split; intros H k' Hc Hne.
  - specialize (H k' Hc Hne). rewrite lookup_delete_ne in H; [exact H|].
    intros ->. congruence.
  - rewrite lookup_delete_ne; [now apply H|]. intros ->. congruence.
Qed.

Lemma cascade_lookup (fs : gmap (list string) node) (tm : time)
    (data : string) (readable : bool) :
  fs !! RecordPath tm = Some (File data readable) ->
  dirs_exist fs tm ->
  cascade fs tm !! RecordPath tm = None
  /\ (cascade fs tm !! RecordDir tm = None
      <-> only_entry fs (RecordDir tm) (RecordPath tm))
  /\ (cascade fs tm !! monthDirOf tm = None
      <-> only_entry fs (RecordDir tm) (RecordPath tm)
          /\ only_entry fs (monthDirOf tm) (RecordDir tm))
  /\ (cascade fs tm !! yearDirOf tm = None
      <-> only_entry fs (RecordDir tm) (RecordPath tm)
          /\ only_entry fs (monthDirOf tm) (RecordDir tm)
          /\ only_entry fs (yearDirOf tm) (monthDirOf tm))
  /\ (forall q, cascade fs tm !! q = fs !! q
                \/ (cascade fs tm !! q = None
                    /\ (q = RecordPath tm \/ q = RecordDir tm
                        \/ q = monthDirOf tm \/ q = yearDirOf tm))).
Proof.
  intros Hfile (Hday & Hmonth & Hyear).
  destruct (store_paths_distinct tm)
    as (HdirP & HdirD & HdirM & Hpd & Hpm & Hpy & Hdm & Hdy & Hmy).
  assert (HcMP : is_child (monthDirOf tm) (RecordPath tm) = false).
  { unfold RecordPath. rewrite RecordDir_chain. apply is_child_grandchild. }
  assert (HcYP : is_child (yearDirOf tm) (RecordPath tm) = false).
  { unfold RecordPath. rewrite RecordDir_chain.
    apply is_child_great_grandchild. }
  assert (HcYD : is_child (yearDirOf tm) (RecordDir tm) = false).
  { rewrite RecordDir_chain. apply is_child_grandchild. }
  pose proof (no_entries_delete fs (RecordDir tm) (RecordPath tm)) as HE1.
  pose proof (no_entries_delete (delete (RecordPath tm) fs)
                (monthDirOf tm) (RecordDir tm)) as HE2.
  rewrite only_entry_delete_other in HE2 by exact HcMP.
  pose proof (no_entries_delete
                (delete (RecordDir tm) (delete (RecordPath tm) fs))
                (yearDirOf tm) (monthDirOf tm)) as HE3.
  rewrite !only_entry_delete_other in HE3 by assumption.
  assert (Hq : forall q,
             q <> RecordPath tm -> q <> RecordDir tm -> q <> monthDirOf tm ->
             delete (monthDirOf tm)
               (delete (RecordDir tm) (delete (RecordPath tm) fs)) !! q = fs !! q).
  { intros q ? ? ?. now rewrite !lookup_delete_ne by congruence. }
  assert (Hgone : forall q,
             q = RecordPath tm \/ q = RecordDir tm \/ q = monthDirOf tm ->
             delete (monthDirOf tm)
               (delete (RecordDir tm) (delete (RecordPath tm) fs)) !! q = None).
  { intros q [ -> | [ -> | -> ] ].
    - rewrite !lookup_delete_ne by congruence. apply lookup_delete_eq.
    - rewrite lookup_delete_ne by congruence. apply lookup_delete_eq.
    - apply lookup_delete_eq. }
  unfold cascade.
  destruct (no_entries (delete (RecordPath tm) fs) (RecordDir tm)) eqn:E1.
  2:{ assert (N1 : ~ only_entry fs (RecordDir tm) (RecordPath tm))
        by (rewrite <- HE1; congruence).
      refine (conj _ (conj _ (conj _ (conj _ _)))).
      - apply lookup_delete_eq.
      - rewrite lookup_delete_ne, Hday by exact Hpd. by_value.
      - rewrite lookup_delete_ne, Hmonth by exact Hpm. by_value.
      - rewrite lookup_delete_ne, Hyear by exact Hpy. by_value.
      - intros q. destruct (decide (q = RecordPath tm)) as [->|Hne].
        + right. split; [apply lookup_delete_eq | tauto].
        + left. now rewrite lookup_delete_ne. }
  pose proof (proj1 HE1 ltac:(first [reflexivity | assumption])) as K1.
  destruct (no_entries (delete (RecordDir tm) (delete (RecordPath tm) fs))
              (monthDirOf tm)) eqn:E2.
  2:{ assert (N2 : ~ only_entry fs (monthDirOf tm) (RecordDir tm))
        by (rewrite <- HE2; congruence).
      refine (conj _ (conj _ (conj _ (conj _ _)))).
      - rewrite lookup_delete_ne by congruence. apply lookup_delete_eq.
      - rewrite lookup_delete_eq. by_value.
      - rewrite !lookup_delete_ne, Hmonth by congruence. by_value.
      - rewrite !lookup_delete_ne, Hyear by congruence. by_value.
      - intros q. destruct (decide (q = RecordDir tm)) as [->|Hq1].
        { right. split; [apply lookup_delete_eq | tauto]. }
        destruct (decide (q = RecordPath tm)) as [->|Hq2].
        { right. split; [|tauto].
          rewrite lookup_delete_ne by congruence. apply lookup_delete_eq. }
        left. now rewrite !lookup_delete_ne by congruence. }
  pose proof (proj1 HE2 ltac:(first [reflexivity | assumption])) as K2.
  destruct (no_entries _ (yearDirOf tm)) eqn:E3.
  2:{ assert (N3 : ~ only_entry fs (yearDirOf tm) (monthDirOf tm))
        by (rewrite <- HE3; congruence).
      refine (conj _ (conj _ (conj _ (conj _ _)))).
      - apply Hgone; tauto.
      - rewrite Hgone by tauto. by_value.
      - rewrite Hgone by tauto. by_value.
      - rewrite Hq, Hyear by congruence. by_value.
      - intros q.
        destruct (decide (q = RecordPath tm)); [right; split; [apply Hgone|]; tauto|].
        destruct (decide (q = RecordDir tm)); [right; split; [apply Hgone|]; tauto|].
        destruct (decide (q = monthDirOf tm)); [right; split; [apply Hgone|]; tauto|].
        left. now apply Hq. }
  pose proof (proj1 HE3 ltac:(first [reflexivity | assumption])) as K3.
  refine (conj _ (conj _ (conj _ (conj _ _)))).
  - rewrite lookup_delete_ne by congruence. apply Hgone; tauto.
  - rewrite lookup_delete_ne, Hgone by (congruence || tauto). by_value.
  - rewrite lookup_delete_ne, Hgone by (congruence || tauto). by_value.
  - rewrite lookup_delete_eq. by_value.
  - intros q.
    destruct (decide (q = yearDirOf tm)) as [->|Hy];
      [right; split; [apply lookup_delete_eq | tauto]|].
    rewrite lookup_delete_ne by congruence.
    destruct (decide (q = RecordPath tm)); [right; split; [apply Hgone|]; tauto|].
    destruct (decide (q = RecordDir tm)); [right; split; [apply Hgone|]; tauto|].
    destruct (decide (q = monthDirOf tm)); [right; split; [apply Hgone|]; tauto|].
    left. now apply Hq.
Qed.

(** C7. [DeleteRecord] on a record whose file is absent fails with "record
    does not exist" and leaves the store as it was.  When the file is there
    (and the directories above it), the delete succeeds; afterwards the file
    is gone, the day directory is gone exactly when the file was its only
    entry, the month directory exactly when moreover the day directory was
    its only entry, the year directory exactly when moreover the month
    directory was its only entry; every other path holds what it held, and
    a removed path is one of these four.  Another record of the same month
    keeps the month and the year directory in place. *)
Theorem DeleteRecord_cascade :
  forall (fs : gmap (list string) node) (record : RecordT),
    (fs !! RecordPath (rStart record) = None ->
       DeleteRecord fs record = (fs, Some (Errorf "record does not exist")))
    /\ (forall data readable,
          fs !! RecordPath (rStart record) = Some (File data readable) ->
          dirs_exist fs (rStart record) ->
          exists fs',
            DeleteRecord fs record = (fs', None)
            /\ fs' !! RecordPath (rStart record) = None
            /\ (fs' !! RecordDir (rStart record) = None
                <-> only_entry fs (RecordDir (rStart record))
                      (RecordPath (rStart record)))
            /\ (fs' !! monthDirOf (rStart record) = None
                <-> only_entry fs (RecordDir (rStart record))
                      (RecordPath (rStart record))
                    /\ only_entry fs (monthDirOf (rStart record))
                         (RecordDir (rStart record)))
            /\ (fs' !! yearDirOf (rStart record) = None
                <-> only_entry fs (RecordDir (rStart record))
                      (RecordPath (rStart record))
                    /\ only_entry fs (monthDirOf (rStart record))
                         (RecordDir (rStart record))
                    /\ only_entry fs (yearDirOf (rStart record))
                         (monthDirOf (rStart record)))
            /\ (forall q,
                  fs' !! q = fs !! q
                  \/ (fs' !! q = None
                      /\ (q = RecordPath (rStart record)
                          \/ q = RecordDir (rStart record)
                          \/ q = monthDirOf (rStart record)
                          \/ q = yearDirOf (rStart record))))
            /\ (forall tm',
                  monthDirOf tm' = monthDirOf (rStart record) ->
                  RecordPath tm' <> RecordPath (rStart record) ->
                  is_Some (fs !! RecordPath tm') ->
                  is_Some (fs !! RecordDir tm') ->
                  fs' !! monthDirOf (rStart record) = Some Directory
                  /\ fs' !! yearDirOf (rStart record) = Some Directory)).
Proof.
  intros fs record. split.
  - intros Habsent. unfold DeleteRecord, FileExists. now rewrite Habsent.
  - intros data readable Hfile Hdirs.
    exists (cascade fs (rStart record)).
    set (tm := rStart record) in *.
    destruct (cascade_lookup fs tm data readable Hfile Hdirs)
      as (HP & HD & HM & HY & Hframe).
    split; [now apply (DeleteRecord_present fs record data readable)|].
    refine (conj HP (conj HD (conj HM (conj HY (conj Hframe _))))).
    intros tm' Hsame Hdiff [n Hn] [n' Hn'].
    assert (Hnot : ~ (only_entry fs (RecordDir tm) (RecordPath tm)
                      /\ only_entry fs (monthDirOf tm) (RecordDir tm))).
    { intros [K1 K2].
      destruct (decide (RecordDir tm' = RecordDir tm)) as [Heq|Hne].
      - rewrite (K1 (RecordPath tm')) in Hn; [discriminate| |exact Hdiff].
        apply is_child_spec. exists (fileName tm').
        unfold RecordPath. now rewrite Heq.
      - rewrite (K2 (RecordDir tm')) in Hn'; [discriminate| |exact Hne].
        apply is_child_spec. exists (dirDay tm').
        now rewrite RecordDir_chain, Hsame. }
    destruct Hdirs as (_ & Hmonth & Hyear).
    split.
    + destruct (Hframe (monthDirOf tm)) as [Hsame'|[Hgone _]].
      * now rewrite Hsame'.
      * apply HM in Hgone. tauto.
    + destruct (Hframe (yearDirOf tm)) as [Hsame'|[Hgone _]].
      * now rewrite Hsame'.
      * apply HY in Hgone. tauto.
Qed.

(** *** LoadRecord *)

(** The decoder of a record file ([DeserializeRecord], in the serialization
    file of the package). *)
Variable DeserializeRecord : string -> time -> result RecordT.

Definition LoadRecord (fs : gmap (list string) node) (tm : time)
  : result RecordT :=
  let path := RecordPath tm in
  match os_ReadFile fs path with
  | Err err =>
      match err with
      | PathError _ _ _ => Err ErrRecordNotFound
      | _ => Err err
      end
  | Ok file =>
      match DeserializeRecord file tm with
      | Err err => Err err
      | Ok record => Ok record
      end
  end.

Lemma LoadRecord_absent (fs : gmap (list string) node) (tm : time) :
  fs !! RecordPath tm = None -> LoadRecord fs tm = Err ErrRecordNotFound.
Proof. intros H. unfold LoadRecord, os_ReadFile. now rewrite H. Qed.

(** Every failure of [os.ReadFile] is answered with [ErrRecordNotFound]: the
    file that is there but may not be read, and the path that is a
    directory, as well as the file that is not there. *)
Lemma LoadRecord_read_failure (fs : gmap (list string) node) (tm : time)
    (err : error) :
  os_ReadFile fs (RecordPath tm) = Err err ->
  LoadRecord fs tm = Err ErrRecordNotFound.
Proof.
  intros H. unfold LoadRecord. rewrite H.
  unfold os_ReadFile in H.
  destruct (fs !! RecordPath tm) as [[data [|]|]|]; try discriminate;
    now injection H as <-.
Qed.

Lemma LoadRecord_unreadable (fs : gmap (list string) node) (tm : time)
    (data : string) :
  fs !! RecordPath tm = Some (File data false) ->
  LoadRecord fs tm = Err ErrRecordNotFound.
Proof. intros H. unfold LoadRecord, os_ReadFile. now rewrite H. Qed.

Lemma LoadRecord_readable (fs : gmap (list string) node) (tm : time)
    (data : string) :
  fs !! RecordPath tm = Some (File data true) ->
  LoadRecord fs tm = DeserializeRecord data tm.
Proof.
  intros H. unfold LoadRecord, os_ReadFile. rewrite H.
  now destruct (DeserializeRecord data tm).
Qed.

End RecordStore.

(** *** A concrete store *)

(** The examples format start times with a simplified calendar: days are
    counted from the zero instant, a month has 30 days and a year 12 months. *)
Definition digits (n : N) : string := NilZero.string_of_uint (N.to_uint n).
Definition two_digits (n : N) : string :=
  if (n <? 10)%N then "0" ++ digits n else digits n.

Definition day_index (t : time) : N := (t / (86400 * 1000000000))%N.
Definition minute_of_day (t : time) : N :=
  ((t / (60 * 1000000000)) mod 1440)%N.

Definition ex_year (t : time) : string := digits (day_index t / 360 + 1).
Definition ex_month (t : time) : string :=
  two_digits ((day_index t mod 360) / 30 + 1).
Definition ex_day (t : time) : string := two_digits (day_index t mod 30 + 1).
Definition ex_file (t : time) : string :=
  two_digits (minute_of_day t / 60) ++ "-" ++ two_digits (minute_of_day t mod 60)
  ++ ".yml".

Definition ex_root : list string := ["records"].

Definition ex_decode (data : string) (tm : time) : result RecordT :=
  if String.eqb data "" then Err (Errorf "empty record file")
  else Ok (mkRecord data tm NoTime "" [] []).

Definition ex_path := RecordPath ex_root ex_year ex_month ex_day ex_file.

Example ex_path_0900 :
  ex_path (clock 9 0) = ["records"; "2051"; "01"; "01"; "09-00.yml"].
Proof. vm_compute. reflexivity. Qed.

Definition ex_dirs : gmap (list string) node :=
  <[ ["records"; "2051"; "01"; "01"] := Directory ]>
  (<[ ["records"; "2051"; "01"] := Directory ]>
  (<[ ["records"; "2051"] := Directory ]>
  (<[ ["records"] := Directory ]> ∅))).

(** One record in the whole store. *)
Definition ex_store_single : gmap (list string) node :=
  <[ ["records"; "2051"; "01"; "01"; "09-00.yml"] := File "work" true ]> ex_dirs.

(** The same, and a record on the next day of the month. *)
Definition ex_store_sibling : gmap (list string) node :=
  <[ ["records"; "2051"; "01"; "02"; "09-00.yml"] := File "home" true ]>
  (<[ ["records"; "2051"; "01"; "02"] := Directory ]> ex_store_single).

(** The single record, not readable by the process. *)
Definition ex_store_locked : gmap (list string) node :=
  <[ ["records"; "2051"; "01"; "01"; "09-00.yml"] := File "work" false ]> ex_dirs.

Definition ex_record : RecordT := mkRecord "work" (clock 9 0) NoTime "" [] [].

Definition ex_DeleteRecord :=
  DeleteRecord ex_root ex_year ex_month ex_day ex_file.

Definition ex_LoadRecord :=
  LoadRecord ex_root ex_year ex_month ex_day ex_file ex_decode.

(** Deleting the only record removes the day, month and year directories. *)
Example DeleteRecord_sole_record :
  ex_DeleteRecord ex_store_single ex_record
  = (<[ ["records"] := Directory ]> ∅, None).
Proof. vm_compute. reflexivity. Qed.

(** With a record on another day of the month only the day directory goes. *)
Example DeleteRecord_with_sibling :
  ex_DeleteRecord ex_store_sibling ex_record
  = (delete ["records"; "2051"; "01"; "01"]
       (delete ["records"; "2051"; "01"; "01"; "09-00.yml"] ex_store_sibling),
     None).
Proof. vm_compute. reflexivity. Qed.

Example DeleteRecord_missing :
  ex_DeleteRecord ex_dirs ex_record
  = (ex_dirs, Some (Errorf "record does not exist")).
Proof. vm_compute. reflexivity. Qed.

(** C6 on a file that exists but may not be read: [os.ReadFile] fails with a
    permission [*os.PathError], and [LoadRecord] answers with the same
    [ErrRecordNotFound] it gives for a file that does not exist. *)
Theorem LoadRecord_permission_denied_is_not_found :
  os_ReadFile ex_store_locked (ex_path (clock 9 0))
    = Err (PathError "open" (ex_path (clock 9 0)) EACCES)
  /\ ex_LoadRecord ex_store_locked (clock 9 0) = Err ErrRecordNotFound
  /\ ex_LoadRecord ex_dirs (clock 9 0) = Err ErrRecordNotFound.
Proof. vm_compute. repeat split. Qed.

(** C7 at a concrete store: the delete of the only record of its day, with a
    record on the next day, succeeds, removes the day directory and keeps the
    month and year directories. *)
Lemma DeleteRecord_cascade_witness :
  exists fs',
    ex_DeleteRecord ex_store_sibling ex_record = (fs', None)
    /\ fs' !! ["records"; "2051"; "01"; "01"] = None
    /\ fs' !! ["records"; "2051"; "01"] = Some Directory
    /\ fs' !! ["records"; "2051"] = Some Directory.
Proof.
  destruct (DeleteRecord_cascade ex_root ex_year ex_month ex_day ex_file
              ex_store_sibling ex_record) as [_ Hpresent].
  destruct (Hpresent "work" true)
    as (fs' & Hdel & _ & HD & _ & _ & _ & Hsib).
  - vm_compute. reflexivity.
  - vm_compute. repeat split.
  - exists fs'. split; [exact Hdel|]. split.
    + apply HD. apply no_entries_delete. vm_compute. reflexivity.
    + apply (Hsib (clock 33 0)).
      * vm_compute. reflexivity.
      * vm_compute. discriminate.
      * vm_compute. eexists. reflexivity.
      * vm_compute. eexists. reflexivity.
Defined.

(** ** Durations (record.go) *)

Section Durations.

(** [util.DurationClip start end min max] of the repository's [util]
    package: the length of the span from [start] to [end] ("now" when [end]
    is zero) cut down to the window from [min] to [max]. *)
Variable DurationClip : time -> time -> time -> time -> duration.

Definition Pause_Duration (p : Pause) (min max : time) : duration :=
  DurationClip (pStart p) (pEnd p) min max.

Definition PauseDuration (r : RecordT) (min max : time) : duration :=
  fold_left (fun dur p => dur_add dur (Pause_Duration p min max)) (rPause r) 0%Z.

Definition TotalDuration (r : RecordT) (min max : time) : duration :=
  DurationClip (rStart r) (rEnd r) min max.

Definition Duration (r : RecordT) (min max : time) : duration :=
  dur_sub (DurationClip (rStart r) (rEnd r) min max) (PauseDuration r min max).

Definition CurrentPauseDuration (r : RecordT) (min max : time) : duration :=
  match last (rPause r) with
  | None => 0%Z
  | Some lastp => if IsPaused r then Pause_Duration lastp min max else 0%Z
  end.

End Durations.

(** Modelled from the spec: [util.DurationClip], at the instant [now]: an
    open span ends now, the span is cut to its overlap with the window (a
    zero bound leaves that side open), and an empty overlap counts zero. *)
Definition DurationClip_at (now : time) (start end_ min max : time) : duration :=
  let end_ := if IsZero end_ then now else end_ in
  let start := if negb (IsZero min) && Before start min then min else start in
  let end_ := if negb (IsZero max) && After end_ max then max else end_ in
  if Before end_ start then 0%Z else (Z.of_N end_ - Z.of_N start)%Z.

(** ** The duration without arguments (core/record.go, [Record.Duration]) *)

(** [time.Time.Sub]: the difference, saturated to 64 bits. *)
Definition Sub (t u : time) : duration :=
  Z.max (- 2 ^ 63) (Z.min (2 ^ 63 - 1) (Z.of_N t - Z.of_N u)).

(** [Record.Duration()], the method without arguments: the span from the
    start to the end, or to [time.Now()] for a record that has no end.  It
    is the method the call [rec.Duration()] of the reporter binds to; it
    takes no window and looks at no pause. *)
Definition Duration_plain (now : time) (r : RecordT) : duration :=
  let t := if IsZero (rEnd r) then now else rEnd r in
  Sub t (rStart r).

(** ** Project tree (modelled) and report aggregation (report.go) *)

(** Modelled from the spec: the project tree ([ToProjectTree], [Ancestors],
    [Descendants]) lives in the project file of the package.  The tree is
    the index from names to projects read through the parent names;
    [Ancestors] lists the ancestors nearest first and fails on a name that
    is not in the tree. *)
Fixpoint ancestors_from (projects : gmap string Project) (fuel : nat)
    (parent : string) : list Project :=
  match fuel with
  | O => []
  | S fuel' =>
      match projects !! parent with
      | None => []
      | Some p => p :: ancestors_from projects fuel' (prjParent p)
      end
  end.

Definition Ancestors (projects : gmap string Project) (name : string)
  : option (list Project) :=
  match projects !! name with
  | None => None
  | Some p => Some (ancestors_from projects (size projects) (prjParent p))
  end.

(** Modelled from the spec: [Descendants] lists all transitive children and
    fails on a name that is not in the tree. *)
Definition Descendants (projects : gmap string Project) (name : string)
  : option (list Project) :=
  match projects !! name with
  | None => None
  | Some _ =>
      Some (filter
              (fun q => existsb (fun a => String.eqb (prjName a) name)
                          (ancestors_from projects (size projects) (prjParent q)))
              (map snd (map_to_list projects)))
  end.

Record TimeRange := mkTimeRange {
  trStart : time;
  trEnd : time
}.

Record Reporter := mkReporter {
  Records : list RecordT;
  Projects : gmap string Project;
  ProjectTime : gmap string duration;
  AllProjects : gmap string Project;
  ReportRange : TimeRange
}.

(** Reading a Go map of durations: a missing key reads as zero. *)
Definition get_total (totals : gmap string duration) (k : string) : duration :=
  default 0%Z (totals !! k).

Section Report.

(** The instant [time.Now()] returns while the report runs: [rec.Duration()]
    reads the clock for a record that has no end. *)
Variable now : time.

(** The selection of projects: all of them for an empty [proj], otherwise
    each named project and its descendants. *)
Fixpoint select_projects (allProjects : gmap string Project)
    (proj : list string) (projects : gmap string Project)
  : result (gmap string Project) :=
  match proj with
  | [] => Ok projects
  | p :: rest =>
      let project := default zeroProject (allProjects !! p) in
      let projects := <[prjName project := project]> projects in
      match Descendants allProjects (prjName project) with
      | None =>
          Err (Errorf ("BUG! Project '" ++ prjName project ++ "' not in project tree"))
      | Some desc =>
          select_projects allProjects rest
            (fold_left
               (fun m p2 =>
                  match m !! prjName p2 with
                  | Some _ => m
                  | None => <[prjName p2 := p2]> m
                  end)
               desc projects)
      end
  end.

(** One turn of the loop over the records: what [rec.Duration()] returns goes
    to the accumulator of the project of the record, and the time range
    grows. *)
Definition add_record (acc : gmap string duration * TimeRange) (rec : RecordT)
  : gmap string duration * TimeRange :=
  let '(totals, tRange) := acc in
  let totals :=
    <[rProject rec :=
        dur_add (get_total totals (rProject rec)) (Duration_plain now rec)]>
      totals in
  let tRange :=
    if IsZero (trStart tRange) || Before (rStart rec) (trStart tRange)
    then mkTimeRange (rStart rec) (trEnd tRange) else tRange in
  let tRange :=
    if IsZero (rEnd rec) then
      if IsZero (trEnd tRange) || After (rStart rec) (trEnd tRange)
      then mkTimeRange (trStart tRange) (rStart rec) else tRange
    else
      if IsZero (trEnd tRange) || After (rEnd rec) (trEnd tRange)
      then mkTimeRange (trStart tRange) (rEnd rec) else tRange in
  (totals, tRange).

(** The inner loop of the roll-up: the current total of [project] is added
    to every ancestor that has a total. *)
Definition add_to_ancestors (project : string) (anc : list Project)
    (totals : gmap string duration) : gmap string duration :=
  fold_left
    (fun totals node =>
       match totals !! prjName node with
       | Some t => <[prjName node := dur_add t (get_total totals project)]> totals
       | None => totals
       end)
    anc totals.

(** The outer loop [for project := range totals]: [order] is the order in
    which the iteration over the map visits its keys, which Go leaves to the
    runtime. *)
Fixpoint roll_up (allProjects : gmap string Project) (order : list string)
    (totals : gmap string duration) : result (gmap string duration) :=
  match order with
  | [] => Ok totals
  | project :: rest =>
      match Ancestors allProjects project with
      | None =>
          Err (Errorf ("BUG! Project '" ++ project ++ "' not in project tree"))
      | Some anc => roll_up allProjects rest (add_to_ancestors project anc totals)
      end
  end.

(** [NewReporter]: [loadProjects] is the outcome of [t.LoadAllProjects()],
    [loadRecords] is [t.LoadAllRecordsFiltered], [order] the iteration order
    of the roll-up loop. *)
Definition NewReporter (loadProjects : result (gmap string Project))
    (loadRecords : list FilterFunction -> result (list RecordT))
    (order : list string)
    (proj : list string) (filters : list FilterFunction) : result Reporter :=
  match loadProjects with
  | Err err => Err err
  | Ok allProjects =>
      match (match proj with
             | [] => Ok allProjects
             | _ => select_projects allProjects proj ∅
             end) with
      | Err err => Err err
      | Ok projects =>
          let filters :=
            filters ++ [FilterByProjects (map fst (map_to_list projects))] in
          match loadRecords filters with
          | Err err => Err err
          | Ok records =>
              let totals : gmap string duration :=
                fold_left (fun m p => <[prjName p := 0%Z]> m)
                  (map snd (map_to_list projects)) ∅ in
              let '(totals, tRange) :=
                fold_left add_record records (totals, mkTimeRange NoTime NoTime) in
              match roll_up allProjects order totals with
              | Err err => Err err
              | Ok totals =>
                  Ok (mkReporter records projects totals allProjects tRange)
              end
          end
      end
  end.

End Report.

(** ** Properties of the report *)

Ltac int64_bounds :=
  change (2 ^ 64)%Z with 18446744073709551616%Z in *;
  change (2 ^ 63)%Z with 9223372036854775808%Z in *.

Lemma wrap64_cong (z : Z) : exists k : Z, (wrap64 z = z + k * 2 ^ 64)%Z.
Proof.
  exists (- ((z + 2 ^ 63) / 2 ^ 64))%Z. unfold wrap64.
  rewrite Z.mod_eq by (int64_bounds; lia). lia.
Qed.

Lemma wrap64_eq_mod (a b k : Z) : (a = b + k * 2 ^ 64)%Z -> wrap64 a = wrap64 b.
Proof.
  intros ->. unfold wrap64. f_equal.
  replace (b + k * 2 ^ 64 + 2 ^ 63)%Z with (b + 2 ^ 63 + k * 2 ^ 64)%Z by lia.
  apply Z.mod_add. int64_bounds. lia.
Qed.

Lemma wrap64_id (z : Z) : in_int64 z -> wrap64 z = z.
Proof.
  unfold in_int64, wrap64. intros Hz. int64_bounds.
  rewrite Z.mod_small by lia. lia.
Qed.

Lemma wrap64_add_l (a b : Z) : wrap64 (wrap64 a + b) = wrap64 (a + b).
Proof.
  destruct (wrap64_cong a) as [k Hk].
  apply (wrap64_eq_mod _ _ k). lia.
Qed.

Lemma wrap64_sub_r (a b : Z) : wrap64 (a - wrap64 b) = wrap64 (a - b).
Proof.
  destruct (wrap64_cong b) as [k Hk].
  apply (wrap64_eq_mod _ _ (- k)). lia.
Qed.

(** The sum of a list of durations, without wrap-around. *)
Definition sum_durations (ds : list duration) : Z := fold_right Z.add 0%Z ds.

Section ReportFacts.

Variable DurationClip : time -> time -> time -> time -> duration.
Variables window_min window_max : time.

Lemma fold_dur_add (ps : list Pause) (a : Z) :
  fold_left (fun dur p => dur_add dur (Pause_Duration DurationClip p window_min window_max))
    ps (wrap64 a)
  = wrap64 (a + sum_durations
                  (map (fun p => Pause_Duration DurationClip p window_min window_max) ps)).
Proof.
  revert a. induction ps as [|p ps IH]; intros a; simpl.
  - now rewrite Z.add_0_r.
  - etransitivity;
      [apply (IH (wrap64 a
                  + Pause_Duration DurationClip p window_min window_max)%Z)|].
    rewrite <- Z.add_assoc. apply wrap64_add_l.
Qed.

Lemma PauseDuration_sum (r : RecordT) :
  PauseDuration DurationClip r window_min window_max
  = wrap64 (sum_durations
              (map (fun p => Pause_Duration DurationClip p window_min window_max)
                 (rPause r))).
Proof.
  unfold PauseDuration. change 0%Z with (wrap64 0) at 1.
  now rewrite fold_dur_add.
Qed.

Lemma Duration_active (r : RecordT) :
  Duration DurationClip r window_min window_max
  = wrap64 (TotalDuration DurationClip r window_min window_max
            - sum_durations
                (map (fun p => Pause_Duration DurationClip p window_min window_max)
                   (rPause r))).
Proof.
  unfold Duration, dur_sub, TotalDuration.
  now rewrite PauseDuration_sum, wrap64_sub_r.
Qed.

End ReportFacts.




Definition hours (h : Z) : duration := (h * 3600 * 1000000000)%Z.
Definition minutes (m : Z) : duration := (m * 60 * 1000000000)%Z.



(** *** A concrete report *)

(** A morning with one break, whole and seen through a window. *)
Example Duration_with_pause :
  Duration (DurationClip_at (clock 18 0))
    (mkRecord "work" (clock 9 0) (clock 12 0) "" []
       [mkPause (clock 10 0) (clock 10 30) "tea"])
    NoTime NoTime
  = minutes 150
  /\ Duration (DurationClip_at (clock 18 0))
       (mkRecord "work" (clock 9 0) (clock 12 0) "" []
          [mkPause (clock 10 0) (clock 10 30) "tea"])
       (clock 10 15) (clock 11 0)
     = minutes 30.
Proof. vm_compute. split; reflexivity. Qed.

(** A tree of depth three: [root] above [mid], above the leaves [leaf1] and
    [leaf2]. *)
Definition family : gmap string Project :=
  <["root" := mkProject "root" "" false]>
  (<["mid" := mkProject "mid" "root" false]>
  (<["leaf1" := mkProject "leaf1" "mid" false]>
  (<["leaf2" := mkProject "leaf2" "mid" false]> ∅))).

(** Recorded time: 15 minutes on [root], 30 minutes on [mid], one hour on
    [leaf1], two hours on [leaf2]. *)
Definition family_records : list RecordT :=
  [ mkRecord "root" (clock 8 0) (clock 8 15) "" [] [];
    mkRecord "mid" (clock 8 30) (clock 9 0) "" [] [];
    mkRecord "leaf1" (clock 9 0) (clock 10 0) "" [] [];
    mkRecord "leaf2" (clock 10 0) (clock 12 0) "" [] [] ].

Definition family_scan (filters : list FilterFunction) : result (list RecordT) :=
  Ok (List.filter (fun r => Filter r filters) family_records).

Definition family_report (order : list string) : result Reporter :=
  NewReporter (clock 18 0)
    (Ok family) family_scan order [] [].

Definition report_total (rep : result Reporter) (name : string) : option duration :=
  match rep with
  | Ok r => ProjectTime r !! name
  | Err _ => None
  end.

(** C1 on the tree of depth three, for two orders in which the loop
    [for project := range totals] may visit the projects.  When the leaves
    are visited before [mid], the total of [root] counts the time of the
    leaves twice: 6h45 instead of its own 15 minutes plus the 3h30 of [mid].
    When every project is visited before its children, the total of [root]
    is the expected 3h45.  The totals of [mid] and of the leaves are the same
    in both runs. *)
Theorem NewReporter_rollup_depends_on_iteration_order :
  report_total (family_report ["leaf1"; "leaf2"; "mid"; "root"]) "root"
    = Some (hours 6 + minutes 45)%Z
  /\ report_total (family_report ["leaf1"; "leaf2"; "mid"; "root"]) "mid"
    = Some (hours 3 + minutes 30)%Z
  /\ report_total (family_report ["leaf1"; "leaf2"; "mid"; "root"]) "leaf1"
    = Some (hours 1)
  /\ report_total (family_report ["leaf1"; "leaf2"; "mid"; "root"]) "leaf2"
    = Some (hours 2)
  /\ report_total (family_report ["root"; "mid"; "leaf1"; "leaf2"]) "root"
    = Some (hours 3 + minutes 45)%Z
  /\ report_total (family_report ["root"; "mid"; "leaf1"; "leaf2"]) "mid"
    = Some (hours 3 + minutes 30)%Z
  /\ report_total (family_report ["leaf1"; "leaf2"; "mid"; "root"]) "root"
     <> option_map (Z.add (minutes 15))
          (report_total (family_report ["leaf1"; "leaf2"; "mid"; "root"]) "mid").
Proof. vm_compute. repeat split; discriminate. Qed.

(** ** The filtered scan (record.go, [AllRecordsFiltered]) *)

(** [strconv.Atoi]: an optional sign and decimal digits, within 64 bits. *)
Definition digit_of (c : ascii) : option Z :=
  let n := N_of_ascii c in
  if (48 <=? n)%N && (n <=? 57)%N then Some (Z.of_N n - 48)%Z else None.

Fixpoint parse_digits (s : string) (acc : Z) : option Z :=
  match s with
  | EmptyString => Some acc
  | String c rest =>
      match digit_of c with
      | Some d => parse_digits rest (10 * acc + d)%Z
      | None => None
      end
  end.

(** [strconv.Quote] on the bytes below 128: the string between double
    quotes, a double quote and a backslash behind a backslash, the control
    characters as their escapes.  A byte from 128 on is kept, as
    [strconv.Quote] keeps the printable characters outside ASCII; the
    escapes it writes for bytes that are not UTF-8 and for characters that
    are not printable are not modelled. *)
Definition quote_mark : ascii := ascii_of_nat 34.
Definition backslash : ascii := ascii_of_nat 92.

Definition hex_digit (n : N) : ascii :=
  if (n <? 10)%N then ascii_of_N (48 + n) else ascii_of_N (87 + n).

Definition quote_byte (c : ascii) : string :=
  let n := N_of_ascii c in
  if (n =? 34)%N || (n =? 92)%N then String backslash (String c EmptyString)
  else if (n =? 7)%N then String backslash "a"
  else if (n =? 8)%N then String backslash "b"
  else if (n =? 12)%N then String backslash "f"
  else if (n =? 10)%N then String backslash "n"
  else if (n =? 13)%N then String backslash "r"
  else if (n =? 9)%N then String backslash "t"
  else if (n =? 11)%N then String backslash "v"
  else if (n <? 32)%N || (n =? 127)%N then
    String backslash
      (String "x"%char
         (String (hex_digit (n / 16))
            (String (hex_digit (n mod 16)) EmptyString)))
  else String c EmptyString.

Fixpoint quote_bytes (s : string) : string :=
  match s with
  | EmptyString => String quote_mark EmptyString
  | String c rest => quote_byte c ++ quote_bytes rest
  end.

Definition Quote (s : string) : string := String quote_mark (quote_bytes s).

(** The message of a [*strconv.NumError]. *)
Definition NumError (fn num msg : string) : error :=
  Errorf ("strconv." ++ fn ++ ": parsing " ++ Quote num ++ ": " ++ msg).

Definition Atoi (s : string) : result Z :=
  let syntax := Err (NumError "Atoi" s "invalid syntax") in
  let range := Err (NumError "Atoi" s "value out of range") in
  let checked (z : option Z) :=
    match z with
    | None => syntax
    | Some z => if (- 2 ^ 63 <=? z)%Z && (z <? 2 ^ 63)%Z then Ok z else range
    end in
  match s with
  | EmptyString => syntax
  | String "+"%char EmptyString | String "-"%char EmptyString => syntax
  | String "+"%char rest => checked (parse_digits rest 0%Z)
  | String "-"%char rest => checked (option_map Z.opp (parse_digits rest 0%Z))
  | _ => checked (parse_digits s 0%Z)
  end.

Example Atoi_year : Atoi "2051" = Ok 2051%Z.
Proof. reflexivity. Qed.

Example Atoi_padded : Atoi "07" = Ok 7%Z.
Proof. reflexivity. Qed.

(** The name that does not parse stands between double quotes in the
    message. *)
Example Atoi_not_a_number :
  Atoi "tmp"
  = Err (Errorf ("strconv.Atoi: parsing "
                 ++ String quote_mark ("tmp" ++ String quote_mark EmptyString)
                 ++ ": invalid syntax")).
Proof. reflexivity. Qed.

(** An entry of a directory listing. *)
Record FileInfo := mkFileInfo {
  Name : string;
  IsDir : bool
}.

(** The [FilterFunctions] the scan takes: the predicates and the inclusive
    start and end date of the scan, zero for an open side. *)
Record FilterFunctions := mkFilters {
  Filters : list FilterFunction;
  FStart : time;
  FEnd : time
}.

(** What a scan pushes to its channel when it is never stopped: records,
    then possibly one error, after which it returns. *)
Definition pushed := (list RecordT * option error)%type.

Definition skip : pushed := ([], None).
Definition fail_with (err : error) : pushed := ([], Some err).

(** A [for ... range] loop whose body pushes results and either goes on to
    the next turn or returns from the scan after pushing an error. *)
Fixpoint for_each {A : Type} (body : A -> pushed) (l : list A) : pushed :=
  match l with
  | [] => skip
  | x :: rest =>
      match body x with
      | (rs, Some err) => (rs, Some err)
      | (rs, None) =>
          let '(rs', err) := for_each body rest in (rs ++ rs', err)
      end
  end.

(** Modelled from the spec: [util.Reverse] of the repository's [util]
    package reverses a slice in place; it is called when the scan is
    reversed. *)
Definition Reverse_if {A : Type} (reversed : bool) (l : list A) : list A :=
  if reversed then rev l else l.

(** The items on the channel, in order. *)
Definition channel_items (p : pushed) : list (result RecordT) :=
  map Ok p.1 ++ match p.2 with Some err => [Err err] | None => [] end.

(** The stored records are laid out in the order of their start times. *)
Definition chronological (rs : list RecordT) : Prop :=
  StronglySorted (fun a b => (rStart a < rStart b)%N) rs.

(** Latest first. *)
Definition descending (rs : list RecordT) : Prop :=
  StronglySorted (fun a b => (rStart b < rStart a)%N) rs.

Lemma chronological_filter (c : FilterFunction) (rs : list RecordT) :
  chronological rs -> chronological (List.filter c rs).
Proof.
  unfold chronological. induction rs as [|r rs IH]; intros Hs; simpl.
  - constructor.
  - apply StronglySorted_inv in Hs as [Hs Hall].
    destruct (c r); [|now apply IH].
    constructor; [now apply IH|].
    rewrite List.Forall_forall in *. intros x [Hx _]%List.filter_In.
    now apply Hall.
Qed.

Lemma chronological_rev (rs : list RecordT) :
  chronological rs -> descending (rev rs).
Proof.
  unfold chronological, descending. induction rs as [|r rs IH]; intros Hs; simpl.
  - constructor.
  - apply StronglySorted_inv in Hs as [Hs Hall].
    apply StronglySorted_app_2.
    + intros x1 x2 Hx1%list_elem_of_In Hx2%list_elem_of_singleton. subst x2.
      apply List.in_rev in Hx1.
      rewrite List.Forall_forall in Hall. now apply Hall.
    + now apply IH.
    + repeat constructor.
Qed.

Section Scan.

(** The file system as the scan reads it: [ioutil.ReadDir] (entries sorted by
    name), [os.Stat], and the loading of the record file of a start time. *)
Variable ReadDir : list string -> result (list FileInfo).
Variable Stat : list string -> result FileInfo.
Variable LoadRecordAt : time -> result RecordT.

(** The layout of the store and the calendar: the records directory, the
    directory of a date, [util.Date], [util.ToDate], [time.Time.Year], and
    the start time a file name stands for on a date ([fileToTime], whose
    error the scan drops). *)
Variable RecordsDir : list string.
Variable RecordDirOf : time -> list string.
Variable Date : Z -> Z -> Z -> time.
Variable ToDate : time -> time.
Variable YearOf : time -> Z.
Variable fileToTime : time -> string -> time.

Fixpoint load_files (date : time) (filters : FilterFunctions)
    (files : list FileInfo) (records : list RecordT) : result (list RecordT) :=
  match files with
  | [] => Ok records
  | file :: rest =>
      if IsDir file then load_files date filters rest records
      else
        let tm := fileToTime date (Name file) in
        match LoadRecordAt tm with
        | Err err => Err err
        | Ok record =>
            if Filter record (Filters filters)
            then load_files date filters rest (records ++ [record])
            else load_files date filters rest records
        end
  end.

Definition LoadDateRecordsFiltered (date : time) (filters : FilterFunctions)
  : result (list RecordT) :=
  let subPath := RecordDirOf date in
  match Stat subPath with
  | Err _ => Err ErrNoRecords
  | Ok info =>
      if negb (IsDir info) then
        Err (Errorf ("'" ++ Name info ++ "' is not a directory"))
      else
        match ReadDir subPath with
        | Err err => Err err
        | Ok files => load_files date filters files []
        end
  end.

Definition scan_day (filters : FilterFunctions) (reversed : bool)
    (year month : Z) (dayDir : FileInfo) : pushed :=
  if negb (IsDir dayDir) then skip
  else
    match Atoi (Name dayDir) with
    | Err err => fail_with err
    | Ok day =>
        let date := Date year month day in
        if negb (IsZero (FStart filters)) && Before date (ToDate (FStart filters))
        then skip
        else if negb (IsZero (FEnd filters)) && After date (FEnd filters)
        then skip
        else
          match LoadDateRecordsFiltered date filters with
          | Err err => fail_with err
          | Ok recs => (Reverse_if reversed recs, None)
          end
    end.

Definition scan_month (filters : FilterFunctions) (reversed : bool)
    (yearName : string) (year : Z) (monthDir : FileInfo) : pushed :=
  if negb (IsDir monthDir) then skip
  else
    match Atoi (Name monthDir) with
    | Err err => fail_with err
    | Ok month =>
        match ReadDir (RecordsDir ++ [yearName; Name monthDir]) with
        | Err err => fail_with err
        | Ok dayDirs =>
            for_each (scan_day filters reversed year month)
              (Reverse_if reversed dayDirs)
        end
    end.

Definition scan_year (filters : FilterFunctions) (reversed : bool)
    (yearDir : FileInfo) : pushed :=
  if negb (IsDir yearDir) then skip
  else
    match Atoi (Name yearDir) with
    | Err err => fail_with err
    | Ok year =>
        if negb (IsZero (FStart filters)) && (year <? YearOf (FStart filters))%Z
        then skip
        else if negb (IsZero (FEnd filters)) && (year >? YearOf (FEnd filters))%Z
        then skip
        else
          match ReadDir (RecordsDir ++ [Name yearDir]) with
          | Err err => fail_with err
          | Ok monthDirs =>
              for_each (scan_month filters reversed (Name yearDir) year)
                (Reverse_if reversed monthDirs)
          end
    end.

(** The function [AllRecordsFiltered] returns, run to its end. *)
Definition AllRecordsFiltered (filters : FilterFunctions) (reversed : bool)
  : pushed :=
  match ReadDir RecordsDir with
  | Err err => fail_with err
  | Ok yearDirs =>
      for_each (scan_year filters reversed) (Reverse_if reversed yearDirs)
  end.

(** [LoadAllRecordsFiltered] drains the channel of a forward scan. *)
Definition LoadAllRecordsFiltered (filters : FilterFunctions)
  : list RecordT * option error :=
  AllRecordsFiltered filters false.

Definition LoadAllRecords : list RecordT * option error :=
  LoadAllRecordsFiltered (mkFilters [] NoTime NoTime).

(** The consumer side of a "find first" query: what it returns, how many
    items it received from the channel, and whether it closed [stop]. *)
Record Found := mkFound {
  found_record : option RecordT;
  found_error : option error;
  received : nat;
  stop_closed : bool
}.

Definition FindLatestRecord (cond : FilterFunction) : Found :=
  match channel_items (AllRecordsFiltered (mkFilters [cond] NoTime NoTime) true) with
  | [] => mkFound None None 0 false
  | Err err :: _ => mkFound None (Some err) 1 false
  | Ok record :: _ => mkFound (Some record) None 1 true
  end.

(** *** Facts about the scan *)

Lemma for_each_app {A : Type} (body : A -> pushed) (l1 l2 : list A) :
  for_each body (l1 ++ l2)
  = match for_each body l1 with
    | (rs, Some err) => (rs, Some err)
    | (rs, None) => let '(rs', err) := for_each body l2 in (rs ++ rs', err)
    end.
Proof.
  induction l1 as [|x l1 IH]; simpl.
  - now destruct (for_each body l2).
  - destruct (body x) as [rx [e|]]; [reflexivity|].
    rewrite IH. destruct (for_each body l1) as [r1 [e|]]; [reflexivity|].
    destruct (for_each body l2) as [r2 e]. now rewrite app_assoc.
Qed.

Lemma for_each_ok_inv {A : Type} (body : A -> pushed) (x : A) (l : list A)
    (rs : list RecordT) :
  for_each body (x :: l) = (rs, None) ->
  exists rx rl,
    body x = (rx, None) /\ for_each body l = (rl, None) /\ rs = rx ++ rl.
Proof.
  simpl. destruct (body x) as [rx [e|]]; [discriminate|].
  destruct (for_each body l) as [rl e]. intros [= <- ->].
  now exists rx, rl.
Qed.

(** A loop whose body yields, for each element, the matching records of
    another body (in reverse when the loop runs backwards), yields the
    matching records of the other loop (in reverse when it runs backwards). *)
Lemma for_each_filter {A : Type} (c : FilterFunction) (reversed : bool)
    (body body' : A -> pushed) (l : list A) (rs : list RecordT) :
  (forall x rx, body x = (rx, None) ->
     body' x = (Reverse_if reversed (List.filter c rx), None)) ->
  for_each body l = (rs, None) ->
  for_each body' (Reverse_if reversed l)
  = (Reverse_if reversed (List.filter c rs), None).
Proof.
  intros Hbody. revert rs. induction l as [|x l IH]; intros rs Hrun.
  - injection Hrun as <-. now destruct reversed.
  - apply for_each_ok_inv in Hrun as (rx & rl & Hx & Hl & ->).
    specialize (IH rl Hl). specialize (Hbody x rx Hx).
    rewrite List.filter_app. destruct reversed; cbn [Reverse_if] in *.
    + simpl rev. rewrite for_each_app, IH. simpl.
      rewrite Hbody, app_nil_r. now rewrite rev_app_distr.
    + simpl. now rewrite Hbody, IH.
Qed.

(** The records of a day directory, without the accumulator of the loop. *)
Fixpoint day_records (date : time) (filters : FilterFunctions)
    (files : list FileInfo) : result (list RecordT) :=
  match files with
  | [] => Ok []
  | file :: rest =>
      if IsDir file then day_records date filters rest
      else
        match LoadRecordAt (fileToTime date (Name file)) with
        | Err err => Err err
        | Ok record =>
            match day_records date filters rest with
            | Err err => Err err
            | Ok rs =>
                Ok (if Filter record (Filters filters) then record :: rs else rs)
            end
        end
  end.

Lemma load_files_day_records (date : time) (filters : FilterFunctions)
    (files : list FileInfo) (acc : list RecordT) :
  load_files date filters files acc
  = match day_records date filters files with
    | Ok rs => Ok (acc ++ rs)
    | Err err => Err err
    end.
Proof.
  revert acc. induction files as [|file rest IH]; intros acc; simpl.
  - now rewrite app_nil_r.
  - destruct (IsDir file); [apply IH|].
    destruct (LoadRecordAt (fileToTime date (Name file))) as [record|err];
      [|reflexivity].
    destruct (Filter record (Filters filters)); rewrite IH;
      destruct (day_records date filters rest) as [rs|err]; try reflexivity.
    now rewrite <- app_assoc.
Qed.

(** The predicate a collection of filters stands for. *)
Definition matches (fs : list FilterFunction) : FilterFunction :=
  fun r => Filter r fs.

Lemma day_records_filter (date : time) (fs : list FilterFunction)
    (s e s' e' : time) (files : list FileInfo) (rs : list RecordT) :
  day_records date (mkFilters [] s e) files = Ok rs ->
  day_records date (mkFilters fs s' e') files = Ok (List.filter (matches fs) rs).
Proof.
  revert rs. induction files as [|file rest IH]; intros rs; simpl.
  - now intros [= <-].
  - destruct (IsDir file); [apply IH|].
    destruct (LoadRecordAt (fileToTime date (Name file))) as [record|err];
      [|discriminate].
    destruct (day_records date (mkFilters [] s e) rest) as [rs0|err];
      [|discriminate].
    intros [= <-]. rewrite (IH rs0 eq_refl). cbn [Filters List.filter].
    change (matches fs record) with (Filter record fs).
    now destruct (Filter record fs).
Qed.

Lemma LoadDateRecordsFiltered_filter (date : time) (fs : list FilterFunction)
    (rs : list RecordT) :
  LoadDateRecordsFiltered date (mkFilters [] NoTime NoTime) = Ok rs ->
  LoadDateRecordsFiltered date (mkFilters fs NoTime NoTime)
  = Ok (List.filter (matches fs) rs).
Proof.
  unfold LoadDateRecordsFiltered.
  destruct (Stat (RecordDirOf date)) as [info|err]; [|discriminate].
  destruct (negb (IsDir info)); [discriminate|].
  destruct (ReadDir (RecordDirOf date)) as [files|err]; [|discriminate].
  rewrite !load_files_day_records.
  destruct (day_records date (mkFilters [] NoTime NoTime) files) as [rs0|err] eqn:Hday;
    [|discriminate].
  intros [= <-].
  now rewrite (day_records_filter date fs _ _ NoTime NoTime files rs0 Hday).
Qed.

Lemma scan_day_filter (fs : list FilterFunction) (reversed : bool)
    (year month : Z) (dayDir : FileInfo) (rs : list RecordT) :
  scan_day (mkFilters [] NoTime NoTime) false year month dayDir = (rs, None) ->
  scan_day (mkFilters fs NoTime NoTime) reversed year month dayDir
  = (Reverse_if reversed (List.filter (matches fs) rs), None).
Proof.
  unfold scan_day. destruct (negb (IsDir dayDir)).
  { intros [= <-]. now destruct reversed. }
  destruct (Atoi (Name dayDir)) as [day|err]; [|discriminate].
  cbn.
  destruct (LoadDateRecordsFiltered (Date year month day)
              (mkFilters [] NoTime NoTime)) as [recs|err] eqn:Hload;
    [|discriminate].
  intros [= <-].
  now rewrite (LoadDateRecordsFiltered_filter _ fs recs Hload).
Qed.

Lemma scan_month_filter (fs : list FilterFunction) (reversed : bool)
    (yearName : string) (year : Z) (monthDir : FileInfo) (rs : list RecordT) :
  scan_month (mkFilters [] NoTime NoTime) false yearName year monthDir = (rs, None) ->
  scan_month (mkFilters fs NoTime NoTime) reversed yearName year monthDir
  = (Reverse_if reversed (List.filter (matches fs) rs), None).
Proof.
  unfold scan_month. destruct (negb (IsDir monthDir)).
  { intros [= <-]. now destruct reversed. }
  destruct (Atoi (Name monthDir)) as [month|err]; [|discriminate].
  destruct (ReadDir (RecordsDir ++ [yearName; Name monthDir])) as [dayDirs|err];
    [|discriminate].
  cbn [Reverse_if]. apply for_each_filter.
  intros x rx. apply scan_day_filter.
Qed.

Lemma scan_year_filter (fs : list FilterFunction) (reversed : bool)
    (yearDir : FileInfo) (rs : list RecordT) :
  scan_year (mkFilters [] NoTime NoTime) false yearDir = (rs, None) ->
  scan_year (mkFilters fs NoTime NoTime) reversed yearDir
  = (Reverse_if reversed (List.filter (matches fs) rs), None).
Proof.
  unfold scan_year. destruct (negb (IsDir yearDir)).
  { intros [= <-]. now destruct reversed. }
  destruct (Atoi (Name yearDir)) as [year|err]; [|discriminate].
  cbn.
  destruct (ReadDir (RecordsDir ++ [Name yearDir])) as [monthDirs|err];
    [|discriminate].
  apply for_each_filter.
  intros x rx. apply scan_month_filter.
Qed.

(** When the whole store loads without error, a scan without date bounds
    pushes the stored records that match the filters, in stored order, or
    last one first when it is reversed. *)
Lemma AllRecordsFiltered_filter (fs : list FilterFunction) (reversed : bool)
    (rs : list RecordT) :
  LoadAllRecords = (rs, None) ->
  AllRecordsFiltered (mkFilters fs NoTime NoTime) reversed
  = (Reverse_if reversed (List.filter (matches fs) rs), None).
Proof.
  unfold LoadAllRecords, LoadAllRecordsFiltered, AllRecordsFiltered.
  destruct (ReadDir RecordsDir) as [yearDirs|err]; [|discriminate].
  cbn [Reverse_if]. apply for_each_filter.
  intros x rx. apply scan_year_filter.
Qed.

Lemma AllRecordsFiltered_reverse (c : FilterFunction) (rs : list RecordT) :
  LoadAllRecords = (rs, None) ->
  AllRecordsFiltered (mkFilters [c] NoTime NoTime) true
  = (rev (List.filter c rs), None).
Proof.
  intros Hload. rewrite (AllRecordsFiltered_filter [c] true rs Hload).
  cbn [Reverse_if]. do 2 f_equal. apply List.filter_ext.
  intros r. unfold matches. simpl. now destruct (c r).
Qed.

(** X13. A directory in the records directory whose name is not a number
    ends the scan: the error of [strconv.Atoi] is pushed and nothing of that
    directory or of the directories after it is read. *)
Theorem scan_year_not_a_number :
  forall (filters : FilterFunctions) (reversed : bool) (yearDir : FileInfo)
         (rest : list FileInfo) (err : error),
    IsDir yearDir = true ->
    Atoi (Name yearDir) = Err err ->
    scan_year filters reversed yearDir = fail_with err
    /\ for_each (scan_year filters reversed) (yearDir :: rest) = ([], Some err).
Proof.
  intros filters reversed yearDir rest err Hdir Hname.
  assert (Hscan : scan_year filters reversed yearDir = fail_with err).
  { unfold scan_year. now rewrite Hdir, Hname. }
  split; [exact Hscan|]. cbn [for_each]. now rewrite Hscan.
Qed.

(** X12. On a store that loads without error, [LoadAllRecordsFiltered]
    without date bounds returns exactly the stored records that every
    predicate of the filters matches, in the order of the store. *)
Theorem LoadAllRecordsFiltered_matching :
  forall (fs : list FilterFunction) (stored : list RecordT),
    LoadAllRecords = (stored, None) ->
    LoadAllRecordsFiltered (mkFilters fs NoTime NoTime)
    = (List.filter (fun r => Filter r fs) stored, None).
Proof.
  intros fs stored Hload.
  exact (AllRecordsFiltered_filter fs false stored Hload).
Qed.

(** The last record of a list that satisfies a predicate. *)
Lemma filter_last_split (c : FilterFunction) (l kept : list RecordT)
    (x : RecordT) :
  List.filter c l = kept ++ [x] ->
  exists before after,
    l = before ++ x :: after
    /\ c x = true
    /\ List.Forall (fun r => c r = false) after.
Proof.
  revert kept x. induction l as [|y l IH] using rev_ind; intros kept x Hf.
  - destruct kept; discriminate.
  - rewrite List.filter_app in Hf. cbn [List.filter] in Hf.
    destruct (c y) eqn:Hy.
    + apply app_inj_tail in Hf as [_ <-].
      exists l, []. split; [reflexivity|]. split; [exact Hy|constructor].
    + rewrite app_nil_r in Hf.
      destruct (IH kept x Hf) as (before & after & -> & Hx & Hafter).
      exists before, (after ++ [y]). split; [now rewrite <- app_assoc|].
      split; [exact Hx|]. apply List.Forall_app. split; [exact Hafter|].
      constructor; [exact Hy|constructor].
Qed.

(** C5 (as the code has it). On a store that loads without error, the
    reverse scan with the predicate [cond] pushes exactly the stored records
    that satisfy [cond], in the order opposite to that of the forward scan;
    [FindLatestRecord cond] receives one item, the record that satisfies
    [cond] and comes last in the forward scan, and then closes [stop]; when
    no stored record satisfies [cond] it receives nothing and returns a nil
    reference and no error.  When the forward scan lists the records in the
    order of their start times, as the listings sorted by name do for the
    zero-padded names of the years up to 9999, the reverse scan pushes the
    records latest first, and the record found has the greatest start among
    the stored records that satisfy [cond]. *)
Theorem FindLatestRecord_latest_match :
  forall (cond : FilterFunction) (stored : list RecordT),
    LoadAllRecords = (stored, None) ->
    AllRecordsFiltered (mkFilters [cond] NoTime NoTime) true
      = (rev (List.filter cond stored), None)
    /\ ((forall r, In r stored -> cond r = false) ->
        FindLatestRecord cond = mkFound None None 0 false)
    /\ ((exists r, In r stored /\ cond r = true) ->
        exists latest before after,
          FindLatestRecord cond = mkFound (Some latest) None 1 true
          /\ stored = before ++ latest :: after
          /\ cond latest = true
          /\ List.Forall (fun r => cond r = false) after)
    /\ (chronological stored ->
        descending (rev (List.filter cond stored))
        /\ forall latest,
             found_record (FindLatestRecord cond) = Some latest ->
             In latest stored /\ cond latest = true
             /\ forall r, In r stored -> cond r = true ->
                  (rStart r <= rStart latest)%N).
Proof.
  intros cond stored Hload.
  pose proof (AllRecordsFiltered_reverse cond stored Hload) as Hscan.
  split; [exact Hscan|]. split; [|split].
  - intros Hnone. unfold FindLatestRecord. rewrite Hscan.
    assert (Hnil : List.filter cond stored = []).
    { destruct (List.filter cond stored) as [|r rs] eqn:Hf; [reflexivity|].
      assert (Hin : In r (List.filter cond stored)) by (rewrite Hf; now left).
      apply List.filter_In in Hin as [Hin Hc].
      rewrite (Hnone r Hin) in Hc. discriminate. }
    now rewrite Hnil.
  - intros (r0 & Hin0 & Hc0). unfold FindLatestRecord. rewrite Hscan.
    destruct (rev (List.filter cond stored)) as [|latest rest] eqn:Hrev.
    { assert (Hin : In r0 (rev (List.filter cond stored))).
      { apply -> List.in_rev. apply List.filter_In. now split. }
      rewrite Hrev in Hin. destruct Hin. }
    assert (Hf : List.filter cond stored = rev rest ++ [latest]).
    { rewrite <- (rev_involutive (List.filter cond stored)), Hrev.
      reflexivity. }
    destruct (filter_last_split cond stored (rev rest) latest Hf)
      as (before & after & Hsplit & Hc & Hafter).
    exists latest, before, after. cbn. now repeat split.
  - intros Hchron.
    pose proof (chronological_rev _ (chronological_filter cond _ Hchron))
      as Hdesc.
    split; [exact Hdesc|]. intros latest. unfold FindLatestRecord.
    rewrite Hscan.
    destruct (rev (List.filter cond stored)) as [|first rest] eqn:Hrev;
      [discriminate|].
    cbn. intros Heq. injection Heq as ->.
    assert (Hlatest : In latest (List.filter cond stored)).
    { apply List.in_rev. rewrite Hrev. now left. }
    apply List.filter_In in Hlatest as [Hin Hc].
    split; [exact Hin|]. split; [exact Hc|].
    intros r Hr Hcr.
    assert (Hr' : In r (latest :: rest)).
    { rewrite <- Hrev. apply -> List.in_rev. apply List.filter_In. now split. }
    destruct Hr' as [<-|Hr']; [lia|].
    apply StronglySorted_inv in Hdesc as [_ Hall].
    rewrite List.Forall_forall in Hall. specialize (Hall r Hr'). lia.
Qed.

(** *** What the scan yields in general *)

Lemma for_each_Forall {A : Type} (P : RecordT -> Prop) (body : A -> pushed)
    (l : list A) :
  (forall x, List.Forall P (body x).1) -> List.Forall P (for_each body l).1.
Proof.
  intros Hbody. induction l as [|x l IH]; simpl; [constructor|].
  specialize (Hbody x). destruct (body x) as [rs [err|]]; [exact Hbody|].
  destruct (for_each body l) as [rs' err]. cbn in *.
  apply List.Forall_app. now split.
Qed.

Lemma day_records_match (date : time) (filters : FilterFunctions)
    (files : list FileInfo) (rs : list RecordT) :
  day_records date filters files = Ok rs ->
  List.Forall (fun r => Filter r (Filters filters) = true) rs.
Proof.
  revert rs. induction files as [|file rest IH]; intros rs; simpl.
  - intros [= <-]. constructor.
  - destruct (IsDir file); [apply IH|].
    destruct (LoadRecordAt (fileToTime date (Name file))) as [record|err];
      [|discriminate].
    destruct (day_records date filters rest) as [rs0|err]; [|discriminate].
    intros [= <-]. specialize (IH rs0 eq_refl).
    destruct (Filter record (Filters filters)) eqn:Hf; [|exact IH].
    now constructor.
Qed.

Lemma LoadDateRecordsFiltered_match (date : time) (filters : FilterFunctions)
    (rs : list RecordT) :
  LoadDateRecordsFiltered date filters = Ok rs ->
  List.Forall (fun r => Filter r (Filters filters) = true) rs.
Proof.
  unfold LoadDateRecordsFiltered.
  destruct (Stat (RecordDirOf date)) as [info|err]; [|discriminate].
  destruct (negb (IsDir info)); [discriminate|].
  destruct (ReadDir (RecordDirOf date)) as [files|err]; [|discriminate].
  rewrite load_files_day_records.
  destruct (day_records date filters files) as [rs0|err] eqn:Hday;
    [|discriminate].
  intros [= <-]. now apply (day_records_match date filters files).
Qed.

Lemma Forall_Reverse_if (P : RecordT -> Prop) (reversed : bool)
    (rs : list RecordT) :
  List.Forall P rs -> List.Forall P (Reverse_if reversed rs).
Proof.
  intros H. destruct reversed; [|exact H]. cbn.
  apply List.Forall_forall. intros r Hin%List.in_rev.
  rewrite List.Forall_forall in H. now apply H.
Qed.

Lemma scan_day_match (filters : FilterFunctions) (reversed : bool)
    (year month : Z) (dayDir : FileInfo) :
  List.Forall (fun r => Filter r (Filters filters) = true)
    (scan_day filters reversed year month dayDir).1.
Proof.
  unfold scan_day. destruct (negb (IsDir dayDir)); [constructor|].
  destruct (Atoi (Name dayDir)) as [day|err]; [|constructor].
  destruct (negb (IsZero (FStart filters)) && _); [constructor|].
  destruct (negb (IsZero (FEnd filters)) && _); [constructor|].
  destruct (LoadDateRecordsFiltered (Date year month day) filters)
    as [recs|err] eqn:Hload; [|constructor].
  cbn. apply Forall_Reverse_if. now apply (LoadDateRecordsFiltered_match _ _ _ Hload).
Qed.

Lemma scan_month_match (filters : FilterFunctions) (reversed : bool)
    (yearName : string) (year : Z) (monthDir : FileInfo) :
  List.Forall (fun r => Filter r (Filters filters) = true)
    (scan_month filters reversed yearName year monthDir).1.
Proof.
  unfold scan_month. destruct (negb (IsDir monthDir)); [constructor|].
  destruct (Atoi (Name monthDir)) as [month|err]; [|constructor].
  destruct (ReadDir (RecordsDir ++ [yearName; Name monthDir])) as [dayDirs|err];
    [|constructor].
  apply for_each_Forall. intros x. apply scan_day_match.
Qed.

Lemma scan_year_match (filters : FilterFunctions) (reversed : bool)
    (yearDir : FileInfo) :
  List.Forall (fun r => Filter r (Filters filters) = true)
    (scan_year filters reversed yearDir).1.
Proof.
  unfold scan_year. destruct (negb (IsDir yearDir)); [constructor|].
  destruct (Atoi (Name yearDir)) as [year|err]; [|constructor].
  destruct (negb (IsZero (FStart filters)) && _); [constructor|].
  destruct (negb (IsZero (FEnd filters)) && _); [constructor|].
  destruct (ReadDir (RecordsDir ++ [Name yearDir])) as [monthDirs|err];
    [|constructor].
  apply for_each_Forall. intros x. apply scan_month_match.
Qed.

(** X14. Whatever the store holds and whether or not the scan meets an
    error, every record a scan pushes passes all the predicates of its
    filters, in both directions and with any date bounds. *)
Theorem AllRecordsFiltered_only_matching :
  forall (filters : FilterFunctions) (reversed : bool),
    List.Forall (fun r => Filter r (Filters filters) = true)
      (AllRecordsFiltered filters reversed).1.
Proof.
  intros filters reversed. unfold AllRecordsFiltered.
  destruct (ReadDir RecordsDir) as [yearDirs|err]; [|constructor].
  apply for_each_Forall. intros x. apply scan_year_match.
Qed.

(** *** The reversed scan against the forward scan *)

Lemma filter_all_true (rs : list RecordT) :
  List.filter (fun _ : RecordT => true) rs = rs.
Proof. induction rs as [|r rs IH]; simpl; [reflexivity | now rewrite IH]. Qed.

Lemma for_each_reverse {A : Type} (body body' : A -> pushed) (l : list A)
    (rs : list RecordT) :
  (forall x rx, body x = (rx, None) -> body' x = (rev rx, None)) ->
  for_each body l = (rs, None) ->
  for_each body' (rev l) = (rev rs, None).
Proof.
  intros Hbody Hrun.
  rewrite <- (filter_all_true rs).
  apply (for_each_filter (fun _ => true) true body body' l rs); [|exact Hrun].
  intros x rx Hx. cbn. rewrite filter_all_true. now apply Hbody.
Qed.

Lemma scan_day_reversed (filters : FilterFunctions) (year month : Z)
    (dayDir : FileInfo) (rs : list RecordT) :
  scan_day filters false year month dayDir = (rs, None) ->
  scan_day filters true year month dayDir = (rev rs, None).
Proof.
  unfold scan_day. destruct (negb (IsDir dayDir)).
  { now intros [= <-]. }
  destruct (Atoi (Name dayDir)) as [day|err]; [|discriminate].
  destruct (negb (IsZero (FStart filters)) && _).
  { now intros [= <-]. }
  destruct (negb (IsZero (FEnd filters)) && _).
  { now intros [= <-]. }
  destruct (LoadDateRecordsFiltered (Date year month day) filters)
    as [recs|err]; [|discriminate].
  cbn. now intros [= <-].
Qed.

Lemma scan_month_reversed (filters : FilterFunctions) (yearName : string)
    (year : Z) (monthDir : FileInfo) (rs : list RecordT) :
  scan_month filters false yearName year monthDir = (rs, None) ->
  scan_month filters true yearName year monthDir = (rev rs, None).
Proof.
  unfold scan_month. destruct (negb (IsDir monthDir)).
  { now intros [= <-]. }
  destruct (Atoi (Name monthDir)) as [month|err]; [|discriminate].
  destruct (ReadDir (RecordsDir ++ [yearName; Name monthDir])) as [dayDirs|err];
    [|discriminate].
  cbn [Reverse_if]. apply for_each_reverse.
  intros x rx. apply scan_day_reversed.
Qed.

Lemma scan_year_reversed (filters : FilterFunctions) (yearDir : FileInfo)
    (rs : list RecordT) :
  scan_year filters false yearDir = (rs, None) ->
  scan_year filters true yearDir = (rev rs, None).
Proof.
  unfold scan_year. destruct (negb (IsDir yearDir)).
  { now intros [= <-]. }
  destruct (Atoi (Name yearDir)) as [year|err]; [|discriminate].
  destruct (negb (IsZero (FStart filters)) && _).
  { now intros [= <-]. }
  destruct (negb (IsZero (FEnd filters)) && _).
  { now intros [= <-]. }
  destruct (ReadDir (RecordsDir ++ [Name yearDir])) as [monthDirs|err];
    [|discriminate].
  cbn [Reverse_if]. apply for_each_reverse.
  intros x rx. apply scan_month_reversed.
Qed.

(** X15. When the forward scan with some filters and date bounds runs to its
    end without error, the reversed scan with the same filters pushes the
    same records in the opposite order, also without error. *)
Theorem AllRecordsFiltered_reversed :
  forall (filters : FilterFunctions) (rs : list RecordT),
    AllRecordsFiltered filters false = (rs, None) ->
    AllRecordsFiltered filters true = (rev rs, None).
Proof.
  intros filters rs. unfold AllRecordsFiltered.
  destruct (ReadDir RecordsDir) as [yearDirs|err]; [|discriminate].
  cbn [Reverse_if]. apply for_each_reverse.
  intros x rx. apply scan_year_reversed.
Qed.

(** *** The records of one day, with those running over midnight *)

(** [time.Time.Add]; a result before the zero instant is outside the model
    and reads as the zero instant. *)
Definition Add (t : time) (d : duration) : time := Z.to_N (Z.of_N t + d).

(** [errors.Is(err, ErrNoRecords)]. *)
Definition is_ErrNoRecords (err : error) : bool :=
  match err with
  | ErrorString msg => String.eqb msg "no records for date"
  | PathError _ _ _ => false
  end.

Definition LoadDateRecordsExact (date : time) : result (list RecordT) :=
  let date := ToDate date in
  let dateBefore := Add date (- (24 * 3600 * 1000000000))%Z in
  let dateAfter := Add date (24 * 3600 * 1000000000)%Z in
  let filters := mkFilters [FilterByTime date dateAfter] NoTime NoTime in
  let continue_with (records : list RecordT) :=
    let continue_with2 (records2 : list RecordT) :=
      let records := records ++ records2 in
      match records with
      | [] => Err ErrNoRecords
      | _ => Ok records
      end in
    match LoadDateRecordsFiltered date filters with
    | Ok records2 => continue_with2 records2
    | Err err => if is_ErrNoRecords err then continue_with2 [] else Err err
    end in
  match LoadDateRecordsFiltered dateBefore filters with
  | Ok records => continue_with records
  | Err err => if is_ErrNoRecords err then continue_with [] else Err err
  end.

(** What a day directory brings to the exact query: its matching records,
    or nothing when the date has no records. *)
Definition day_part (date : time) (filters : FilterFunctions)
    (rs : list RecordT) : Prop :=
  LoadDateRecordsFiltered date filters = Ok rs
  \/ (rs = [] /\ exists err, LoadDateRecordsFiltered date filters = Err err
                            /\ is_ErrNoRecords err = true).

(** X16. When [LoadDateRecordsExact] returns records, the list is not empty,
    it is the matching records of the day before followed by those of the
    day itself (a day without records bringing none), and every record in it
    passes the time filter for the 24 hours of the day; when neither day has
    records, the result is [ErrNoRecords]. *)
Theorem LoadDateRecordsExact_records :
  forall (date : time),
    (forall rs, LoadDateRecordsExact date = Ok rs ->
       rs <> []
       /\ (exists rs1 rs2,
             rs = rs1 ++ rs2
             /\ day_part (Add (ToDate date) (- (24 * 3600 * 1000000000))%Z)
                  (mkFilters
                     [FilterByTime (ToDate date)
                        (Add (ToDate date) (24 * 3600 * 1000000000)%Z)]
                     NoTime NoTime) rs1
             /\ day_part (ToDate date)
                  (mkFilters
                     [FilterByTime (ToDate date)
                        (Add (ToDate date) (24 * 3600 * 1000000000)%Z)]
                     NoTime NoTime) rs2)
       /\ List.Forall
            (fun r => FilterByTime (ToDate date)
                        (Add (ToDate date) (24 * 3600 * 1000000000)%Z) r = true)
            rs)
    /\ (LoadDateRecordsFiltered (Add (ToDate date) (- (24 * 3600 * 1000000000))%Z)
          (mkFilters
             [FilterByTime (ToDate date)
                (Add (ToDate date) (24 * 3600 * 1000000000)%Z)]
             NoTime NoTime) = Err ErrNoRecords ->
        LoadDateRecordsFiltered (ToDate date)
          (mkFilters
             [FilterByTime (ToDate date)
                (Add (ToDate date) (24 * 3600 * 1000000000)%Z)]
             NoTime NoTime) = Err ErrNoRecords ->
        LoadDateRecordsExact date = Err ErrNoRecords).
Proof.
  intros date. unfold LoadDateRecordsExact.
  set (d := ToDate date).
  set (before := Add d (- (24 * 3600 * 1000000000))%Z).
  set (after := Add d (24 * 3600 * 1000000000)%Z).
  set (filters := mkFilters [FilterByTime d after] NoTime NoTime).
  assert (Hmatch : forall day rs, day_part day filters rs ->
            List.Forall (fun r => FilterByTime d after r = true) rs).
  { intros day rs [Hok|[-> _]]; [|constructor].
    apply LoadDateRecordsFiltered_match in Hok.
    eapply List.Forall_impl; [|exact Hok]. cbn. intros r Hr.
    now destruct (FilterByTime d after r). }
  split.
  - intros rs Hrun.
    assert (Hparts : exists rs1 rs2,
               rs = rs1 ++ rs2 /\ rs <> []
               /\ day_part before filters rs1 /\ day_part d filters rs2).
    { destruct (LoadDateRecordsFiltered before filters) as [rs1|e1] eqn:H1;
        [|destruct (is_ErrNoRecords e1) eqn:He1; [|discriminate]];
        (destruct (LoadDateRecordsFiltered d filters) as [rs2|e2] eqn:H2;
          [|destruct (is_ErrNoRecords e2) eqn:He2; [|discriminate]]).
      - exists rs1, rs2. destruct (rs1 ++ rs2) eqn:Happ; [discriminate|].
        injection Hrun as <-. repeat split; [discriminate | now left | now left].
      - exists rs1, []. destruct (rs1 ++ []) eqn:Happ; [discriminate|].
        injection Hrun as <-. repeat split; [discriminate | now left |].
        right. split; [reflexivity|]. now exists e2.
      - exists [], rs2. destruct ([] ++ rs2) eqn:Happ; [discriminate|].
        injection Hrun as <-. repeat split; [discriminate | | now left].
        right. split; [reflexivity|]. now exists e1.
      - discriminate. }
    destruct Hparts as (rs1 & rs2 & -> & Hne & Hp1 & Hp2).
    split; [exact Hne|]. split; [now exists rs1, rs2|].
    apply List.Forall_app. split; [apply (Hmatch before) | apply (Hmatch d)];
      assumption.
  - intros -> ->. reflexivity.
Qed.

End Scan.

(** *** The scan over the modelled file system *)

Definition last_segment (p : list string) : string := default "" (last p).

Definition is_directory (n : node) : bool :=
  match n with Directory => true | File _ _ => false end.

(** [ioutil.ReadDir]: the entries of a directory, sorted by name. *)
Definition fs_ReadDir (fs : gmap (list string) node) (d : list string)
  : result (list FileInfo) :=
  match fs !! d with
  | None => Err (PathError "open" d ENOENT)
  | Some (File _ _) => Err (PathError "readdirent" d ENOTDIR)
  | Some Directory =>
      Ok (merge_sort (fun a b : FileInfo => String.leb (Name a) (Name b))
            (omap (fun kv : list string * node =>
                     if is_child d kv.1
                     then Some (mkFileInfo (last_segment kv.1) (is_directory kv.2))
                     else None)
               (map_to_list fs)))
  end.

(** [os.Stat]. *)
Definition fs_Stat (fs : gmap (list string) node) (p : list string)
  : result FileInfo :=
  match fs !! p with
  | None => Err (PathError "stat" p ENOENT)
  | Some n => Ok (mkFileInfo (last_segment p) (is_directory n))
  end.

(** The simplified calendar of the examples, read backwards. *)
Definition ex_Date (year month day : Z) : time :=
  (Z.to_N ((year - 1) * 360 + (month - 1) * 30 + (day - 1)) * (86400 * 1000000000))%N.

Definition ex_ToDate (t : time) : time := (day_index t * (86400 * 1000000000))%N.

Definition ex_YearOf (t : time) : Z := Z.of_N (day_index t / 360 + 1).

Definition ex_fileToTime (date : time) (file : string) : time :=
  match Atoi (substring 0 2 file), Atoi (substring 3 2 file) with
  | Ok h, Ok m => (date + Z.to_N (h * 60 + m) * (60 * 1000000000))%N
  | _, _ => NoTime
  end.

Definition ex_RecordDir := RecordDir ex_root ex_year ex_month ex_day.

(** Three records: work and home on the first day, work on the second. *)
Definition ex_store_three : gmap (list string) node :=
  <[ ["records"; "2051"; "01"; "01"; "14-00.yml"] := File "home" true ]>
  (<[ ["records"; "2051"; "01"; "02"; "09-00.yml"] := File "work" true ]>
  (<[ ["records"; "2051"; "01"; "02"] := Directory ]> ex_store_single)).

Definition ex_LoadAllRecords (fs : gmap (list string) node) :=
  LoadAllRecords (fs_ReadDir fs) (fs_Stat fs) (ex_LoadRecord fs)
    ex_root ex_RecordDir ex_Date ex_ToDate ex_YearOf ex_fileToTime.

Definition ex_FindLatestRecord (fs : gmap (list string) node) :=
  FindLatestRecord (fs_ReadDir fs) (fs_Stat fs) (ex_LoadRecord fs)
    ex_root ex_RecordDir ex_Date ex_ToDate ex_YearOf ex_fileToTime.

Definition ex_three_records : list RecordT :=
  [ mkRecord "work" (clock 9 0) NoTime "" [] [];
    mkRecord "home" (clock 14 0) NoTime "" [] [];
    mkRecord "work" (clock 33 0) NoTime "" [] [] ].

Example ex_store_three_loads :
  ex_LoadAllRecords ex_store_three = (ex_three_records, None).
Proof. vm_compute. reflexivity. Qed.

Lemma LoadAllRecordsFiltered_matching_witness :
  LoadAllRecordsFiltered (fs_ReadDir ex_store_three) (fs_Stat ex_store_three)
    (ex_LoadRecord ex_store_three)
    ex_root ex_RecordDir ex_Date ex_ToDate ex_YearOf ex_fileToTime
    (mkFilters [FilterByProjects ["work"]] NoTime NoTime)
  = (List.filter (fun r => Filter r [FilterByProjects ["work"]]) ex_three_records,
     None).
Proof.
  apply (LoadAllRecordsFiltered_matching
           (fs_ReadDir ex_store_three) (fs_Stat ex_store_three)
           (ex_LoadRecord ex_store_three)
           ex_root ex_RecordDir ex_Date ex_ToDate ex_YearOf ex_fileToTime).
  vm_compute. reflexivity.
Defined.

Lemma scan_year_not_a_number_witness :
  scan_year (fs_ReadDir ex_store_three) (fs_Stat ex_store_three)
    (ex_LoadRecord ex_store_three)
    ex_root ex_RecordDir ex_Date ex_ToDate ex_YearOf ex_fileToTime
    (mkFilters [] NoTime NoTime) false (mkFileInfo "tmp" true)
  = fail_with (NumError "Atoi" "tmp" "invalid syntax")
  /\ for_each
       (scan_year (fs_ReadDir ex_store_three) (fs_Stat ex_store_three)
          (ex_LoadRecord ex_store_three)
          ex_root ex_RecordDir ex_Date ex_ToDate ex_YearOf ex_fileToTime
          (mkFilters [] NoTime NoTime) false)
       [mkFileInfo "tmp" true; mkFileInfo "2051" true]
     = ([], Some (NumError "Atoi" "tmp" "invalid syntax")).
Proof.
  apply (scan_year_not_a_number
           (fs_ReadDir ex_store_three) (fs_Stat ex_store_three)
           (ex_LoadRecord ex_store_three)
           ex_root ex_RecordDir ex_Date ex_ToDate ex_YearOf ex_fileToTime);
    reflexivity.
Defined.

Example FindLatestRecord_home :
  ex_FindLatestRecord ex_store_three (FilterByProjects ["home"])
  = mkFound (Some (mkRecord "home" (clock 14 0) NoTime "" [] [])) None 1 true.
Proof. vm_compute. reflexivity. Qed.

(** A file that cannot be read makes the query fail, with the error of a
    missing record. *)
Example FindLatestRecord_locked :
  ex_FindLatestRecord ex_store_locked (FilterByProjects ["work"])
  = mkFound None (Some ErrRecordNotFound) 1 false.
Proof. vm_compute. reflexivity. Qed.

(** C5 at the store of three records: the latest "home" record is found,
    with one item received and [stop] closed. *)
Lemma FindLatestRecord_latest_match_witness :
  exists latest,
    ex_FindLatestRecord ex_store_three (FilterByProjects ["home"])
      = mkFound (Some latest) None 1 true
    /\ In latest ex_three_records
    /\ FilterByProjects ["home"] latest = true
    /\ forall r, In r ex_three_records -> FilterByProjects ["home"] r = true ->
         (rStart r <= rStart latest)%N.
Proof.
  destruct (FindLatestRecord_latest_match
              (fs_ReadDir ex_store_three) (fs_Stat ex_store_three)
              (ex_LoadRecord ex_store_three)
              ex_root ex_RecordDir ex_Date ex_ToDate ex_YearOf ex_fileToTime
              (FilterByProjects ["home"]) ex_three_records
              ex_store_three_loads)
    as (_ & _ & _ & Hchron).
  exists (mkRecord "home" (clock 14 0) NoTime "" [] []).
  split; [vm_compute; reflexivity|].
  apply Hchron.
  - unfold chronological, ex_three_records.
    repeat constructor; vm_compute; reflexivity.
  - vm_compute. reflexivity.
Defined.

(** [h:m] on the first day of the year [y] of the simplified calendar. *)
Definition new_year (y h m : N) : time :=
  (((y - 1) * 360 * 24 * 60 + h * 60 + m) * 60 * 1000000000)%N.

(** A record in the year 9999 and one in the year 10000: the listing of the
    records directory, sorted by name, has the directory of the later year
    first. *)
Definition ex_store_five_digits : gmap (list string) node :=
  <[ ["records"; "10000"; "01"; "01"; "09-00.yml"] := File "work" true ]>
  (<[ ["records"; "10000"; "01"; "01"] := Directory ]>
  (<[ ["records"; "10000"; "01"] := Directory ]>
  (<[ ["records"; "10000"] := Directory ]>
  (<[ ["records"; "9999"; "01"; "01"; "09-00.yml"] := File "work" true ]>
  (<[ ["records"; "9999"; "01"; "01"] := Directory ]>
  (<[ ["records"; "9999"; "01"] := Directory ]>
  (<[ ["records"; "9999"] := Directory ]>
  (<[ ["records"] := Directory ]> ∅)))))))).

(** C5 (as the specification words it) fails: both records are stored and
    satisfy the predicate, and [FindLatestRecord] returns the record of the
    year 9999, which starts before the record of the year 10000: the reverse
    scan visits the directory "9999" before the directory "10000". *)
Lemma FindLatestRecord_five_digit_year :
  ex_LoadAllRecords ex_store_five_digits
  = ([ mkRecord "work" (new_year 10000 9 0) NoTime "" [] [];
       mkRecord "work" (new_year 9999 9 0) NoTime "" [] [] ], None)
  /\ ex_FindLatestRecord ex_store_five_digits (FilterByProjects ["work"])
     = mkFound (Some (mkRecord "work" (new_year 9999 9 0) NoTime "" [] []))
         None 1 true
  /\ FilterByProjects ["work"]
       (mkRecord "work" (new_year 10000 9 0) NoTime "" [] []) = true
  /\ (new_year 9999 9 0 < new_year 10000 9 0)%N.
Proof. vm_compute. repeat split. Qed.

(** The store of three records scanned for "work" in both directions. *)
Lemma AllRecordsFiltered_reversed_witness :
  AllRecordsFiltered (fs_ReadDir ex_store_three) (fs_Stat ex_store_three)
    (ex_LoadRecord ex_store_three)
    ex_root ex_RecordDir ex_Date ex_ToDate ex_YearOf ex_fileToTime
    (mkFilters [FilterByProjects ["work"]] NoTime NoTime) true
  = (rev [ mkRecord "work" (clock 9 0) NoTime "" [] [];
           mkRecord "work" (clock 33 0) NoTime "" [] [] ], None).
Proof.
  apply (AllRecordsFiltered_reversed
           (fs_ReadDir ex_store_three) (fs_Stat ex_store_three)
           (ex_LoadRecord ex_store_three)
           ex_root ex_RecordDir ex_Date ex_ToDate ex_YearOf ex_fileToTime).
  vm_compute. reflexivity.
Defined.

(** ** The roll-up loop when parents are visited first *)

(** The names of the ancestors of a project, nearest first. *)
Definition ancestor_names (allProjects : gmap string Project) (name : string)
  : list string :=
  match Ancestors allProjects name with
  | Some anc => map prjName anc
  | None => []
  end.

Definition is_ancestor (allProjects : gmap string Project) (k q : string) : bool :=
  bool_decide (k ∈ ancestor_names allProjects q).

(** The project is in the tree, and its ancestors are distinct and do not
    include the project itself (the parent links have no cycle). *)
Definition in_tree (allProjects : gmap string Project) (q : string) : Prop :=
  is_Some (Ancestors allProjects q)
  /\ NoDup (ancestor_names allProjects q)
  /\ q ∉ ancestor_names allProjects q.

(** Every project is visited after all of its ancestors. *)
Fixpoint parents_first (allProjects : gmap string Project) (order : list string)
  : Prop :=
  match order with
  | [] => True
  | q :: rest =>
      Forall (fun p => p ∉ ancestor_names allProjects q) rest
      /\ parents_first allProjects rest
  end.

Lemma add_to_ancestors_lookup (project : string) (anc : list Project)
    (totals : gmap string duration) (k : string) :
  NoDup (map prjName anc) ->
  project ∉ map prjName anc ->
  add_to_ancestors project anc totals !! k
  = (fun t => if bool_decide (k ∈ map prjName anc)
              then dur_add t (get_total totals project) else t)
      <$> totals !! k.
Proof.
  unfold add_to_ancestors.
  revert totals. induction anc as [|node anc IH]; intros totals Hnd Hnot.
  - simpl. destruct (totals !! k); reflexivity.
  - simpl in Hnd, Hnot. apply NoDup_cons in Hnd as [Hfresh Hnd].
    apply not_elem_of_cons in Hnot as [Hne Hnot].
    cbn [fold_left].
    destruct (totals !! prjName node) as [t|] eqn:Hnode.
    + rewrite IH by assumption.
      assert (Hproj : get_total (<[prjName node := dur_add t (get_total totals project)]> totals)
                        project = get_total totals project).
      { unfold get_total. now rewrite lookup_insert_ne by congruence. }
      rewrite Hproj. cbn [map].
      destruct (decide (k = prjName node)) as [->|Hk].
      * rewrite lookup_insert_eq, Hnode. cbn.
        rewrite (bool_decide_eq_false_2 _ Hfresh).
        rewrite bool_decide_eq_true_2 by apply list_elem_of_here.
        reflexivity.
      * rewrite lookup_insert_ne by congruence.
        destruct (totals !! k) as [tk|]; [|reflexivity]. cbn. f_equal.
        destruct (decide (k ∈ map prjName anc)) as [Hin|Hout].
        -- rewrite !bool_decide_eq_true_2; [reflexivity| |exact Hin].
           now apply list_elem_of_further.
        -- rewrite !bool_decide_eq_false_2; [reflexivity| |exact Hout].
           intros [?|?]%elem_of_cons; congruence.
    + rewrite IH by assumption. cbn [map].
      destruct (decide (k = prjName node)) as [->|Hk].
      * now rewrite Hnode.
      * destruct (totals !! k) as [tk|]; [|reflexivity]. cbn. f_equal.
        destruct (decide (k ∈ map prjName anc)) as [Hin|Hout].
        -- rewrite !bool_decide_eq_true_2; [reflexivity| |exact Hin].
           now apply list_elem_of_further.
        -- rewrite !bool_decide_eq_false_2; [reflexivity| |exact Hout].
           intros [?|?]%elem_of_cons; congruence.
Qed.

(** The time the projects of [order] that have [k] among their ancestors
    bring to [k]. *)
Definition brought_by (allProjects : gmap string Project)
    (totals : gmap string duration) (order : list string) (k : string) : Z :=
  sum_durations
    (map (get_total totals) (List.filter (is_ancestor allProjects k) order)).

Lemma wrap64_range (z : Z) : in_int64 (wrap64 z).
Proof.
  unfold in_int64, wrap64.
  pose proof (Z.mod_pos_bound (z + 2 ^ 63) (2 ^ 64)) as Hb.
  int64_bounds. lia.
Qed.

#[global] Instance in_int64_dec (z : Z) : Decision (in_int64 z).
Proof. unfold in_int64. apply _. Defined.

(** Every value of the map is a 64-bit duration. *)
Definition int64_totals (totals : gmap string duration) : Prop :=
  map_Forall (fun _ t => in_int64 t) totals.

Lemma add_to_ancestors_int64 (project : string) (anc : list Project)
    (totals : gmap string duration) :
  int64_totals totals -> int64_totals (add_to_ancestors project anc totals).
Proof.
  unfold add_to_ancestors. revert totals.
  induction anc as [|node anc IH]; intros totals Hall; [exact Hall|].
  cbn [fold_left]. apply IH.
  destruct (totals !! prjName node) as [t|] eqn:Hnode; [|exact Hall].
  intros k v. destruct (decide (k = prjName node)) as [->|Hk].
  - rewrite lookup_insert_eq. intros [= <-]. apply wrap64_range.
  - rewrite lookup_insert_ne by congruence. apply Hall.
Qed.

(** X1. When the loop visits every project after its ancestors, each total ends
    as the direct time of the project plus the direct times of the visited
    projects below it, in 64-bit arithmetic. *)
Theorem roll_up_parents_first :
  forall (allProjects : gmap string Project) (order : list string)
         (totals : gmap string duration),
    int64_totals totals ->
    Forall (in_tree allProjects) order ->
    parents_first allProjects order ->
    exists final,
      roll_up allProjects order totals = Ok final
      /\ forall k,
           final !! k
           = (fun t => wrap64 (t + brought_by allProjects totals order k))
               <$> totals !! k.
Proof.
  intros allProjects order. induction order as [|q rest IH];
    intros totals Hint Htree Hfirst.
  - exists totals. split; [reflexivity|]. intros k.
    unfold brought_by. cbn.
    destruct (totals !! k) as [t|] eqn:Hk; cbn; [|reflexivity].
    rewrite Z.add_0_r, wrap64_id; [reflexivity|]. now apply (Hint k).
  - apply Forall_cons in Htree as [(Hsome & Hnd & Hself) Htree].
    destruct Hfirst as [Hlater Hfirst].
    cbn [roll_up]. unfold ancestor_names in Hnd, Hself, Hlater.
    destruct (Ancestors allProjects q) as [anc|] eqn:Hanc;
      [|now destruct Hsome].
    destruct (IH (add_to_ancestors q anc totals)
                (add_to_ancestors_int64 q anc totals Hint) Htree Hfirst)
      as (final & Hrun & Hfinal).
    exists final. split; [exact Hrun|]. intros k.
    rewrite Hfinal, add_to_ancestors_lookup by assumption.
    assert (Hrest : map (get_total (add_to_ancestors q anc totals))
                      (List.filter (is_ancestor allProjects k) rest)
                    = map (get_total totals)
                        (List.filter (is_ancestor allProjects k) rest)).
    { apply map_ext_in. intros p [Hp _]%List.filter_In.
      rewrite List.Forall_forall in Hlater. specialize (Hlater p Hp).
      unfold get_total. rewrite add_to_ancestors_lookup by assumption.
      destruct (totals !! p) as [tp|]; [|reflexivity]. cbn.
      now rewrite bool_decide_eq_false_2. }
    unfold brought_by. rewrite Hrest.
    destruct (totals !! k) as [t|]; [|reflexivity]. cbn. f_equal.
    assert (His : is_ancestor allProjects k q = bool_decide (k ∈ map prjName anc)).
    { unfold is_ancestor, ancestor_names. now rewrite Hanc. }
    rewrite His.
    destruct (bool_decide (k ∈ map prjName anc)); cbn.
    + unfold dur_add. rewrite wrap64_add_l. f_equal.
      unfold sum_durations. lia.
    + reflexivity.
Qed.

(** X1 on the tree of depth three, visited from the root down: the totals of
    [root] and [mid] are their own time plus the time of the projects
    below them. *)
Definition family_direct : gmap string duration :=
  <["root" := minutes 15]> (<["mid" := minutes 30]>
  (<["leaf1" := hours 1]> (<["leaf2" := hours 2]> ∅))).

Lemma roll_up_parents_first_witness :
  exists final,
    roll_up family ["root"; "mid"; "leaf1"; "leaf2"] family_direct = Ok final
    /\ final !! "root" = Some (hours 3 + minutes 45)%Z
    /\ final !! "mid" = Some (hours 3 + minutes 30)%Z.
Proof.
  destruct (roll_up_parents_first family ["root"; "mid"; "leaf1"; "leaf2"]
              family_direct) as (final & Hrun & Hfinal).
  - unfold int64_totals. apply (bool_decide_unpack _). vm_compute. exact I.
  - repeat (apply Forall_cons; split); try apply Forall_nil_2;
      (split; [vm_compute; eexists; reflexivity|]);
      split; apply (bool_decide_unpack _); vm_compute; exact I.
  - cbn [parents_first].
    repeat (split; [apply (bool_decide_unpack _); vm_compute; exact I|]).
    exact I.
  - exists final. split; [exact Hrun|]. rewrite !Hfinal. vm_compute. auto.
Defined.

(** ** Further properties of the filters and of the pause ledger *)

(** X2. A collection of predicates matches a record exactly when each of them
    does. *)
Theorem Filter_all (record : RecordT) (filters : list FilterFunction) :
  Filter record filters = true <-> Forall (fun f => f record = true) filters.
Proof.
  induction filters as [|f rest IH]; simpl.
  - split; [constructor | reflexivity].
  - destruct (f record) eqn:Hf.
    + rewrite IH. split; [now constructor | now inversion 1].
    + split; [discriminate|]. inversion 1; congruence.
Qed.

Lemma name_set_lookup (names : list string) (m : gmap string bool) (k : string) :
  is_Some (fold_left (fun m p => <[p := true]> m) names m !! k)
  <-> In k names \/ is_Some (m !! k).
Proof.
  revert m. induction names as [|n names IH]; intros m; simpl.
  - tauto.
  - rewrite IH. destruct (decide (n = k)) as [->|Hne].
    + rewrite lookup_insert_eq. split; [auto|]. intros _. right. eauto.
    + rewrite lookup_insert_ne by exact Hne. tauto.
Qed.

(** X3. [FilterByProjects] matches the records whose project is one of the
    names. *)
Theorem FilterByProjects_member (projects : list string) (r : RecordT) :
  FilterByProjects projects r = true <-> In (rProject r) projects.
Proof.
  unfold FilterByProjects.
  pose proof (name_set_lookup projects ∅ (rProject r)) as Hset.
  rewrite lookup_empty in Hset.
  destruct (fold_left _ projects ∅ !! rProject r) as [b|].
  - split; [intros _|reflexivity].
    destruct Hset as [[Hin|[? Hnone]] _]; [eauto | exact Hin | discriminate].
  - split; [discriminate|]. intros Hin.
    destruct Hset as [_ [? Hsome]]; [now left | discriminate].
Qed.

(** X4. [FilterByTagsAny] matches the records with at least one of the tags. *)
Theorem FilterByTagsAny_some (tags : list string) (r : RecordT) :
  FilterByTagsAny tags r = true
  <-> exists t, In t (rTags r) /\ In t tags.
Proof.
  unfold FilterByTagsAny. rewrite existsb_exists.
  split; intros (t & Hin & Ht); exists t; (split; [exact Hin|]).
  - pose proof (name_set_lookup tags ∅ t) as Hset. rewrite lookup_empty in Hset.
    destruct (fold_left _ tags ∅ !! t) as [b|]; [|discriminate].
    destruct Hset as [[Hin'|[? Hnone]] _]; [eauto | exact Hin' | discriminate].
  - pose proof (name_set_lookup tags ∅ t) as Hset.
    destruct (fold_left _ tags ∅ !! t) as [b|]; [reflexivity|].
    destruct Hset as [_ [? Hsome]]; [now left | discriminate].
Qed.

(** X5. [FilterByTagsAll] matches the records that have every one of the tags. *)
Theorem FilterByTagsAll_every (tags : list string) (r : RecordT) :
  FilterByTagsAll tags r = true
  <-> forall t, In t tags -> In t (rTags r).
Proof.
  unfold FilterByTagsAll. rewrite forallb_forall.
  split; intros H t Ht.
  - apply H in Ht. apply existsb_exists in Ht as (t2 & Hin & Heq).
    apply String.eqb_eq in Heq. now subst.
  - apply existsb_exists. exists t. split; [now apply H | apply String.eqb_refl].
Qed.

(** X6. [InsertPause] accepts a pause exactly when it does not start before the
    end of the last pause, or before the record when there is no pause; an
    accepted pause becomes the last pause and the others are kept. *)
Theorem InsertPause_accepts_iff (r : RecordT) (start end_ : time) (note : string) :
  ((match last (rPause r) with
    | Some p => pEnd p
    | None => rStart r
    end <= start)%N
   <-> InsertPause r start end_ note
       = Ok (set_rPause r (rPause r ++ [mkPause start end_ note]),
             mkPause start end_ note))
  /\ (forall r' p, InsertPause r start end_ note = Ok (r', p) ->
        rPause r' = rPause r ++ [p] /\ p = mkPause start end_ note).
Proof.
  unfold InsertPause. split.
  - destruct (last (rPause r)) as [p|].
    + destruct (Before start (pEnd p)) eqn:Hb.
      * apply Before_lt in Hb. split; [lia | discriminate].
      * apply Before_ge in Hb. tauto.
    + destruct (Before start (rStart r)) eqn:Hb.
      * apply Before_lt in Hb. split; [lia | discriminate].
      * apply Before_ge in Hb. tauto.
  - intros r' p.
    destruct (last (rPause r)) as [q|];
      [destruct (Before start (pEnd q)) | destruct (Before start (rStart r))];
      try discriminate; intros [= <- <-]; auto.
Qed.

(** [EndPause] fails without a pause and on a closed last pause; otherwise
    it sets the end of the last pause and changes nothing else. *)
Theorem EndPause_closes_last (r : RecordT) (t : time) :
  (rPause r = [] -> EndPause r t = Err (Errorf "no pause to end"))
  /\ (forall ps p, rPause r = ps ++ [p] -> pEnd p <> NoTime ->
        EndPause r t = Err (Errorf "last pause is already ended"))
  /\ (forall ps p, rPause r = ps ++ [p] -> pEnd p = NoTime ->
        EndPause r t
        = Ok (set_rPause r (ps ++ [mkPause (pStart p) t (pNote p)]),
              mkPause (pStart p) t (pNote p))).
Proof.
  unfold EndPause. repeat split.
  - intros ->. reflexivity.
  - intros ps p -> Hclosed. rewrite last_snoc.
    apply IsZero_false in Hclosed. now rewrite Hclosed.
  - intros ps p -> Hopen. rewrite last_snoc, removelast_last.
    apply IsZero_true in Hopen. now rewrite Hopen.
Qed.

(** [PopPause] removes the last pause and returns it; it reports [false]
    on a record without pauses, which it leaves as it is. *)
Theorem PopPause_removes_last (r : RecordT) :
  (rPause r = [] -> PopPause r = (r, None))
  /\ (forall ps p, rPause r = ps ++ [p] ->
        PopPause r = (set_rPause r ps, Some p)).
Proof.
  unfold PopPause. split.
  - intros ->. reflexivity.
  - intros ps p ->. now rewrite last_snoc, removelast_last.
Qed.

(** [StopRecord] without a running record fails and saves nothing; an error
    of [OpenRecord] is passed on. *)
Theorem StopRecord_no_running_record
    (save : RecordT -> bool -> option error) (t : time) :
  StopRecord (Ok None) save t = (None, Some (Errorf "no running record"))
  /\ forall err, StopRecord (Err err) save t = (None, Some err).
Proof. split; reflexivity. Qed.

(** ** The loop over the records, as a whole *)

Definition of_project (k : string) (r : RecordT) : bool :=
  String.eqb (rProject r) k.

(** The end a record counts with in the time range of the report. *)
Definition effective_end (r : RecordT) : time :=
  if IsZero (rEnd r) then rStart r else rEnd r.

(** What one record does to the time range. *)
Definition range_step (tRange : TimeRange) (r : RecordT) : TimeRange :=
  mkTimeRange
    (if IsZero (trStart tRange) || Before (rStart r) (trStart tRange)
     then rStart r else trStart tRange)
    (if IsZero (trEnd tRange) || After (effective_end r) (trEnd tRange)
     then effective_end r else trEnd tRange).

Lemma get_total_insert_eq (m : gmap string duration) (k : string) (v : duration) :
  get_total (<[k := v]> m) k = v.
Proof. unfold get_total. now rewrite lookup_insert_eq. Qed.

Lemma get_total_insert_ne (m : gmap string duration) (k k' : string) (v : duration) :
  k' <> k -> get_total (<[k' := v]> m) k = get_total m k.
Proof. intros Hne. unfold get_total. now rewrite lookup_insert_ne. Qed.

Section RecordLoop.

Variable now : time.

Lemma add_record_totals (acc : gmap string duration * TimeRange) (r : RecordT) :
  (add_record now acc r).1
  = <[rProject r :=
        dur_add (get_total acc.1 (rProject r)) (Duration_plain now r)]> acc.1.
Proof. now destruct acc. Qed.

Lemma add_record_range (acc : gmap string duration * TimeRange) (r : RecordT) :
  (add_record now acc r).2 = range_step acc.2 r.
Proof.
  destruct acc as [totals [s e]]. unfold range_step, effective_end.
  cbn. destruct (IsZero s || Before (rStart r) s);
    destruct (IsZero (rEnd r)); cbn;
    destruct (IsZero e || After _ e); reflexivity.
Qed.

Lemma record_loop_totals_acc (records : list RecordT)
    (acc : gmap string duration * TimeRange) (k : string) :
  (fold_left (add_record now) records acc).1 !! k
  = match List.filter (of_project k) records with
    | [] => acc.1 !! k
    | rs =>
        Some (wrap64 (get_total acc.1 k
                      + sum_durations
                          (map (fun r => Duration_plain now r)
                             rs)))
    end.
Proof.
  revert acc. induction records as [|r rest IH]; intros acc; [reflexivity|].
  cbn [fold_left List.filter]. rewrite IH, add_record_totals.
  unfold of_project at 2. destruct (String.eqb_spec (rProject r) k) as [->|Hne].
  - rewrite get_total_insert_eq, lookup_insert_eq.
    destruct (List.filter (of_project k) rest) as [|r' rs].
    + cbn [map sum_durations fold_right]. unfold dur_add.
      now rewrite Z.add_0_r.
    + unfold dur_add. rewrite wrap64_add_l. do 2 f_equal.
      cbn [map sum_durations fold_right]. lia.
  - rewrite get_total_insert_ne, lookup_insert_ne by exact Hne.
    reflexivity.
Qed.

(** X10. After the loop of [NewReporter] over the scanned records, the
    accumulator of a project with scanned records holds the sum of the
    durations of its records, in 64-bit arithmetic, on top of what it held
    before; the accumulator of a project without scanned records is as it
    was. *)
Theorem record_loop_totals :
  forall (records : list RecordT) (totals : gmap string duration)
         (tRange : TimeRange) (k : string),
    (fold_left (add_record now) records
       (totals, tRange)).1 !! k
    = match List.filter (of_project k) records with
      | [] => totals !! k
      | rs =>
          Some (wrap64 (get_total totals k
                        + sum_durations
                            (map (fun r => Duration_plain now r)
                               rs)))
      end.
Proof. intros records totals tRange k. apply record_loop_totals_acc. Qed.

Lemma record_loop_range (records : list RecordT)
    (acc : gmap string duration * TimeRange) :
  (fold_left (add_record now) records acc).2
  = fold_left range_step records acc.2.
Proof.
  revert acc. induction records as [|r rest IH]; intros acc; [reflexivity|].
  cbn [fold_left]. now rewrite IH, add_record_range.
Qed.

End RecordLoop.

Lemma range_steps_start (records : list RecordT) (tRange : TimeRange) :
  Forall (fun r => rStart r <> NoTime) records ->
  (trStart (fold_left range_step records tRange) = trStart tRange
   \/ exists r, In r records
                /\ trStart (fold_left range_step records tRange) = rStart r)
  /\ (trStart tRange <> NoTime ->
      (trStart (fold_left range_step records tRange) <= trStart tRange)%N
      /\ trStart (fold_left range_step records tRange) <> NoTime)
  /\ (forall r, In r records ->
        (trStart (fold_left range_step records tRange) <= rStart r)%N
        /\ trStart (fold_left range_step records tRange) <> NoTime).
Proof.
  revert tRange. induction records as [|r rest IH]; intros tRange Hnz.
  - cbn. split; [now left|]. split; [|intros r []].
    intros H. split; [lia | exact H].
  - apply Forall_cons in Hnz as [Hr Hnz].
    cbn [fold_left].
    destruct (IH (range_step tRange r) Hnz) as (Hfrom & Hle & Hall).
    assert (Hstep : trStart (range_step tRange r) <> NoTime
                    /\ (trStart (range_step tRange r) <= rStart r)%N
                    /\ (trStart tRange <> NoTime ->
                        (trStart (range_step tRange r) <= trStart tRange)%N)
                    /\ (trStart (range_step tRange r) = trStart tRange
                        \/ trStart (range_step tRange r) = rStart r)).
    { unfold range_step, NoTime in *. cbn [trStart].
      destruct (IsZero (trStart tRange)) eqn:Hz; cbn [orb].
      - apply IsZero_true in Hz. repeat split; auto; lia.
      - apply IsZero_false in Hz.
        destruct (Before (rStart r) (trStart tRange)) eqn:Hb.
        + apply Before_lt in Hb. repeat split; auto; lia.
        + apply Before_ge in Hb. repeat split; auto; lia. }
    destruct Hstep as (Hs1 & Hs2 & Hs3 & Hs4).
    destruct (Hle Hs1) as [Hle1 Hle2].
    split; [|split].
    + destruct Hfrom as [Heq|(r' & Hin & Heq)].
      * destruct Hs4 as [Hs4|Hs4]; [left; congruence|].
        right. exists r. split; [now left | congruence].
      * right. exists r'. split; [now right | exact Heq].
    + intros H. specialize (Hs3 H). split; [lia | exact Hle2].
    + intros r' [<-|Hin]; [split; [lia | exact Hle2] | now apply Hall].
Qed.

Lemma range_steps_end (records : list RecordT) (tRange : TimeRange) :
  Forall (fun r => effective_end r <> NoTime) records ->
  (trEnd (fold_left range_step records tRange) = trEnd tRange
   \/ exists r, In r records
                /\ trEnd (fold_left range_step records tRange) = effective_end r)
  /\ (trEnd tRange <= trEnd (fold_left range_step records tRange))%N
  /\ (forall r, In r records ->
        (effective_end r <= trEnd (fold_left range_step records tRange))%N).
Proof.
  revert tRange. induction records as [|r rest IH]; intros tRange Hnz.
  - cbn. split; [now left|]. split; [lia | intros r []].
  - apply Forall_cons in Hnz as [Hr Hnz].
    cbn [fold_left].
    destruct (IH (range_step tRange r) Hnz) as (Hfrom & Hle & Hall).
    assert (Hstep : (effective_end r <= trEnd (range_step tRange r))%N
                    /\ (trEnd tRange <= trEnd (range_step tRange r))%N
                    /\ (trEnd (range_step tRange r) = trEnd tRange
                        \/ trEnd (range_step tRange r) = effective_end r)).
    { unfold range_step, NoTime in *. cbn [trEnd].
      destruct (IsZero (trEnd tRange)) eqn:Hz; cbn [orb].
      - apply IsZero_true in Hz. repeat split; auto; lia.
      - destruct (After (effective_end r) (trEnd tRange)) eqn:Ha.
        + apply After_gt in Ha. repeat split; auto; lia.
        + apply After_le in Ha. repeat split; auto; lia. }
    destruct Hstep as (Hs1 & Hs2 & Hs3).
    split; [|split].
    + destruct Hfrom as [Heq|(r' & Hin & Heq)].
      * destruct Hs3 as [Hs3|Hs3]; [left; congruence|].
        right. exists r. split; [now left | congruence].
      * right. exists r'. split; [now right | exact Heq].
    + lia.
    + intros r' [<-|Hin]; [lia | now apply Hall].
Qed.

(** X11. After the loop of [NewReporter] over a non-empty list of scanned
    records with non-zero start times, the time range of the report starts at
    the earliest start of a record and ends at the latest effective end (the
    end of a closed record, the start of an open one). *)
Theorem record_loop_time_range :
  forall (now : time)
         (records : list RecordT) (totals : gmap string duration),
    records <> [] ->
    Forall (fun r => rStart r <> NoTime) records ->
    (exists r, In r records
       /\ trStart (fold_left (add_record now)
                     records (totals, mkTimeRange NoTime NoTime)).2
          = rStart r)
    /\ (forall r, In r records ->
          (trStart (fold_left (add_record now)
                      records (totals, mkTimeRange NoTime NoTime)).2
           <= rStart r)%N)
    /\ (exists r, In r records
          /\ trEnd (fold_left (add_record now)
                      records (totals, mkTimeRange NoTime NoTime)).2
             = effective_end r)
    /\ (forall r, In r records ->
          (effective_end r
           <= trEnd (fold_left (add_record now)
                       records (totals, mkTimeRange NoTime NoTime)).2)%N).
Proof.
  intros now records totals Hne Hnz.
  rewrite record_loop_range. cbn [snd].
  assert (Hnz' : Forall (fun r => effective_end r <> NoTime) records).
  { eapply Forall_impl; [exact Hnz|]. intros r Hr. unfold effective_end.
    destruct (IsZero (rEnd r)) eqn:Hz; [exact Hr | now apply IsZero_false]. }
  destruct (range_steps_start records (mkTimeRange NoTime NoTime) Hnz)
    as (Hfrom & _ & Hall).
  destruct (range_steps_end records (mkTimeRange NoTime NoTime) Hnz')
    as (Hfrom' & _ & Hall').
  destruct records as [|r0 rest]; [contradiction|].
  split; [|split; [|split]].
  - destruct Hfrom as [Heq|Hex]; [|exact Hex].
    destruct (Hall r0 (or_introl eq_refl)) as [_ Hnot].
    exfalso. apply Hnot. exact Heq.
  - intros r Hin. now apply Hall.
  - destruct Hfrom' as [Heq|Hex]; [|exact Hex].
    pose proof (Hall' r0 (or_introl eq_refl)) as Hle.
    apply Forall_cons in Hnz' as [Hr0 _]. cbn [trEnd] in Heq.
    unfold NoTime in *. lia.
  - intros r Hin. now apply Hall'.
Qed.

Lemma record_loop_time_range_witness :
  exists r, In r family_records
    /\ trStart (fold_left (add_record (clock 18 0))
                  family_records (∅, mkTimeRange NoTime NoTime)).2
       = rStart r.
Proof.
  apply (record_loop_time_range (clock 18 0)
           family_records ∅).
  - discriminate.
  - unfold family_records. repeat (apply Forall_cons; split);
      try apply Forall_nil_2; vm_compute; discriminate.
Defined.

(** ** Consistency kept by the operations of the pause ledger *)

Lemma Check_ok_rules (r : RecordT) : Check r = None <-> Check_rules r.
Proof.
  unfold Check, Check_rules.
  destruct (negb (IsZero (rEnd r)) && Before (rEnd r) (rStart r)) eqn:He.
  - apply andb_true_iff in He as [Hnz Hlt].
    apply negb_true_iff, IsZero_false in Hnz. apply Before_lt in Hlt.
    split; [discriminate|]. intros ([Hz|Hle] & _); [contradiction|lia].
  - assert (Hes : end_after_start r).
    { apply andb_false_iff in He as [He|He].
      - left. now apply negb_false_iff, IsZero_true in He.
      - right. now apply Before_ge in He. }
    change NoTime with (pStart zeroPause) at 1.
    change NoTime with (pEnd zeroPause) at 1.
    rewrite Check_pauses_spec, !adjacent_zeroPause;
      [tauto | intros q; apply N.le_0_l | intros q; apply N.le_0_l].
Qed.

Lemma adjacent_snoc (R : Pause -> Pause -> Prop) (ps : list Pause) (p : Pause) :
  adjacent R (ps ++ [p])
  <-> adjacent R ps /\ (forall q, last ps = Some q -> R q p).
Proof.
  induction ps as [|a ps IH].
  - cbn. split; [intros _; split; [exact I | discriminate] | tauto].
  - destruct ps as [|b ps].
    + cbn. split.
      * intros [HR _]. split; [tauto|]. now intros q [= <-].
      * intros [_ HR]. split; [now apply HR | tauto].
    + change (adjacent R ((a :: b :: ps) ++ [p]))
        with (R a b /\ adjacent R ((b :: ps) ++ [p])).
      change (adjacent R (a :: b :: ps)) with (R a b /\ adjacent R (b :: ps)).
      change (last (a :: b :: ps)) with (last (b :: ps)).
      rewrite IH. tauto.
Qed.

Lemma adjacent_app_l (R : Pause -> Pause -> Prop) (l1 l2 : list Pause) :
  adjacent R (l1 ++ l2) -> adjacent R l1.
Proof.
  revert l1. induction l2 as [|p l2 IH] using rev_ind; intros l1.
  - now rewrite app_nil_r.
  - rewrite app_assoc. intros H%adjacent_snoc. now apply IH.
Qed.

(** In pauses ordered by start, every pause starts no later than the last. *)
Lemma starts_up_to_last (ps : list Pause) (q : Pause) :
  adjacent (fun p q => (pStart p <= pStart q)%N) ps ->
  last ps = Some q ->
  forall p, In p ps -> (pStart p <= pStart q)%N.
Proof.
  induction ps as [|a ps IH]; intros Hadj Hlast p Hin; [destruct Hin|].
  destruct ps as [|b ps].
  - injection Hlast as <-. destruct Hin as [<-|[]]. lia.
  - destruct Hadj as [Hab Hadj].
    change (last (a :: b :: ps)) with (last (b :: ps)) in Hlast.
    pose proof (IH Hadj Hlast) as Hrest.
    destruct Hin as [<-|Hin]; [|now apply Hrest].
    specialize (Hrest b (or_introl eq_refl)). lia.
Qed.

(** In ordered pauses that do not overlap, every pause but the last ends no
    later than the last one starts. *)
Lemma ends_before_last (ps : list Pause) (q : Pause) :
  adjacent (fun p q => (pStart p <= pStart q)%N) (ps ++ [q]) ->
  adjacent no_overlap (ps ++ [q]) ->
  forall p, In p ps -> (pEnd p <= pStart q)%N.
Proof.
  induction ps as [|a ps IH]; intros Hord Hno p Hin; [destruct Hin|].
  destruct ps as [|b ps].
  - destruct Hin as [<-|[]]. now destruct Hno.
  - change ((a :: b :: ps) ++ [q]) with (a :: b :: (ps ++ [q])) in *.
    destruct Hord as [_ Hord]. destruct Hno as [Hab Hno].
    destruct Hin as [<-|Hin]; [|now apply (IH Hord Hno)].
    assert (Hb : (pStart b <= pStart q)%N).
    { apply (starts_up_to_last (b :: ps ++ [q]) q Hord).
      - change (b :: ps ++ [q]) with ((b :: ps) ++ [q]). apply last_snoc.
      - now left. }
    unfold no_overlap in Hab. lia.
Qed.

Lemma set_rPause_same (r : RecordT) : set_rPause r (rPause r) = r.
Proof. now destruct r. Qed.

(** The outcome of the stop loop, on the pauses in their order. *)
Lemma stop_record_shape (r : RecordT) (t : time) :
  exists kept dropped,
    rPause r = kept ++ dropped
    /\ stop_record r t
       = set_rPause
           (set_rEnd r (match dropped with [] => t | d :: _ => pStart d end))
           kept
    /\ Forall (fun p => stop_cond t p = true) dropped
    /\ (forall q, last kept = Some q -> stop_cond t q = false).
Proof.
  destruct (stop_loop_spec t t (rev (rPause r)))
    as (dropped & kept & Hsplit & Hloop & Hall & Hhd).
  exists (rev kept), (rev dropped). split; [|split; [|split]].
  - rewrite <- rev_app_distr, <- Hsplit. now rewrite rev_involutive.
  - unfold stop_record. rewrite Hloop. do 2 f_equal.
    destruct dropped as [|d dropped] using rev_ind; [reflexivity|].
    now rewrite last_snoc, rev_unit.
  - now apply Forall_rev.
  - intros q Hq. apply Hhd. rewrite <- Hq.
    destruct kept as [|k kept]; [reflexivity|]. simpl. now rewrite last_snoc.
Qed.

(** A closed pause does not end before it starts. *)
Definition pause_forward (p : Pause) : Prop :=
  pEnd p = NoTime \/ (pStart p <= pEnd p)%N.

(** X7. [StopRecord] keeps a consistent record consistent: when [Check]
    accepts the record, the stop time is not before the start of the record
    and no closed pause ends before it starts, [Check] accepts the stopped
    record. *)
Theorem StopRecord_keeps_Check :
  forall (r : RecordT) (t : time),
    Check r = None ->
    (rStart r <= t)%N ->
    List.Forall pause_forward (rPause r) ->
    Check (stop_record r t) = None.
Proof.
  intros r t Hcheck Hstart Hforward.
  apply Check_ok_rules in Hcheck as (_ & Hord & Hno & Hwithin).
  destruct (stop_record_shape r t) as (kept & dropped & Hps & -> & Hdrop & Hexit).
  rewrite Hps in Hord, Hno, Hwithin, Hforward.
  apply List.Forall_app in Hwithin as [Hwk Hwd].
  apply List.Forall_app in Hforward as [Hfk _].
  set (e := match dropped with [] => t | d :: _ => pStart d end).
  apply Check_ok_rules. unfold Check_rules, end_after_start.
  cbn [set_rPause set_rEnd rEnd rStart rPause].
  split; [|split; [|split]].
  - right. subst e. destruct dropped as [|d dropped]; [exact Hstart|].
    apply List.Forall_inv in Hwd. now destruct Hwd.
  - now apply adjacent_app_l in Hord.
  - now apply adjacent_app_l in Hno.
  - destruct kept as [|k0 kept0] using rev_ind; [constructor|]. clear IHkept0.
    assert (Hlast : (pEnd k0 <= e)%N /\ pEnd k0 <> NoTime).
    { destruct (proj1 (stop_cond_false t k0) (Hexit k0 (last_snoc _ _)))
        as [Hnz Hle].
      split; [|exact Hnz]. subst e. destruct dropped as [|d dropped]; [exact Hle|].
      apply (adjacent_app_inv no_overlap _ _ Hno k0 d);
        [apply last_snoc | reflexivity]. }
    destruct Hlast as [Hle Hnz].
    assert (Hk0 : (pStart k0 <= pEnd k0)%N).
    { apply List.Forall_app in Hfk as [_ Hf]. apply List.Forall_inv in Hf.
      destruct Hf; [contradiction | assumption]. }
    apply List.Forall_forall. intros p Hin.
    rewrite List.Forall_forall in Hwk. destruct (Hwk p Hin) as [Hps' _].
    split; [exact Hps'|]. cbn [rEnd]. intros _ _.
    apply List.in_app_or in Hin as [Hin|[<-|[]]]; [|exact Hle].
    pose proof (ends_before_last kept0 k0
                  (adjacent_app_l _ _ _ Hord) (adjacent_app_l _ _ _ Hno) p Hin)
      as Hp.
    clearbody e. cbn [rEnd set_rPause set_rEnd]. lia.
Qed.

Definition morning_record : RecordT :=
  mkRecord "work" (clock 9 0) NoTime "" []
    [mkPause (clock 10 0) (clock 10 30) "tea"; mkPause (clock 11 0) NoTime ""].

Lemma StopRecord_keeps_Check_witness :
  Check (stop_record morning_record (clock 12 0)) = None.
Proof.
  apply (StopRecord_keeps_Check morning_record (clock 12 0)).
  - reflexivity.
  - vm_compute. discriminate.
  - unfold morning_record. cbn [rPause].
    apply List.Forall_cons; [right; vm_compute; discriminate|].
    apply List.Forall_cons; [now left | apply List.Forall_nil].
Defined.

(** Without the last hypothesis the stopped record can be inconsistent: a
    pause that ends before it starts hides an earlier pause that ends after
    the stop time. *)
Example StopRecord_backward_pause :
  Check (mkRecord "work" (clock 9 0) NoTime "" []
           [mkPause (clock 10 0) (clock 11 0) ""; mkPause (clock 11 0) (clock 9 30) ""])
  = None
  /\ Check (stop_record
             (mkRecord "work" (clock 9 0) NoTime "" []
                [mkPause (clock 10 0) (clock 11 0) "";
                 mkPause (clock 11 0) (clock 9 30) ""])
             (clock 10 30))
     = Some (Errorf "pause ends after record").
Proof. split; reflexivity. Qed.

(** X8. After [StopRecord] at a non-zero time, on a record whose pauses
    have non-zero starts, the record has ended and is not paused. *)
Theorem StopRecord_ends_record :
  forall (r : RecordT) (t : time),
    t <> NoTime ->
    List.Forall (fun p => pStart p <> NoTime) (rPause r) ->
    HasEnded (stop_record r t) = true /\ IsPaused (stop_record r t) = false.
Proof.
  intros r t Ht Hstarts.
  destruct (stop_record_shape r t) as (kept & dropped & Hps & -> & Hdrop & Hexit).
  unfold HasEnded, IsPaused. cbn [set_rPause set_rEnd rEnd rPause]. split.
  - apply negb_true_iff, IsZero_false.
    destruct dropped as [|d dropped]; [exact Ht|].
    rewrite Hps in Hstarts. apply List.Forall_app in Hstarts as [_ Hd].
    now apply List.Forall_inv in Hd.
  - destruct (last kept) as [q|] eqn:Hlast; [|reflexivity].
    apply IsZero_false. now apply (stop_cond_false t q), Hexit.
Qed.

Lemma StopRecord_ends_record_witness :
  HasEnded (stop_record morning_record (clock 12 0)) = true
  /\ IsPaused (stop_record morning_record (clock 12 0)) = false.
Proof.
  apply (StopRecord_ends_record morning_record (clock 12 0)).
  - vm_compute. discriminate.
  - unfold morning_record. cbn [rPause].
    repeat (apply List.Forall_cons; [vm_compute; discriminate|]).
    apply List.Forall_nil.
Defined.

(** X9. [InsertPause] keeps a consistent record consistent when the record
    is not paused: if [Check] accepts the record, its last pause (if any) is
    closed and does not end before it starts, and the new pause ends within
    the record, then [Check] accepts the record with the inserted pause. *)
Theorem InsertPause_keeps_Check :
  forall (r r' : RecordT) (s e : time) (note : string) (p : Pause),
    Check r = None ->
    (rEnd r = NoTime \/ (e <= rEnd r)%N) ->
    (forall q, last (rPause r) = Some q ->
       pEnd q <> NoTime /\ (pStart q <= pEnd q)%N) ->
    InsertPause r s e note = Ok (r', p) ->
    Check r' = None.
Proof.
  intros r r' s e note p Hcheck Hend Hlast Hins.
  apply Check_ok_rules in Hcheck as (Hes & Hord & Hno & Hwithin).
  unfold InsertPause in Hins.
  assert (Hshape : r' = set_rPause r (rPause r ++ [mkPause s e note])
                   /\ (forall q, last (rPause r) = Some q -> (pEnd q <= s)%N)
                   /\ (last (rPause r) = None -> (rStart r <= s)%N)).
  { destruct (last (rPause r)) as [q|].
    - destruct (Before s (pEnd q)) eqn:Hb; [discriminate|].
      apply Before_ge in Hb. injection Hins as <- _.
      split; [reflexivity|]. split; [now intros q' [= <-] | discriminate].
    - destruct (Before s (rStart r)) eqn:Hb; [discriminate|].
      apply Before_ge in Hb. injection Hins as <- _.
      split; [reflexivity|]. split; [discriminate | now intros _]. }
  destruct Hshape as (-> & Hafter & Hfirst).
  apply Check_ok_rules. unfold Check_rules.
  cbn [set_rPause rEnd rStart rPause].
  split; [exact Hes|]. split; [|split].
  - apply adjacent_snoc. split; [exact Hord|]. intros q Hq. cbn.
    specialize (Hafter q Hq). destruct (Hlast q Hq). lia.
  - apply adjacent_snoc. split; [exact Hno|]. intros q Hq.
    unfold no_overlap. cbn. now apply Hafter.
  - apply List.Forall_app. split.
    + eapply List.Forall_impl; [|exact Hwithin]. intros a Ha. exact Ha.
    + constructor; [|constructor]. split; cbn.
      * destruct (last (rPause r)) as [q|] eqn:Hq; [|now apply Hfirst].
        specialize (Hafter q eq_refl). destruct (Hlast q eq_refl) as [_ Hq'].
        assert (Hin : In q (rPause r)).
        { apply last_Some in Hq as [ps ->]. apply List.in_or_app. right. now left. }
        rewrite List.Forall_forall in Hwithin.
        destruct (Hwithin q Hin) as [Hrq _]. lia.
      * intros Hnz _. destruct Hend as [Hz|Hle]; [contradiction | exact Hle].
Qed.

Definition tea_record : RecordT :=
  mkRecord "work" (clock 9 0) NoTime "" []
    [mkPause (clock 10 0) (clock 10 30) "tea"].

Lemma InsertPause_keeps_Check_witness :
  Check (set_rPause tea_record
           (rPause tea_record ++ [mkPause (clock 11 0) NoTime "lunch"]))
  = None.
Proof.
  apply (InsertPause_keeps_Check tea_record _ (clock 11 0) NoTime "lunch"
           (mkPause (clock 11 0) NoTime "lunch")).
  - reflexivity.
  - now left.
  - intros q [= <-]. split; vm_compute; discriminate.
  - reflexivity.
Defined.

(** X17. [PopPause] keeps a consistent record consistent, and so does
    [EndPause] when the end it sets lies within the record. *)
Theorem PopPause_EndPause_keep_Check :
  forall (r : RecordT),
    Check r = None ->
    Check (PopPause r).1 = None
    /\ forall (t : time) (r' : RecordT) (p : Pause),
         (rEnd r = NoTime \/ (t <= rEnd r)%N) ->
         EndPause r t = Ok (r', p) ->
         Check r' = None.
Proof.
  intros r Hcheck.
  apply Check_ok_rules in Hcheck as (Hes & Hord & Hno & Hwithin).
  split.
  - apply Check_ok_rules. unfold PopPause, Check_rules.
    destruct (last (rPause r)) as [q|] eqn:Hq; cbn [fst].
    + apply last_Some in Hq as [ps Hps]. rewrite Hps, removelast_last.
      rewrite Hps in Hord, Hno, Hwithin.
      cbn [set_rPause rEnd rStart rPause].
      split; [exact Hes|]. split; [now apply adjacent_app_l in Hord|].
      split; [now apply adjacent_app_l in Hno|].
      now apply List.Forall_app in Hwithin as [Hw _].
    + now repeat split.
  - intros t r' p Hend Hclose. unfold EndPause in Hclose.
    destruct (last (rPause r)) as [q|] eqn:Hq; [|discriminate].
    destruct (negb (IsZero (pEnd q))); [discriminate|].
    injection Hclose as <- _.
    apply last_Some in Hq as [ps Hps]. rewrite Hps, removelast_last.
    rewrite Hps in Hord, Hno, Hwithin.
    apply adjacent_snoc in Hord as [Hord Hordq].
    apply adjacent_snoc in Hno as [Hno Hnoq].
    apply List.Forall_app in Hwithin as [Hw Hwq].
    apply List.Forall_inv in Hwq. destruct Hwq as [Hqs _].
    apply Check_ok_rules. unfold Check_rules.
    cbn [set_rPause rEnd rStart rPause].
    split; [exact Hes|]. split; [|split].
    + apply adjacent_snoc. split; [exact Hord|]. intros a Ha. now apply Hordq.
    + apply adjacent_snoc. split; [exact Hno|]. intros a Ha.
      unfold no_overlap, set_pEnd. cbn. now apply Hnoq.
    + apply List.Forall_app. split; [exact Hw|].
      constructor; [|constructor]. split; cbn; [exact Hqs|].
      intros Hnz _. destruct Hend as [Hz|Hle]; [contradiction | exact Hle].
Qed.

Lemma PopPause_EndPause_keep_Check_witness :
  Check (PopPause morning_record).1 = None
  /\ forall (t : time) (r' : RecordT) (p : Pause),
       (rEnd morning_record = NoTime \/ (t <= rEnd morning_record)%N) ->
       EndPause morning_record t = Ok (r', p) ->
       Check r' = None.
Proof.
  apply (PopPause_EndPause_keep_Check morning_record). reflexivity.
Defined.

(** X18. Pausing and resuming compose to the insertion of the closed pause:
    after [InsertPause] with a zero end, [EndPause t] succeeds and leaves the
    record [InsertPause] with end [t] gives; and [PopPause] after a
    successful [InsertPause] gives back the record as it was, together with
    the inserted pause. *)
Theorem InsertPause_then_EndPause_PopPause :
  forall (r r1 : RecordT) (s e : time) (note : string) (p : Pause),
    InsertPause r s e note = Ok (r1, p) ->
    PopPause r1 = (r, Some p)
    /\ (e = NoTime ->
        forall t,
          EndPause r1 t = Ok (set_rPause r (rPause r ++ [mkPause s t note]),
                              mkPause s t note)
          /\ InsertPause r s t note
             = Ok (set_rPause r (rPause r ++ [mkPause s t note]),
                   mkPause s t note)).
Proof.
  intros r r1 s e note p Hins.
  assert (Hshape : r1 = set_rPause r (rPause r ++ [mkPause s e note])
                   /\ p = mkPause s e note
                   /\ forall t, InsertPause r s t note
                        = Ok (set_rPause r (rPause r ++ [mkPause s t note]),
                              mkPause s t note)).
  { unfold InsertPause in *. destruct (last (rPause r)) as [q|].
    - destruct (Before s (pEnd q)); [discriminate|].
      injection Hins as <- <-. auto.
    - destruct (Before s (rStart r)); [discriminate|].
      injection Hins as <- <-. auto. }
  destruct Hshape as (-> & -> & Hany). split.
  - unfold PopPause. cbn [set_rPause rPause].
    rewrite last_snoc, removelast_last. f_equal.
    destruct r. reflexivity.
  - intros -> t. split; [|apply Hany].
    unfold EndPause. cbn [set_rPause rPause].
    rewrite last_snoc, removelast_last. cbn.
    destruct r. reflexivity.
Qed.

Lemma InsertPause_then_EndPause_PopPause_witness :
  PopPause (set_rPause tea_record
              (rPause tea_record ++ [mkPause (clock 11 0) NoTime "lunch"]))
  = (tea_record, Some (mkPause (clock 11 0) NoTime "lunch"))
  /\ (NoTime = NoTime ->
      forall t,
        EndPause (set_rPause tea_record
                    (rPause tea_record ++ [mkPause (clock 11 0) NoTime "lunch"])) t
        = Ok (set_rPause tea_record
                (rPause tea_record ++ [mkPause (clock 11 0) t "lunch"]),
              mkPause (clock 11 0) t "lunch")
        /\ InsertPause tea_record (clock 11 0) t "lunch"
           = Ok (set_rPause tea_record
                   (rPause tea_record ++ [mkPause (clock 11 0) t "lunch"]),
                 mkPause (clock 11 0) t "lunch")).
Proof.
  apply (InsertPause_then_EndPause_PopPause tea_record _ (clock 11 0) NoTime
           "lunch" (mkPause (clock 11 0) NoTime "lunch")).
  reflexivity.
Defined.

(** ** Saving records (record.go, [Track.SaveRecord] and [Track.StartRecord]) *)

(** [os.OpenFile(path, O_WRONLY|O_CREATE|O_TRUNC, 0600)]: an existing file
    is emptied and keeps its mode, a missing file is created (readable by the
    process) when the directory it lies in exists.  Write permission is not
    tracked: the files of the store are created by this call. *)
Definition os_OpenFile_trunc (fs : gmap (list string) node) (p : list string)
  : gmap (list string) node * option error :=
  match fs !! p with
  | Some Directory => (fs, Some (PathError "open" p EISDIR))
  | Some (File _ readable) => (<[p := File "" readable]> fs, None)
  | None =>
      match Dir p with
      | [] => (<[p := File "" true]> fs, None)
      | d =>
          match fs !! d with
          | Some Directory => (<[p := File "" true]> fs, None)
          | Some (File _ _) => (fs, Some (PathError "open" p ENOTDIR))
          | None => (fs, Some (PathError "open" p ENOENT))
          end
      end
  end.

(** Writing to the file opened at [p] appends to what it holds. *)
Definition os_Write (fs : gmap (list string) node) (p : list string)
    (data : string) : gmap (list string) node :=
  match fs !! p with
  | Some (File old readable) => <[p := File (old ++ data) readable]> fs
  | _ => fs
  end.

(** The levels of [os.MkdirAll], from the top: [done] is the part of the
    path that exists, [todo] the segments still to go. *)
Fixpoint mkdir_levels (fs : gmap (list string) node) (done todo : list string)
  : gmap (list string) node * option error :=
  match todo with
  | [] => (fs, None)
  | x :: rest =>
      match fs !! (done ++ [x]) with
      | Some Directory => mkdir_levels fs (done ++ [x]) rest
      | Some (File _ _) => (fs, Some (PathError "mkdir" (done ++ [x]) ENOTDIR))
      | None => mkdir_levels (<[done ++ [x] := Directory]> fs) (done ++ [x]) rest
      end
  end.

(** Modelled from the spec: [fs.CreateDir] of the repository's [fs] package
    "creates any missing directory levels" ([os.MkdirAll]); when a level is a
    file nothing is created. *)
Definition CreateDir (fs : gmap (list string) node) (dir : list string)
  : gmap (list string) node * option error :=
  match mkdir_levels fs [] dir with
  | (fs', None) => (fs', None)
  | (_, Some err) => (fs, Some err)
  end.

Definition CommentPrefix : string := "#".

Definition newline : string := String (ascii_of_nat 10) EmptyString.

Section SaveStore.

Variable RecordsDir : list string.
Variables dirYear dirMonth dirDay fileName : time -> string.

(** The encoder of a record ([SerializeRecord], in the serialization file of
    the package), and [Time.Format(util.DateTimeFormat)]. *)
Variable SerializeRecord : RecordT -> time -> string.
Variable FormatDateTime : time -> string.

Local Notation RecordPath := (RecordPath RecordsDir dirYear dirMonth dirDay fileName).
Local Notation RecordDir := (RecordDir RecordsDir dirYear dirMonth dirDay).
Local Notation monthDirOf := (monthDirOf RecordsDir dirYear dirMonth).
Local Notation yearDirOf := (yearDirOf RecordsDir dirYear).
Local Notation DeleteRecord := (DeleteRecord RecordsDir dirYear dirMonth dirDay fileName).

(** What [SaveRecord] writes to the file. *)
Definition file_content (record : RecordT) : string :=
  (CommentPrefix ++ " Record " ++ FormatDateTime (rStart record) ++ newline)
  ++ SerializeRecord record NoTime.

Definition SaveRecord (fs : gmap (list string) node) (record : RecordT)
    (force : bool) : gmap (list string) node * option error :=
  let path := RecordPath (rStart record) in
  if negb force && FileExists fs path then
    (fs, Some (Errorf "record already exists"))
  else
    let dir := RecordDir (rStart record) in
    match CreateDir fs dir with
    | (fs1, Some err) => (fs1, Some err)
    | (fs1, None) =>
        match os_OpenFile_trunc fs1 path with
        | (fs2, Some err) => (fs2, Some err)
        | (fs2, None) =>
            let bytes := SerializeRecord record NoTime in
            let fs3 :=
              os_Write fs2 path
                (CommentPrefix ++ " Record " ++ FormatDateTime (rStart record)
                 ++ newline) in
            (os_Write fs3 path bytes, None)
        end
    end.

Definition StartRecord (fs : gmap (list string) node) (project note : string)
    (tags : list string) (start : time)
  : RecordT * (gmap (list string) node * option error) :=
  let record := mkRecord project start NoTime note tags [] in
  (record, SaveRecord fs record false).

(** *** Creating the directory levels *)

Lemma mkdir_levels_lookup (fs fs' : gmap (list string) node)
    (done todo : list string) (err : option error) (q : list string) :
  mkdir_levels fs done todo = (fs', err) ->
  fs' !! q = fs !! q
  \/ (fs !! q = None /\ fs' !! q = Some Directory
      /\ exists k, q = done ++ take (S k) todo /\ k < length todo).
Proof.
  revert fs done. induction todo as [|x rest IH]; intros fs done Hrun.
  - injection Hrun as <- _. now left.
  - cbn [mkdir_levels] in Hrun.
    assert (Hshift : forall k, (done ++ [x]) ++ take (S k) rest
                               = done ++ take (S (S k)) (x :: rest)).
    { intros k. now rewrite <- app_assoc. }
    destruct (fs !! (done ++ [x])) as [[data rd|]|] eqn:Hx.
    + injection Hrun as <- _. now left.
    + destruct (IH _ _ Hrun) as [Hsame|(Hnone & Hdir & k & -> & Hk)];
        [now left|].
      right. split; [exact Hnone|]. split; [exact Hdir|].
      exists (S k). split; [apply Hshift | cbn; lia].
    + destruct (IH _ _ Hrun) as [Hsame|(Hnone & Hdir & k & -> & Hk)].
      * destruct (decide (q = done ++ [x])) as [->|Hq].
        -- right. split; [exact Hx|]. rewrite Hsame, lookup_insert_eq.
           split; [reflexivity|]. exists 0. split; [|cbn; lia].
           cbn. now rewrite take_0.
        -- left. now rewrite Hsame, lookup_insert_ne.
      * right.
        assert (Hne : done ++ [x] <> (done ++ [x]) ++ take (S k) rest).
        { intros Heq. apply (f_equal (@length string)) in Heq.
          rewrite !length_app, length_take in Heq. cbn [length] in Heq. lia. }
        rewrite lookup_insert_ne in Hnone by exact Hne.
        split; [exact Hnone|]. split; [exact Hdir|].
        exists (S k). split; [apply Hshift | cbn; lia].
Qed.

Lemma mkdir_levels_dirs (fs fs' : gmap (list string) node)
    (done todo : list string) :
  mkdir_levels fs done todo = (fs', None) ->
  forall k, k < length todo -> fs' !! (done ++ take (S k) todo) = Some Directory.
Proof.
  revert fs done. induction todo as [|x rest IH]; intros fs done Hrun k Hk;
    [cbn in Hk; lia|].
  cbn [mkdir_levels] in Hrun.
  assert (Hhere : forall fs0, fs0 !! (done ++ [x]) = Some Directory ->
            mkdir_levels fs0 (done ++ [x]) rest = (fs', None) ->
            fs' !! (done ++ take (S k) (x :: rest)) = Some Directory).
  { intros fs0 Hx Hrun0. destruct k as [|k].
    - cbn. rewrite take_0.
      destruct (mkdir_levels_lookup _ _ _ _ _ (done ++ [x]) Hrun0)
        as [Hsame|(Hnone & _)]; [now rewrite Hsame | congruence].
    - cbn. change (x :: take (S k) rest) with ([x] ++ take (S k) rest).
      rewrite app_assoc. apply (IH _ _ Hrun0). cbn in Hk. lia. }
  destruct (fs !! (done ++ [x])) as [[data rd|]|] eqn:Hx; [discriminate| |].
  - now apply (Hhere fs).
  - apply (Hhere (<[done ++ [x] := Directory]> fs)); [|exact Hrun].
    apply lookup_insert_eq.
Qed.


Lemma CreateDir_ok (fs fs1 : gmap (list string) node) (dir : list string) :
  CreateDir fs dir = (fs1, None) ->
  (forall q, fs1 !! q = fs !! q
             \/ (fs !! q = None /\ fs1 !! q = Some Directory
                 /\ exists k, q = take (S k) dir /\ k < length dir))
  /\ (forall k, k < length dir -> fs1 !! take (S k) dir = Some Directory).
Proof.
  unfold CreateDir.
  destruct (mkdir_levels fs [] dir) as [fs0 [err|]] eqn:Hrun; [discriminate|].
  intros Heq. injection Heq as ->. split.
  - intros q. apply (mkdir_levels_lookup _ _ _ _ _ q Hrun).
  - intros k Hk. apply (mkdir_levels_dirs _ _ _ _ Hrun k Hk).
Qed.

Lemma CreateDir_failed (fs fs1 : gmap (list string) node) (dir : list string)
    (err : error) :
  CreateDir fs dir = (fs1, Some err) -> fs1 = fs.
Proof.
  unfold CreateDir.
  destruct (mkdir_levels fs [] dir) as [fs0 [e|]]; [|discriminate].
  intros Heq. now injection Heq as <- _.
Qed.

Lemma RecordDir_levels (tm : time) (k : nat) :
  k < length (RecordDir tm) ->
  (k < length RecordsDir /\ take (S k) (RecordDir tm) = take (S k) RecordsDir)
  \/ take (S k) (RecordDir tm) = yearDirOf tm
  \/ take (S k) (RecordDir tm) = monthDirOf tm
  \/ take (S k) (RecordDir tm) = RecordDir tm.
Proof.
  unfold RecordDir, monthDirOf, yearDirOf.
  rewrite length_app. cbn [length]. intros Hk.
  destruct (decide (k < length RecordsDir)) as [Hlt|Hge].
  - left. split; [exact Hlt|]. apply take_app_le. lia.
  - right. rewrite take_app, take_ge by lia.
    assert (Hc : S k - length RecordsDir = 1 \/ S k - length RecordsDir = 2
                 \/ S k - length RecordsDir = 3) by lia.
    destruct Hc as [ -> | [ -> | -> ] ]; cbn [take].
    + now left.
    + right; left. now rewrite <- app_assoc.
    + right; right. reflexivity.
Qed.

Lemma RecordDir_level_dirs (fs1 : gmap (list string) node) (tm : time) :
  (forall k, k < length (RecordDir tm) ->
             fs1 !! take (S k) (RecordDir tm) = Some Directory) ->
  dirs_exist RecordsDir dirYear dirMonth dirDay fs1 tm.
Proof.
  intros Hd. unfold dirs_exist.
  assert (Hlen : length (RecordDir tm) = length RecordsDir + 3).
  { unfold RecordDir. now rewrite length_app. }
  refine (conj _ (conj _ _)).
  - rewrite <- (Hd (length RecordsDir + 2)) by lia. f_equal.
    symmetry. apply take_ge. lia.
  - rewrite <- (Hd (length RecordsDir + 1)) by lia. f_equal.
    unfold RecordDir, monthDirOf, yearDirOf.
    rewrite take_app, take_ge by lia.
    replace (S (length RecordsDir + 1) - length RecordsDir) with 2 by lia.
    cbn [take]. now rewrite <- app_assoc.
  - rewrite <- (Hd (length RecordsDir)) by lia. f_equal.
    unfold RecordDir, yearDirOf.
    rewrite take_app, take_ge by lia.
    replace (S (length RecordsDir) - length RecordsDir) with 1 by lia.
    reflexivity.
Qed.

Lemma store_path_lengths (tm : time) :
  length (RecordPath tm) = length RecordsDir + 4
  /\ length (RecordDir tm) = length RecordsDir + 3
  /\ length (monthDirOf tm) = length RecordsDir + 2
  /\ length (yearDirOf tm) = length RecordsDir + 1.
Proof.
  unfold RecordPath, RecordDir, monthDirOf, yearDirOf.
  rewrite !length_app. cbn [length]. lia.
Qed.

(** A record file is none of the directory levels. *)
Lemma RecordPath_no_level (tm tm' : time) (k : nat) :
  RecordPath tm' <> take (S k) (RecordDir tm).
Proof.
  intros Heq. apply (f_equal (@length string)) in Heq.
  rewrite length_take in Heq.
  destruct (store_path_lengths tm) as (_ & HD & _).
  destruct (store_path_lengths tm') as (HP & _). lia.
Qed.

Lemma os_Write_insert (fs : gmap (list string) node) (p : list string)
    (old data : string) (readable : bool) :
  os_Write (<[p := File old readable]> fs) p data
  = <[p := File (old ++ data)%string readable]> fs.
Proof. unfold os_Write. now rewrite lookup_insert_eq, insert_insert_eq. Qed.

(** The ways [SaveRecord] ends: with an error and no file written (levels of
    the directory may have been created), or with the file written over the
    store that has the directory levels. *)
Lemma SaveRecord_shape (fs fs' : gmap (list string) node) (record : RecordT)
    (force : bool) (e : option error) :
  SaveRecord fs record force = (fs', e) ->
  exists fs1,
    (forall q, fs1 !! q = fs !! q
               \/ (fs !! q = None /\ fs1 !! q = Some Directory
                   /\ exists k, q = take (S k) (RecordDir (rStart record))
                                /\ k < length (RecordDir (rStart record))))
    /\ ((fs' = fs1 /\ e <> None)
        \/ (e = None
            /\ (forall k, k < length (RecordDir (rStart record)) ->
                  fs1 !! take (S k) (RecordDir (rStart record)) = Some Directory)
            /\ exists readable,
                 fs' = <[RecordPath (rStart record)
                         := File (file_content record) readable]> fs1
                 /\ (fs !! RecordPath (rStart record) = None /\ readable = true
                     \/ force = true
                        /\ exists old, fs !! RecordPath (rStart record)
                                       = Some (File old readable)))).
Proof.
  unfold SaveRecord. set (tm := rStart record).
  destruct (negb force && FileExists fs (RecordPath tm)) eqn:Hguard.
  { intros Heq. injection Heq as <- <-. exists fs.
    split; [now left | left; split; [reflexivity | discriminate]]. }
  destruct (CreateDir fs (RecordDir tm)) as [fs1 [err|]] eqn:Hdir.
  { intros Heq. injection Heq as <- <-. exists fs1.
    apply CreateDir_failed in Hdir. subst fs1.
    split; [now left | left; split; [reflexivity | discriminate]]. }
  destruct (CreateDir_ok _ _ _ Hdir) as [Hl Hd].
  assert (Hsame : fs1 !! RecordPath tm = fs !! RecordPath tm).
  { destruct (Hl (RecordPath tm)) as [H|(_ & _ & k & Hk & _)]; [exact H|].
    now apply RecordPath_no_level in Hk. }
  assert (Hforce : fs !! RecordPath tm <> None -> force = true).
  { intros Hp. unfold FileExists in Hguard.
    destruct (fs !! RecordPath tm); [|congruence].
    now destruct force. }
  destruct (RecordDir_level_dirs fs1 tm Hd) as (Hday & _).
  unfold os_OpenFile_trunc. rewrite Hsame.
  destruct (store_paths_distinct RecordsDir dirYear dirMonth dirDay fileName tm)
    as (HdirP & _).
  destruct (fs !! RecordPath tm) as [[old rd|]|] eqn:Hp.
  - rewrite !os_Write_insert. intros Heq. injection Heq as <- <-.
    exists fs1. split; [exact Hl|]. right. split; [reflexivity|].
    split; [exact Hd|]. exists rd. split; [reflexivity|].
    right. split; [now apply Hforce | now exists old].
  - intros Heq. injection Heq as <- <-. exists fs1.
    split; [exact Hl | left; split; [reflexivity | discriminate]].
  - assert (Hopen : os_OpenFile_trunc fs1 (RecordPath tm)
                    = (<[RecordPath tm := File "" true]> fs1, None)).
    { unfold os_OpenFile_trunc. rewrite Hsame, HdirP.
      destruct (RecordDir tm) as [|s l]; [reflexivity | now rewrite Hday]. }
    unfold os_OpenFile_trunc in Hopen. rewrite Hsame in Hopen.
    rewrite Hopen, !os_Write_insert. intros Heq. injection Heq as <- <-.
    exists fs1. split; [exact Hl|]. right. split; [reflexivity|].
    split; [exact Hd|]. exists true. split; [reflexivity|]. now left.
Qed.

Ltac by_length :=
  let H := fresh in
  intros H; apply (f_equal (@length string)) in H;
  rewrite ?length_app in H; cbn [length] in H; lia.

(** X19. [SaveRecord] touches nothing but the record's own path and the
    directory levels above it: every other entry of the store is kept as it
    is, whatever the outcome; what is new afterwards is the record file or a
    directory on the way to it; without [force] a path that is taken gives
    the error "record already exists" and the same store; and when no error
    is returned the file holds the comment line followed by the encoded
    record. *)
Theorem SaveRecord_keeps_other_entries :
  forall (fs : gmap (list string) node) (record : RecordT) (force : bool),
    (forall q n, q <> RecordPath (rStart record) -> fs !! q = Some n ->
                 (SaveRecord fs record force).1 !! q = Some n)
    /\ (forall q, fs !! q = None ->
                  (SaveRecord fs record force).1 !! q <> None ->
                  q = RecordPath (rStart record)
                  \/ ((SaveRecord fs record force).1 !! q = Some Directory
                      /\ q `prefix_of` RecordDir (rStart record)))
    /\ (force = false -> fs !! RecordPath (rStart record) <> None ->
        SaveRecord fs record force
        = (fs, Some (Errorf "record already exists")))
    /\ ((SaveRecord fs record force).2 = None ->
        exists readable,
          (SaveRecord fs record force).1 !! RecordPath (rStart record)
          = Some (File (file_content record) readable)).
Proof.
  intros fs record force.
  assert (Hguard : force = false -> fs !! RecordPath (rStart record) <> None ->
            SaveRecord fs record force
            = (fs, Some (Errorf "record already exists"))).
  { intros -> Hp. unfold SaveRecord, FileExists.
    now destruct (fs !! RecordPath (rStart record)). }
  destruct (SaveRecord fs record force) as [fs' e] eqn:Hrun.
  destruct (SaveRecord_shape _ _ _ _ _ Hrun)
    as (fs1 & Hl & [[-> Hne]|(-> & Hd & rd & -> & _)]); cbn [fst snd].
  - refine (conj _ (conj _ (conj Hguard _))).
    + intros q n _ Hq. destruct (Hl q) as [H|(Hnone & _)]; congruence.
    + intros q Hq Hnew. destruct (Hl q) as [H|(_ & Hdir & k & -> & Hk)];
        [congruence|].
      right. split; [exact Hdir | apply prefix_take].
    + intros He. congruence.
  - refine (conj _ (conj _ (conj Hguard _))).
    + intros q n Hqp Hq. rewrite lookup_insert_ne by congruence.
      destruct (Hl q) as [H|(Hnone & _)]; congruence.
    + intros q Hq Hnew.
      destruct (decide (q = RecordPath (rStart record))) as [->|Hqp];
        [now left|].
      rewrite lookup_insert_ne in Hnew |- * by congruence.
      destruct (Hl q) as [H|(_ & Hdir & k & -> & Hk)]; [congruence|].
      right. split; [exact Hdir | apply prefix_take].
    + intros _. exists rd. apply lookup_insert_eq.
Qed.

(** The decoder of a record file. *)
Variable DeserializeRecord : string -> time -> result RecordT.

Local Notation LoadRecord :=
  (LoadRecord RecordsDir dirYear dirMonth dirDay fileName DeserializeRecord).

Lemma LoadRecord_same_file (fs fs' : gmap (list string) node) (tm : time) :
  fs' !! RecordPath tm = fs !! RecordPath tm ->
  LoadRecord fs' tm = LoadRecord fs tm.
Proof. intros H. unfold LoadRecord, os_ReadFile. now rewrite H. Qed.

(** X20. What [SaveRecord] has written, [LoadRecord] reads: after a save
    without error (over no file, or over a file the process can read) a load
    at the record's start time decodes exactly the bytes that were written,
    so it returns the saved record whenever the decoder inverts the encoder
    on it; and the load of every other record path answers as before the
    save. *)
Theorem SaveRecord_then_LoadRecord :
  forall (fs fs' : gmap (list string) node) (record : RecordT) (force : bool),
    SaveRecord fs record force = (fs', None) ->
    (forall old, fs !! RecordPath (rStart record) <> Some (File old false)) ->
    LoadRecord fs' (rStart record)
    = DeserializeRecord (file_content record) (rStart record)
    /\ (DeserializeRecord (file_content record) (rStart record) = Ok record ->
        LoadRecord fs' (rStart record) = Ok record)
    /\ (forall tm, RecordPath tm <> RecordPath (rStart record) ->
                   LoadRecord fs' tm = LoadRecord fs tm).
Proof.
  intros fs fs' record force Hrun Hread.
  destruct (SaveRecord_shape _ _ _ _ _ Hrun)
    as (fs1 & Hl & [[_ Hne]|(_ & Hd & rd & -> & Hrd)]); [congruence|].
  assert (Hrdt : rd = true).
  { destruct Hrd as [[_ ->]|(_ & old & Hold)]; [reflexivity|].
    destruct rd; [reflexivity|]. now apply Hread in Hold. }
  subst rd.
  assert (Hload : LoadRecord
                    (<[RecordPath (rStart record)
                       := File (file_content record) true]> fs1)
                    (rStart record)
                  = DeserializeRecord (file_content record) (rStart record)).
  { apply LoadRecord_readable, lookup_insert_eq. }
  refine (conj Hload (conj _ _)).
  - intros Hinv. now rewrite Hload.
  - intros tm Hne. apply LoadRecord_same_file.
    rewrite lookup_insert_ne by congruence.
    destruct (Hl (RecordPath tm)) as [H|(_ & _ & k & Hk & _)]; [exact H|].
    now apply RecordPath_no_level in Hk.
Qed.

(** *** Saving and deleting *)

(** Every entry below the top level lies in a directory of the store. *)
Definition parent_closed (fs : gmap (list string) node) : bool :=
  forallb (fun kv =>
             match Dir kv.1 with
             | [] => true
             | d => match fs !! d with Some Directory => true | _ => false end
             end)
          (map_to_list fs).

(** A directory of the store that is there holds an entry: [DeleteRecord]
    leaves no empty directory behind. *)
Definition occupied (fs : gmap (list string) node) (d : list string) : Prop :=
  fs !! d = Some Directory -> no_entries fs d = false.

Lemma parent_closed_spec (fs : gmap (list string) node) (d : list string)
    (x : string) (n : node) :
  parent_closed fs = true -> d <> [] -> fs !! (d ++ [x]) = Some n ->
  fs !! d = Some Directory.
Proof.
  unfold parent_closed. rewrite forallb_forall. intros Hall Hd Hk.
  apply elem_of_map_to_list, list_elem_of_In, Hall in Hk.
  cbn [fst] in Hk. rewrite Dir_snoc in Hk.
  destruct d as [|s d]; [congruence|].
  destruct (fs !! (s :: d)) as [[data rd|]|]; congruence.
Qed.

Lemma absent_dir_no_entries (fs : gmap (list string) node) (d : list string) :
  parent_closed fs = true -> d <> [] -> fs !! d = None ->
  no_entries fs d = true.
Proof.
  intros Hpc Hd Hnone. apply no_entries_spec.
  intros k [x ->]%is_child_spec.
  destruct (fs !! (d ++ [x])) as [n|] eqn:E; [|reflexivity].
  pose proof (parent_closed_spec _ _ _ _ Hpc Hd E). congruence.
Qed.

Lemma only_entry_absent (fs : gmap (list string) node) (d k : list string) :
  only_entry fs d k -> fs !! k = None -> no_entries fs d = true.
Proof.
  intros H Hk. apply no_entries_spec. intros k' Hc.
  destruct (decide (k' = k)) as [->|Hne]; [exact Hk | now apply H].
Qed.

Lemma no_entries_only_entry (fs : gmap (list string) node) (d k : list string) :
  no_entries fs d = true -> only_entry fs d k.
Proof. intros H k' Hc _. exact (proj1 (no_entries_spec fs d) H k' Hc). Qed.

(** X21. [DeleteRecord] undoes [SaveRecord]: on a store that has the records
    directory, in which every entry lies in a directory and no directory on
    the way to the record is empty, saving a record at a free path and then
    deleting it gives back the store as it was, the directories created for
    the record included. *)
Theorem SaveRecord_then_DeleteRecord :
  forall (fs fs' : gmap (list string) node) (record : RecordT) (force : bool),
    (forall k, k < length RecordsDir ->
               fs !! take (S k) RecordsDir = Some Directory) ->
    parent_closed fs = true ->
    occupied fs (RecordDir (rStart record)) ->
    occupied fs (monthDirOf (rStart record)) ->
    occupied fs (yearDirOf (rStart record)) ->
    fs !! RecordPath (rStart record) = None ->
    SaveRecord fs record force = (fs', None) ->
    DeleteRecord fs' record = (fs, None).
Proof.
  intros fs fs0 record force Hroot Hpc HoD HoM HoY Habs Hrun.
  destruct (SaveRecord_shape _ _ _ _ _ Hrun)
    as (fs1 & Hl & [[_ Hne]|(_ & Hd & rd & -> & _)]); [congruence|].
  set (tm := rStart record) in *.
  destruct (RecordDir_level_dirs fs1 tm Hd) as (HD1 & HM1 & HY1).
  destruct (store_paths_distinct RecordsDir dirYear dirMonth dirDay fileName tm)
    as (HdirP & HdirD & HdirM & Hpd & Hpm & Hpy & Hdm & Hdy & Hmy).
  destruct (store_path_lengths tm) as (LP & LD & LM & LY).
  pose proof (RecordDir_chain RecordsDir dirYear dirMonth dirDay tm) as HchainD.
  assert (HchainM : monthDirOf tm = yearDirOf tm ++ [dirMonth tm]) by reflexivity.
  assert (HDne : RecordDir tm <> []) by by_length.
  assert (HMne : monthDirOf tm <> []) by by_length.
  assert (HYne : yearDirOf tm <> []) by by_length.
  assert (Hother : forall q,
             q <> RecordDir tm -> q <> monthDirOf tm -> q <> yearDirOf tm ->
             fs1 !! q = fs !! q).
  { intros q H1 H2 H3.
    destruct (Hl q) as [H|(Hnone & _ & k & -> & Hk)]; [exact H|].
    destruct (RecordDir_levels tm k Hk) as [[Hlt Heq]|[Heq|[Heq|Heq]]];
      try congruence.
    rewrite Heq, (Hroot k Hlt) in Hnone. discriminate. }
  assert (Hlevel : forall q,
             fs1 !! q = Some Directory ->
             fs !! q = None \/ fs !! q = Some Directory).
  { intros q Hq. destruct (Hl q) as [H|(Hnone & _)];
      [right; congruence | now left]. }
  set (fs' := <[RecordPath tm := File (file_content record) rd]> fs1).
  assert (Hfile : fs' !! RecordPath tm = Some (File (file_content record) rd))
    by apply lookup_insert_eq.
  assert (Hdirs : dirs_exist RecordsDir dirYear dirMonth dirDay fs' tm).
  { unfold dirs_exist, fs'. now rewrite !lookup_insert_ne by congruence. }
  rewrite (DeleteRecord_present _ _ _ _ _ fs' record _ _ Hfile Hdirs). f_equal.
  change (rStart record) with tm.
  destruct (cascade_lookup _ _ _ _ _ fs' tm _ _ Hfile Hdirs)
    as (CP & CD & CM & CY & Cframe).
  destruct Hdirs as (HD' & HM' & HY').
  assert (Hsame : forall q,
             q <> RecordPath tm -> q <> RecordDir tm -> q <> monthDirOf tm ->
             q <> yearDirOf tm -> fs' !! q = fs !! q).
  { intros q ? ? ? ?. unfold fs'. rewrite lookup_insert_ne by congruence.
    now apply Hother. }
  assert (OD : only_entry fs' (RecordDir tm) (RecordPath tm)
               <-> no_entries fs (RecordDir tm) = true).
  { rewrite no_entries_spec. split.
    - intros H k Hc.
      destruct (decide (k = RecordPath tm)) as [->|Hkp]; [exact Habs|].
      rewrite <- Hsame; [now apply H | exact Hkp | ..];
        apply is_child_spec in Hc as [x ->]; by_length.
    - intros H k Hc Hkp.
      rewrite Hsame; [now apply H | exact Hkp | ..];
        apply is_child_spec in Hc as [x ->]; by_length. }
  assert (OM : only_entry fs' (monthDirOf tm) (RecordDir tm)
               <-> only_entry fs (monthDirOf tm) (RecordDir tm)).
  { split; intros H k Hc Hkd;
      [rewrite <- Hsame | rewrite Hsame]; try (now apply H); try exact Hkd;
      apply is_child_spec in Hc as [x ->]; by_length. }
  assert (OY : only_entry fs' (yearDirOf tm) (monthDirOf tm)
               <-> only_entry fs (yearDirOf tm) (monthDirOf tm)).
  { split; intros H k Hc Hkm;
      [rewrite <- Hsame | rewrite Hsame]; try (now apply H); try exact Hkm;
      apply is_child_spec in Hc as [x ->]; by_length. }
  assert (HDM : fs !! monthDirOf tm = None -> fs !! RecordDir tm = None).
  { intros HN. destruct (fs !! RecordDir tm) as [n|] eqn:E; [|reflexivity].
    rewrite HchainD in E.
    pose proof (parent_closed_spec _ _ _ _ Hpc HMne E). congruence. }
  assert (HMY : fs !! yearDirOf tm = None -> fs !! monthDirOf tm = None).
  { intros HN. destruct (fs !! monthDirOf tm) as [n|] eqn:E; [|reflexivity].
    rewrite HchainM in E.
    pose proof (parent_closed_spec _ _ _ _ Hpc HYne E). congruence. }
  apply map_eq. intros q.
  destruct (decide (q = RecordPath tm)) as [->|nP]; [now rewrite CP, Habs|].
  destruct (decide (q = RecordDir tm)) as [->|nD].
  { destruct (Hlevel _ HD1) as [HN|HS].
    - rewrite HN. apply CD, OD. now apply absent_dir_no_entries.
    - rewrite HS. destruct (Cframe (RecordDir tm)) as [H|[H _]];
        [now rewrite H|].
      exfalso. apply CD, OD in H. rewrite (HoD HS) in H. discriminate. }
  destruct (decide (q = monthDirOf tm)) as [->|nM].
  { destruct (Hlevel _ HM1) as [HN|HS].
    - rewrite HN. apply CM. split.
      + apply OD. apply absent_dir_no_entries; auto.
      + apply OM, no_entries_only_entry. now apply absent_dir_no_entries.
    - rewrite HS. destruct (Cframe (monthDirOf tm)) as [H|[H _]];
        [now rewrite H|].
      exfalso. apply CM in H as [H1 H2]. apply OD in H1. apply OM in H2.
      destruct (Hlevel _ HD1) as [HDn|HDs].
      + pose proof (only_entry_absent _ _ _ H2 HDn) as E.
        rewrite (HoM HS) in E. discriminate.
      + rewrite (HoD HDs) in H1. discriminate. }
  destruct (decide (q = yearDirOf tm)) as [->|nY].
  { destruct (Hlevel _ HY1) as [HN|HS].
    - rewrite HN. apply CY. refine (conj _ (conj _ _)).
      + apply OD. apply absent_dir_no_entries; auto.
      + apply OM, no_entries_only_entry. apply absent_dir_no_entries; auto.
      + apply OY, no_entries_only_entry. now apply absent_dir_no_entries.
    - rewrite HS. destruct (Cframe (yearDirOf tm)) as [H|[H _]];
        [now rewrite H|].
      exfalso. apply CY in H as (H1 & H2 & H3).
      apply OD in H1. apply OM in H2. apply OY in H3.
      destruct (Hlevel _ HM1) as [HMn|HMs].
      + pose proof (only_entry_absent _ _ _ H3 HMn) as E.
        rewrite (HoY HS) in E. discriminate.
      + destruct (Hlevel _ HD1) as [HDn|HDs].
        * pose proof (only_entry_absent _ _ _ H2 HDn) as E.
          rewrite (HoM HMs) in E. discriminate.
        * rewrite (HoD HDs) in H1. discriminate. }
  destruct (Cframe q) as [H|[_ H]]; [rewrite H; now apply Hsame|].
  exfalso. tauto.
Qed.

End SaveStore.

(** *** Saving into the concrete store *)

(** The codec of the examples: a record file holds the project name after
    the comment line. *)
Fixpoint skip_line (s : string) : string :=
  match s with
  | EmptyString => EmptyString
  | String c rest =>
      if Ascii.eqb c (ascii_of_nat 10) then rest else skip_line rest
  end.

Definition ex_encode (record : RecordT) (_ : time) : string := rProject record.

Definition ex_format (t : time) : string :=
  ex_year t ++ "-" ++ ex_month t ++ "-" ++ ex_day t.

Definition ex_decode_file (data : string) (tm : time) : result RecordT :=
  ex_decode (skip_line data) tm.

Definition ex_SaveRecord :=
  SaveRecord ex_root ex_year ex_month ex_day ex_file ex_encode ex_format.

Definition ex_LoadSaved :=
  LoadRecord ex_root ex_year ex_month ex_day ex_file ex_decode_file.

(** A record on the sixteenth day of the second month. *)
Definition later_record : RecordT :=
  mkRecord "home" (clock (24 * 45 + 9) 30) NoTime "" [] [].

(** A save ends without error exactly when its outcome is the store it
    left and no error. *)
Lemma run_ok {A : Type} (out : A * option error) :
  out.2 = None -> out = (out.1, None).
Proof. destruct out as [a e]. cbn. now intros ->. Qed.

(** Saving the later record creates the month and the day directory and
    writes the file. *)
Example SaveRecord_new_month :
  (ex_SaveRecord ex_store_sibling later_record false).2 = None
  /\ (ex_SaveRecord ex_store_sibling later_record false).1
       !! ["records"; "2051"; "02"; "16"; "09-30.yml"]
     = Some (File ("# Record 2051-02-16" ++ newline ++ "home") true)
  /\ (ex_SaveRecord ex_store_sibling later_record false).1
       !! ["records"; "2051"; "02"; "16"] = Some Directory
  /\ (ex_SaveRecord ex_store_sibling later_record false).1
       !! ["records"; "2051"; "02"] = Some Directory.
Proof. vm_compute. repeat split. Qed.

(** Without [force] the record of 09:00 is not written over. *)
Example SaveRecord_taken :
  (ex_SaveRecord ex_store_sibling ex_record false).2
  = Some (Errorf "record already exists")
  /\ (ex_SaveRecord ex_store_sibling ex_record false).1
       !! ["records"; "2051"; "01"; "01"; "09-00.yml"]
     = Some (File "work" true).
Proof. vm_compute. repeat split. Qed.

Lemma SaveRecord_then_LoadRecord_witness :
  ex_LoadSaved (ex_SaveRecord ex_store_sibling later_record false).1
    (rStart later_record)
  = Ok later_record.
Proof.
  apply (SaveRecord_then_LoadRecord ex_root ex_year ex_month ex_day ex_file
           ex_encode ex_format ex_decode_file
           ex_store_sibling
           (ex_SaveRecord ex_store_sibling later_record false).1
           later_record false).
  - apply (run_ok (ex_SaveRecord ex_store_sibling later_record false)).
    vm_compute. reflexivity.
  - intros old H. vm_compute in H. discriminate.
  - vm_compute. reflexivity.
Defined.

Lemma SaveRecord_then_DeleteRecord_witness :
  ex_DeleteRecord (ex_SaveRecord ex_store_sibling later_record false).1
    later_record
  = (ex_store_sibling, None).
Proof.
  apply (SaveRecord_then_DeleteRecord ex_root ex_year ex_month ex_day ex_file
           ex_encode ex_format
           ex_store_sibling
           (ex_SaveRecord ex_store_sibling later_record false).1
           later_record false).
  - intros k Hk. destruct k as [|k]; [vm_compute; reflexivity|].
    cbn in Hk. lia.
  - vm_compute. reflexivity.
  - intros H. vm_compute in H. discriminate.
  - intros H. vm_compute in H. discriminate.
  - intros _. vm_compute. reflexivity.
  - vm_compute. reflexivity.
  - apply (run_ok (ex_SaveRecord ex_store_sibling later_record false)).
    vm_compute. reflexivity.
Defined.

(** ** Active time of a record ([Record.Duration], [Record.TotalDuration]) *)

(** The end a span counts with at the instant [now]. *)
Definition span_end (now e : time) : time := if IsZero e then now else e.

(** The length of the span from [a] to [b] inside the window: what
    [DurationClip_at] computes once the open end is settled. *)
Definition clip (min max a b : time) : Z :=
  let a' := if negb (IsZero min) && Before a min then min else a in
  let b' := if negb (IsZero max) && After b max then max else b in
  if Before b' a' then 0%Z else (Z.of_N b' - Z.of_N a')%Z.

Lemma DurationClip_at_clip (now s e min max : time) :
  DurationClip_at now s e min max = clip min max s (span_end now e).
Proof. reflexivity. Qed.

Ltac clip_cases :=
  unfold clip, IsZero, Before, After; cbv zeta;
  repeat (match goal with
          | |- context [N.eqb ?a ?b] => destruct (N.eqb_spec a b)
          | |- context [N.ltb ?a ?b] =>
              is_var a; is_var b; destruct (N.ltb_spec a b)
          end; cbn [negb andb]);
  try lia.

Lemma clip_bounds (min max a b : time) :
  (a <= b)%N -> (0 <= clip min max a b <= Z.of_N b - Z.of_N a)%Z.
Proof. intros Hab. clip_cases. Qed.

Lemma clip_split (min max a b c : time) :
  (a <= b)%N -> (b <= c)%N ->
  (clip min max a b + clip min max b c <= clip min max a c)%Z.
Proof. intros Hab Hbc. clip_cases. Qed.

Lemma clip_from_later (min max a a' c : time) :
  (a <= a')%N -> (a' <= c)%N -> (clip min max a' c <= clip min max a c)%Z.
Proof. intros Ha Hc. clip_cases. Qed.

(** Spans that follow one another between [lb] and [E]. *)
Fixpoint chain (lb E : time) (spans : list (time * time)) : Prop :=
  match spans with
  | [] => (lb <= E)%N
  | (s, e) :: rest => (lb <= s)%N /\ (s <= e)%N /\ chain e E rest
  end.

Lemma chain_le (lb E : time) (spans : list (time * time)) :
  chain lb E spans -> (lb <= E)%N.
Proof.
  revert lb. induction spans as [|[s e] rest IH]; intros lb; cbn [chain].
  - trivial.
  - intros (H1 & H2 & H3). apply IH in H3. lia.
Qed.

Lemma clip_chain (min max lb E : time) (spans : list (time * time)) :
  chain lb E spans ->
  (0 <= sum_durations (map (fun se => clip min max se.1 se.2) spans)
   <= clip min max lb E)%Z.
Proof.
  revert lb. induction spans as [|[s e] rest IH]; intros lb; cbn [chain].
  - intros Hle. cbn. pose proof (clip_bounds min max lb E Hle). lia.
  - intros (H1 & H2 & H3). pose proof (chain_le _ _ _ H3) as HeE.
    specialize (IH e H3). cbn [map sum_durations fold_right fst snd].
    fold (sum_durations (map (fun se => clip min max se.1 se.2) rest)).
    pose proof (clip_bounds min max s e H2).
    pose proof (clip_split min max s e E H2 HeE).
    pose proof (clip_from_later min max lb s E H1 ltac:(lia)).
    lia.
Qed.

(** The span a pause counts with at the instant [now]. *)
Definition pause_span (now : time) (p : Pause) : time * time :=
  (pStart p, span_end now (pEnd p)).

Lemma pauses_chain (now : time) (r : RecordT) (ps : list Pause) (lb : time) :
  adjacent no_overlap ps ->
  adjacent (fun p _ => pEnd p <> NoTime) ps ->
  Forall pause_forward ps ->
  Forall (pause_within r) ps ->
  (forall p, last ps = Some p -> pEnd p = NoTime -> rEnd r = NoTime) ->
  (rEnd r = NoTime ->
   Forall (fun p => (pStart p <= now)%N /\ (pEnd p <= now)%N) ps) ->
  match ps with
  | [] => (lb <= span_end now (rEnd r))%N
  | p :: _ => (lb <= pStart p)%N
  end ->
  chain lb (span_end now (rEnd r)) (map (pause_span now) ps).
Proof.
  revert lb. induction ps as [|p rest IH];
    intros lb Hno Hclosed Hfw Hin Hlast Hnow Hlb; [exact Hlb|].
  cbn [map chain pause_span].
  apply Forall_cons in Hfw as [Hp Hfw]. apply Forall_cons in Hin as [Hw Hin].
  destruct Hno as [Hno1 Hno]. destruct Hclosed as [Hcl1 Hclosed].
  assert (Hnow' : rEnd r = NoTime ->
                  ((pStart p <= now)%N /\ (pEnd p <= now)%N)
                  /\ Forall (fun p => (pStart p <= now)%N /\ (pEnd p <= now)%N)
                       rest).
  { intros Hopen. specialize (Hnow Hopen). now apply Forall_cons in Hnow. }
  assert (Hopen_last : pEnd p = NoTime -> rest = [] /\ rEnd r = NoTime).
  { intros Hz. destruct rest as [|q rest]; [|contradiction].
    split; [reflexivity|]. now apply (Hlast p). }
  assert (Hse : (pStart p <= span_end now (pEnd p))%N).
  { unfold span_end. destruct (IsZero (pEnd p)) eqn:Hz.
    - apply IsZero_true in Hz. destruct (Hopen_last Hz) as [_ Hopen].
      now apply Hnow'.
    - apply IsZero_false in Hz. destruct Hp as [Hp|Hp]; [contradiction|exact Hp]. }
  split; [exact Hlb|]. split; [exact Hse|].
  apply IH; try assumption.
  - intros q Hq. apply Hlast. destruct rest; [discriminate | exact Hq].
  - intros Hopen. now apply Hnow'.
  - destruct rest as [|q rest].
    + unfold span_end. destruct (IsZero (pEnd p)) eqn:Hz.
      * apply IsZero_true in Hz. destruct (Hopen_last Hz) as [_ Hopen].
        rewrite Hopen. cbn. reflexivity.
      * apply IsZero_false in Hz. destruct (IsZero (rEnd r)) eqn:Hr.
        -- apply IsZero_true in Hr. now apply Hnow'.
        -- apply IsZero_false in Hr. now apply Hw.
    + unfold span_end. destruct (IsZero (pEnd p)) eqn:Hz.
      * apply IsZero_true in Hz. contradiction.
      * exact Hno1.
Qed.

(** X28. The active time of a record is never negative and never more than
    its total time, at any instant [now] and through any window, for a
    record that [Check] accepts, in which no closed pause ends before it
    starts, only the last pause may be open, and only while the record is
    open, and, for an open record, nothing lies after [now] (spans of less
    than 2^63 nanoseconds). *)
Theorem Duration_between_zero_and_total :
  forall (now : time) (r : RecordT) (min max : time),
    Check r = None ->
    Forall pause_forward (rPause r) ->
    adjacent (fun p _ => pEnd p <> NoTime) (rPause r) ->
    (IsPaused r = true -> HasEnded r = false) ->
    (HasEnded r = false ->
     (rStart r <= now)%N
     /\ Forall (fun p => (pStart p <= now)%N /\ (pEnd p <= now)%N) (rPause r)) ->
    (Z.of_N (span_end now (rEnd r)) - Z.of_N (rStart r) < 2 ^ 63)%Z ->
    (0 <= Duration (DurationClip_at now) r min max
     <= TotalDuration (DurationClip_at now) r min max)%Z.
Proof.
  intros now r min max Hcheck Hfw Hclosed Hpaused Hopen Hfit.
  apply Check_ok_rules in Hcheck as (Hes & _ & Hno & Hwithin).
  assert (Hend : HasEnded r = false <-> rEnd r = NoTime).
  { unfold HasEnded. rewrite negb_false_iff. apply IsZero_true. }
  assert (Hchain : chain (rStart r) (span_end now (rEnd r))
                     (map (pause_span now) (rPause r))).
  { apply (pauses_chain now r); try assumption.
    - intros p Hp Hz. apply Hend, Hpaused. unfold IsPaused. rewrite Hp.
      now apply IsZero_true.
    - intros Hz. now apply Hopen, Hend.
    - destruct (rPause r) as [|p ps] eqn:Hps.
      + unfold span_end. destruct (IsZero (rEnd r)) eqn:Hz.
        * apply IsZero_true in Hz. now apply Hopen, Hend.
        * apply IsZero_false in Hz. destruct Hes as [Hes|Hes];
            [contradiction | exact Hes].
      + apply Forall_cons in Hwithin as [[Hw _] _]. exact Hw. }
  pose proof (chain_le _ _ _ Hchain) as Hle.
  pose proof (clip_chain min max _ _ _ Hchain) as Hsum.
  rewrite map_map in Hsum.
  pose proof (clip_bounds min max _ _ Hle) as Htot.
  rewrite Duration_active.
  change (TotalDuration (DurationClip_at now) r min max)
    with (clip min max (rStart r) (span_end now (rEnd r))).
  change (map (fun p => Pause_Duration (DurationClip_at now) p min max) (rPause r))
    with (map (fun p => clip min max (pause_span now p).1 (pause_span now p).2)
            (rPause r)).
  rewrite wrap64_id; [lia|]. unfold in_int64. int64_bounds. lia.
Qed.

Lemma Duration_between_zero_and_total_witness :
  (0 <= Duration (DurationClip_at (clock 12 0)) morning_record NoTime NoTime
   <= TotalDuration (DurationClip_at (clock 12 0)) morning_record NoTime NoTime)%Z.
Proof.
  apply (Duration_between_zero_and_total (clock 12 0) morning_record
           NoTime NoTime).
  - vm_compute. reflexivity.
  - unfold morning_record. cbn [rPause].
    apply List.Forall_cons; [right; vm_compute; discriminate|].
    apply List.Forall_cons; [left; reflexivity|]. apply List.Forall_nil.
  - unfold morning_record. cbn. split; [vm_compute; discriminate|].
    split; exact I.
  - intros _. reflexivity.
  - intros _. split; [vm_compute; discriminate|].
    unfold morning_record. cbn [rPause].
    apply List.Forall_cons; [split; vm_compute; discriminate|].
    apply List.Forall_cons; [split; vm_compute; discriminate|].
    apply List.Forall_nil.
  - vm_compute. reflexivity.
Defined.

(** The morning with its break and the pause that is running, at noon: an
    hour and a half of work. *)
Example Duration_of_paused_record :
  Duration (DurationClip_at (clock 12 0)) morning_record NoTime NoTime
  = minutes 90.
Proof. vm_compute. reflexivity. Qed.

(** [Check] accepts a record that has ended with a pause still open; the
    pause then runs to [now], and the active time is negative. *)
Example Duration_negative_closed_and_paused :
  Check (mkRecord "work" (clock 9 0) (clock 12 0) "" []
           [mkPause (clock 10 0) NoTime ""])
  = None
  /\ Duration (DurationClip_at (clock 18 0))
       (mkRecord "work" (clock 9 0) (clock 12 0) "" []
          [mkPause (clock 10 0) NoTime ""])
       NoTime NoTime
     = (- hours 5)%Z.
Proof. vm_compute. split; reflexivity. Qed.

(** ** The outcome of [NewReporter] (report.go) *)

(** [TimeRange.Duration]. *)
Definition TimeRange_Duration (r : TimeRange) : duration :=
  Sub (trEnd r) (trStart r).

(** *** The time range of a report *)

(** X24. The time range of a report never runs backwards: over scanned
    records with non-zero starts, none of which ends before it starts, the
    loop of [NewReporter] leaves a range whose start is not after its end, so
    [TimeRange.Duration] is not negative, and it is the distance from start
    to end when that fits 64 bits. *)
Theorem report_range_forward :
  forall (now : time)
         (records : list RecordT) (totals : gmap string duration),
    Forall (fun r => rStart r <> NoTime) records ->
    Forall (fun r => rEnd r = NoTime \/ (rStart r <= rEnd r)%N) records ->
    (trStart (fold_left (add_record now)
                records (totals, mkTimeRange NoTime NoTime)).2
     <= trEnd (fold_left (add_record now)
                 records (totals, mkTimeRange NoTime NoTime)).2)%N
    /\ (0 <= TimeRange_Duration
               (fold_left (add_record now)
                  records (totals, mkTimeRange NoTime NoTime)).2)%Z
    /\ ((Z.of_N (trEnd (fold_left (add_record now)
                          records (totals, mkTimeRange NoTime NoTime)).2)
         - Z.of_N (trStart (fold_left (add_record now)
                              records (totals, mkTimeRange NoTime NoTime)).2)
         < 2 ^ 63)%Z ->
        TimeRange_Duration
          (fold_left (add_record now)
             records (totals, mkTimeRange NoTime NoTime)).2
        = (Z.of_N (trEnd (fold_left (add_record now)
                            records (totals, mkTimeRange NoTime NoTime)).2)
           - Z.of_N (trStart (fold_left (add_record now)
                                records (totals, mkTimeRange NoTime NoTime)).2))%Z).
Proof.
  intros now records totals Hnz Hfw.
  rewrite record_loop_range. cbn [snd].
  set (range := fold_left range_step records (mkTimeRange NoTime NoTime)).
  assert (Hle : (trStart range <= trEnd range)%N).
  { destruct records as [|r rest].
    - cbn. reflexivity.
    - assert (Heff : Forall (fun r => effective_end r <> NoTime) (r :: rest)).
      { rewrite Forall_forall in Hnz, Hfw |- *. intros x Hx.
        unfold effective_end. destruct (IsZero (rEnd x)) eqn:Hz.
        - now apply Hnz.
        - now apply IsZero_false in Hz. }
      destruct (range_steps_start (r :: rest) (mkTimeRange NoTime NoTime) Hnz)
        as (_ & _ & Hs).
      destruct (range_steps_end (r :: rest) (mkTimeRange NoTime NoTime) Heff)
        as (_ & _ & He).
      destruct (Hs r (or_introl eq_refl)) as [Hs1 _].
      specialize (He r (or_introl eq_refl)).
      apply Forall_cons in Hfw as [Hr _]. apply Forall_cons in Hnz as [Hr0 _].
      assert (Hspan : (rStart r <= effective_end r)%N).
      { unfold effective_end. destruct (IsZero (rEnd r)) eqn:Hz; [lia|].
        apply IsZero_false in Hz. destruct Hr as [Hr|Hr]; [now apply Hz in Hr | exact Hr]. }
      fold range in Hs1, He. lia. }
  split; [exact Hle|]. unfold TimeRange_Duration, Sub. int64_bounds.
  split; [lia|]. intros Hfit. lia.
Qed.

Lemma report_range_forward_witness :
  (0 <= TimeRange_Duration
          (fold_left (add_record (clock 18 0))
             family_records (∅, mkTimeRange NoTime NoTime)).2)%Z.
Proof.
  apply (report_range_forward (clock 18 0)
           family_records ∅).
  - unfold family_records.
    repeat (apply List.Forall_cons; [vm_compute; discriminate|]).
    apply List.Forall_nil.
  - unfold family_records.
    repeat (apply List.Forall_cons; [right; vm_compute; discriminate|]).
    apply List.Forall_nil.
Defined.

(** *** The projects that have a total *)

Lemma zero_totals_keys (ps : list Project) (m : gmap string duration)
    (k : string) :
  is_Some (fold_left (fun m p => <[prjName p := 0%Z]> m) ps m !! k)
  <-> (exists p, In p ps /\ prjName p = k) \/ is_Some (m !! k).
Proof.
  revert m. induction ps as [|p ps IH]; intros m; cbn [fold_left].
  - split; [auto | intros [(p & [] & _)|H]; exact H].
  - rewrite IH. destruct (decide (prjName p = k)) as [Hk|Hk].
    + subst k. rewrite lookup_insert_eq. split; intros _.
      * left. exists p. split; [now left | reflexivity].
      * right. eauto.
    + rewrite lookup_insert_ne by exact Hk. split.
      * intros [(q & Hq & Hn)|H]; [|now right].
        left. exists q. split; [now right | exact Hn].
      * intros [(q & [ <- |Hq] & Hn)|H]; [contradiction | | now right].
        left. eauto.
Qed.

Lemma record_loop_keys (now : time) (records : list RecordT)
    (acc : gmap string duration * TimeRange) (k : string) :
  is_Some ((fold_left (add_record now)
              records acc).1 !! k)
  <-> (exists r, In r records /\ rProject r = k) \/ is_Some (acc.1 !! k).
Proof.
  rewrite record_loop_totals_acc.
  destruct (List.filter (of_project k) records) as [|r rs] eqn:Hf.
  - split; [now right|]. intros [(r & Hr & Hk)|H]; [|exact H].
    assert (Hin : In r (List.filter (of_project k) records)).
    { apply List.filter_In. split; [exact Hr|].
      unfold of_project. now apply String.eqb_eq. }
    rewrite Hf in Hin. destruct Hin.
  - split; [intros _ | eauto]. left. exists r.
    assert (Hin : In r (List.filter (of_project k) records))
      by (rewrite Hf; now left).
    apply List.filter_In in Hin as [H1 H2].
    split; [exact H1 | now apply String.eqb_eq].
Qed.

Lemma add_to_ancestors_keys (project : string) (anc : list Project)
    (totals : gmap string duration) (k : string) :
  is_Some (add_to_ancestors project anc totals !! k) <-> is_Some (totals !! k).
Proof.
  unfold add_to_ancestors. revert totals.
  induction anc as [|node anc IH]; intros totals; [reflexivity|].
  cbn [fold_left]. rewrite IH.
  destruct (totals !! prjName node) as [t|] eqn:Hn; [|reflexivity].
  destruct (decide (prjName node = k)) as [<-|Hne].
  - rewrite lookup_insert_eq, Hn. split; eauto.
  - now rewrite lookup_insert_ne.
Qed.

Lemma roll_up_keys (allProjects : gmap string Project) (order : list string)
    (totals final : gmap string duration) (k : string) :
  roll_up allProjects order totals = Ok final ->
  is_Some (final !! k) <-> is_Some (totals !! k).
Proof.
  revert totals. induction order as [|project order IH]; intros totals;
    cbn [roll_up].
  - intros Heq. now injection Heq as ->.
  - destruct (Ancestors allProjects project) as [anc|]; [|discriminate].
    intros H. rewrite (IH _ H). apply add_to_ancestors_keys.
Qed.

(** X25. A report has a total for exactly the names of the selected projects
    and the projects of the loaded records: every selected project has one,
    with or without records, and the roll-up to the ancestors, in whatever
    order it visits the projects, adds no entry.  The records of the report
    are those loaded with [FilterByProjects] of the selected keys added to
    the filters. *)
Theorem NewReporter_totals_keys :
  forall (now : time)
         (loadProjects : result (gmap string Project))
         (loadRecords : list FilterFunction -> result (list RecordT))
         (order proj : list string) (filters : list FilterFunction)
         (rep : Reporter),
    NewReporter now loadProjects loadRecords
      order proj filters = Ok rep ->
    loadProjects = Ok (AllProjects rep)
    /\ loadRecords
         (filters
          ++ [FilterByProjects (map fst (map_to_list (Projects rep)))])
       = Ok (Records rep)
    /\ forall k : string,
         is_Some (ProjectTime rep !! k)
         <-> (exists key p, Projects rep !! key = Some p /\ prjName p = k)
             \/ (exists r, In r (Records rep) /\ rProject r = k).
Proof.
  intros now loadProjects loadRecords
    order proj filters rep.
  unfold NewReporter.
  destruct loadProjects as [allProjects|err]; [|discriminate].
  destruct (match proj with
            | [] => Ok allProjects
            | _ :: _ => select_projects allProjects proj ∅
            end) as [projects|err]; [|discriminate].
  destruct (loadRecords _) as [records|err] eqn:Hload; [|discriminate].
  destruct (fold_left _ records _) as [totals tRange] eqn:Hloop.
  destruct (roll_up allProjects order totals) as [final|err] eqn:Hroll;
    [|discriminate].
  intros Heq. injection Heq as <-. cbn [AllProjects Records Projects ProjectTime].
  split; [reflexivity|]. split; [exact Hload|]. intros k.
  rewrite (roll_up_keys _ _ _ _ k Hroll).
  assert (Ht : totals
               = (fold_left (add_record now)
                    records
                    (fold_left (fun m p => <[prjName p := 0%Z]> m)
                       (map snd (map_to_list projects)) ∅,
                     mkTimeRange NoTime NoTime)).1)
    by now rewrite Hloop.
  rewrite Ht, record_loop_keys. cbn [fst]. rewrite zero_totals_keys.
  rewrite lookup_empty. split.
  - intros [Hr|[(p & Hp & Hk)|H]]; [now right | | now destruct H].
    left. apply in_map_iff in Hp as ([key q] & Hq & Hin). cbn in Hq. subst q.
    apply list_elem_of_In, elem_of_map_to_list in Hin. eauto.
  - intros [(key & p & Hp & Hk)|Hr]; [|now left].
    right. left. exists p. split; [|exact Hk].
    apply in_map_iff. exists (key, p). split; [reflexivity|].
    now apply list_elem_of_In, elem_of_map_to_list.
Qed.

Definition is_Ok {A : Type} (r : result A) : bool :=
  match r with Ok _ => true | Err _ => false end.

Lemma NewReporter_totals_keys_witness :
  exists rep : Reporter,
    family_report ["root"; "mid"; "leaf1"; "leaf2"] = Ok rep
    /\ forall k : string,
         is_Some (ProjectTime rep !! k)
         <-> (exists key p, Projects rep !! key = Some p /\ prjName p = k)
             \/ (exists r, In r (Records rep) /\ rProject r = k).
Proof.
  destruct (family_report ["root"; "mid"; "leaf1"; "leaf2"]) as [rep|err]
    eqn:Hrun.
  - exists rep. split; [reflexivity|].
    apply (NewReporter_totals_keys (clock 18 0)
             (Ok family) family_scan ["root"; "mid"; "leaf1"; "leaf2"] [] []
             rep Hrun).
  - assert (H : is_Ok (family_report ["root"; "mid"; "leaf1"; "leaf2"]) = true)
      by (vm_compute; reflexivity).
    rewrite Hrun in H. discriminate.
Defined.

(** *** The selection of projects *)

(** The index of the projects has each project at its name. *)
Definition keyed_by_name (allProjects : gmap string Project) : Prop :=
  map_Forall (fun key p => prjName p = key) allProjects.

Lemma Descendants_known (allProjects : gmap string Project) (name : string) :
  is_Some (allProjects !! name) -> is_Some (Descendants allProjects name).
Proof. unfold Descendants. intros [p ->]. eauto. Qed.

Lemma select_projects_unknown (allProjects : gmap string Project)
    (proj : list string) (projects : gmap string Project) (p : string) :
  keyed_by_name allProjects ->
  allProjects !! "" = None ->
  In p proj -> allProjects !! p = None ->
  select_projects allProjects proj projects
  = Err (Errorf "BUG! Project '' not in project tree").
Proof.
  intros Hkeys Hempty. revert projects.
  induction proj as [|p0 rest IH]; intros projects Hin Hp; [destruct Hin|].
  cbn [select_projects].
  destruct (allProjects !! p0) as [q|] eqn:Hq0; cbn [default from_option id].
  - rewrite (Hkeys p0 q Hq0).
    destruct (Descendants_known allProjects p0) as [desc ->]; [now rewrite Hq0|].
    apply IH; [|exact Hp]. destruct Hin as [->|Hin]; [congruence | exact Hin].
  - cbn [zeroProject prjName]. unfold Descendants. rewrite Hempty. reflexivity.
Qed.

(** X26. A name that is not a project makes [NewReporter] fail before any
    record is loaded, and the error does not say which name: the lookup of
    the unknown name yields the zero project, so the message names the empty
    project (for an index that has each project at its name and no project
    without a name). *)
Theorem NewReporter_unknown_project :
  forall (now : time)
         (allProjects : gmap string Project)
         (loadRecords : list FilterFunction -> result (list RecordT))
         (order proj : list string) (filters : list FilterFunction)
         (p : string),
    keyed_by_name allProjects ->
    allProjects !! "" = None ->
    In p proj -> allProjects !! p = None ->
    NewReporter now (Ok allProjects) loadRecords
      order proj filters
    = Err (Errorf "BUG! Project '' not in project tree").
Proof.
  intros now allProjects loadRecords order proj
    filters p Hkeys Hempty Hin Hp.
  unfold NewReporter.
  rewrite (select_projects_unknown allProjects proj ∅ p Hkeys Hempty Hin Hp).
  now destruct proj.
Qed.

Lemma NewReporter_unknown_project_witness :
  NewReporter (clock 18 0) (Ok family)
    family_scan [] ["mid"; "garden"] []
  = Err (Errorf "BUG! Project '' not in project tree").
Proof.
  apply (NewReporter_unknown_project (clock 18 0) family family_scan [] ["mid"; "garden"] [] "garden").
  - unfold keyed_by_name. apply (bool_decide_unpack _). vm_compute. exact I.
  - vm_compute. reflexivity.
  - right. left. reflexivity.
  - vm_compute. reflexivity.
Defined.

Lemma is_ancestor_of (allProjects : gmap string Project) (p key : string)
    (q : Project) :
  allProjects !! key = Some q ->
  is_ancestor allProjects p key = true
  <-> In p (map prjName
              (ancestors_from allProjects (size allProjects) (prjParent q))).
Proof.
  intros Hq. unfold is_ancestor, ancestor_names, Ancestors. rewrite Hq.
  rewrite bool_decide_eq_true. apply list_elem_of_In.
Qed.

Lemma Descendants_elem (allProjects : gmap string Project) (name : string)
    (desc : list Project) (p2 : Project) :
  keyed_by_name allProjects ->
  Descendants allProjects name = Some desc ->
  In p2 desc
  <-> allProjects !! prjName p2 = Some p2
      /\ is_ancestor allProjects name (prjName p2) = true.
Proof.
  intros Hkeys. unfold Descendants.
  destruct (allProjects !! name) as [p|]; [|discriminate].
  intros Heq. injection Heq as <-.
  rewrite <- list_elem_of_In, list_elem_of_filter, list_elem_of_In, in_map_iff.
  split.
  - intros [Hanc ([key q] & Hq & Hin)]. cbn in Hq. subst q.
    apply list_elem_of_In, elem_of_map_to_list in Hin.
    rewrite <- (Hkeys key p2 Hin) in Hin. split; [exact Hin|].
    apply (is_ancestor_of _ _ _ _ Hin), in_map_iff.
    apply Is_true_true, existsb_exists in Hanc as (a & Ha & Hn).
    exists a. split; [now apply String.eqb_eq | exact Ha].
  - intros [Hin Hanc]. split.
    + apply (is_ancestor_of _ _ _ _ Hin), in_map_iff in Hanc as (a & Hn & Ha).
      apply Is_true_true, existsb_exists. exists a.
      split; [exact Ha | now apply String.eqb_eq].
    + exists (prjName p2, p2). split; [reflexivity|].
      now apply list_elem_of_In, elem_of_map_to_list.
Qed.

(** The loop that adds the descendants that are not yet selected. *)
Lemma add_descendants_spec (allProjects : gmap string Project)
    (desc : list Project) (m : gmap string Project) :
  (forall key q, m !! key = Some q -> allProjects !! key = Some q) ->
  (forall p2, In p2 desc -> allProjects !! prjName p2 = Some p2) ->
  (forall key q,
     fold_left (fun m p2 => match m !! prjName p2 with
                            | Some _ => m
                            | None => <[prjName p2 := p2]> m
                            end) desc m !! key = Some q ->
     allProjects !! key = Some q)
  /\ (forall key,
        is_Some (fold_left (fun m p2 => match m !! prjName p2 with
                                        | Some _ => m
                                        | None => <[prjName p2 := p2]> m
                                        end) desc m !! key)
        <-> is_Some (m !! key) \/ exists p2, In p2 desc /\ prjName p2 = key).
Proof.
  revert m. induction desc as [|p2 desc IH]; intros m Hm Hdesc; cbn [fold_left].
  - split; [exact Hm|]. intros key. split; [auto|].
    intros [H|(p2 & [] & _)]; exact H.
  - assert (Hrest : forall p, In p desc -> allProjects !! prjName p = Some p)
      by (intros p Hp; apply Hdesc; now right).
    destruct (m !! prjName p2) as [old|] eqn:Hold.
    + destruct (IH m Hm Hrest) as [Hsub Hkeys]. split; [exact Hsub|].
      intros key. rewrite Hkeys. split.
      * intros [H|(p & Hp & Hk)]; [now left|]. right. exists p. split; [now right | exact Hk].
      * intros [H|(p & [ <- |Hp] & Hk)]; [now left | | right; eauto].
        left. subst key. rewrite Hold. eauto.
    + assert (Hm' : forall key q,
                <[prjName p2 := p2]> m !! key = Some q ->
                allProjects !! key = Some q).
      { intros key q. destruct (decide (prjName p2 = key)) as [<-|Hne].
        - rewrite lookup_insert_eq. intros Heq. injection Heq as <-.
          apply Hdesc. now left.
        - rewrite lookup_insert_ne by exact Hne. apply Hm. }
      destruct (IH _ Hm' Hrest) as [Hsub Hkeys]. split; [exact Hsub|].
      intros key. rewrite Hkeys. split.
      * intros [H|(p & Hp & Hk)].
        -- destruct (decide (prjName p2 = key)) as [<-|Hne].
           ++ right. exists p2. split; [now left | reflexivity].
           ++ left. now rewrite lookup_insert_ne in H.
        -- right. exists p. split; [now right | exact Hk].
      * intros [H|(p & [ <- |Hp] & Hk)].
        -- left. destruct (decide (prjName p2 = key)) as [<-|Hne].
           ++ rewrite lookup_insert_eq. eauto.
           ++ now rewrite lookup_insert_ne.
        -- left. subst key. rewrite lookup_insert_eq. eauto.
        -- right. eauto.
Qed.

Lemma select_projects_spec (allProjects : gmap string Project)
    (proj : list string) (m projects : gmap string Project) :
  keyed_by_name allProjects ->
  Forall (fun p => is_Some (allProjects !! p)) proj ->
  (forall key q, m !! key = Some q -> allProjects !! key = Some q) ->
  select_projects allProjects proj m = Ok projects ->
  forall key q,
    projects !! key = Some q
    <-> allProjects !! key = Some q
        /\ (is_Some (m !! key) \/ In key proj
            \/ exists p, In p proj /\ is_ancestor allProjects p key = true).
Proof.
  intros Hkeys. revert m.
  induction proj as [|p0 rest IH]; intros m Hknown Hm Hsel key q.
  - cbn in Hsel. injection Hsel as <-. split.
    + intros Hq. split; [now apply Hm | left; eauto].
    + intros [Hq [[q' Hq']|[[]|(p & [] & _)]]].
      rewrite Hq'. f_equal. apply Hm in Hq'. congruence.
  - apply Forall_cons in Hknown as [[q0 Hq0] Hknown].
    cbn [select_projects] in Hsel. rewrite Hq0 in Hsel.
    cbn [default from_option id] in Hsel.
    pose proof (Hkeys p0 q0 Hq0) as Hname. rewrite Hname in Hsel.
    destruct (Descendants allProjects p0) as [desc|] eqn:Hdesc; [|discriminate].
    assert (Hm1 : forall key q,
               <[p0 := q0]> m !! key = Some q -> allProjects !! key = Some q).
    { intros k x. destruct (decide (p0 = k)) as [<-|Hne].
      - rewrite lookup_insert_eq. congruence.
      - rewrite lookup_insert_ne by exact Hne. apply Hm. }
    assert (Hd : forall p2, In p2 desc -> allProjects !! prjName p2 = Some p2).
    { intros p2 Hp2. now apply (Descendants_elem _ _ _ _ Hkeys Hdesc) in Hp2. }
    destruct (add_descendants_spec allProjects desc _ Hm1 Hd) as [Hsub Hin].
    rewrite (IH _ Hknown Hsub Hsel key q), Hin.
    split; intros [Hq Hcase]; (split; [exact Hq|]).
    + destruct Hcase as [[H|(p2 & Hp2 & Hk)]|[H|(p & Hp & Ha)]].
      * destruct (decide (p0 = key)) as [<-|Hne]; [right; left; now left|].
        left. now rewrite lookup_insert_ne in H.
      * right. right. exists p0. split; [now left|]. subst key.
        now apply (Descendants_elem _ _ _ _ Hkeys Hdesc) in Hp2.
      * right. left. now right.
      * right. right. exists p. split; [now right | exact Ha].
    + destruct Hcase as [H|[[ <- |H]|(p & [ <- |Hp] & Ha)]].
      * left. left. destruct (decide (p0 = key)) as [<-|Hne].
        -- rewrite lookup_insert_eq. eauto.
        -- now rewrite lookup_insert_ne.
      * left. left. rewrite lookup_insert_eq. eauto.
      * right. left. exact H.
      * left. right. exists q. split; [|now apply Hkeys].
        apply (Descendants_elem _ _ _ _ Hkeys Hdesc).
        rewrite (Hkeys key q Hq). split; [exact Hq | exact Ha].
      * right. right. eauto.
Qed.

(** X27. The projects of a report: without names the whole index; with
    names, all of them projects of the index that has each project at its
    name, exactly the named projects and the projects that have a named
    project among their ancestors, each as the index has it. *)
Theorem NewReporter_selection :
  forall (now : time)
         (allProjects : gmap string Project)
         (loadRecords : list FilterFunction -> result (list RecordT))
         (order proj : list string) (filters : list FilterFunction)
         (rep : Reporter),
    keyed_by_name allProjects ->
    Forall (fun p => is_Some (allProjects !! p)) proj ->
    NewReporter now (Ok allProjects) loadRecords
      order proj filters = Ok rep ->
    (proj = [] -> Projects rep = allProjects)
    /\ (proj <> [] ->
        forall key q,
          Projects rep !! key = Some q
          <-> allProjects !! key = Some q
              /\ (In key proj
                  \/ exists p, In p proj
                               /\ is_ancestor allProjects p key = true)).
Proof.
  intros now allProjects loadRecords order proj
    filters rep Hkeys Hknown.
  unfold NewReporter.
  destruct (match proj with
            | [] => Ok allProjects
            | _ :: _ => select_projects allProjects proj ∅
            end) as [projects|err] eqn:Hsel; [|discriminate].
  destruct (loadRecords _) as [records|err]; [|discriminate].
  destruct (fold_left _ records _) as [totals tRange].
  destruct (roll_up allProjects order totals) as [final|err]; [|discriminate].
  intros Heq. injection Heq as <-. cbn [Projects]. split.
  - intros ->. now injection Hsel as <-.
  - intros Hne key q.
    assert (Hsel' : select_projects allProjects proj ∅ = Ok projects)
      by (destruct proj; [congruence | exact Hsel]).
    rewrite (select_projects_spec allProjects proj ∅ projects Hkeys Hknown
               ltac:(intros k x; rewrite lookup_empty; discriminate) Hsel' key q).
    rewrite lookup_empty. split; intros [Hq Hcase]; (split; [exact Hq|]).
    + destruct Hcase as [[x Hx]|H]; [discriminate | exact H].
    + now right.
Qed.

Lemma NewReporter_selection_witness :
  exists rep : Reporter,
    NewReporter (clock 18 0) (Ok family)
      family_scan ["mid"; "leaf1"; "leaf2"] ["mid"] [] = Ok rep
    /\ forall key q,
         Projects rep !! key = Some q
         <-> family !! key = Some q
             /\ (In key ["mid"]
                 \/ exists p, In p ["mid"] /\ is_ancestor family p key = true).
Proof.
  destruct (NewReporter (clock 18 0) (Ok family)
              family_scan ["mid"; "leaf1"; "leaf2"] ["mid"] [])
    as [rep|err] eqn:Hrun.
  - exists rep. split; [reflexivity|].
    apply (NewReporter_selection (clock 18 0)
             family family_scan ["mid"; "leaf1"; "leaf2"] ["mid"] [] rep).
    + unfold keyed_by_name. apply (bool_decide_unpack _). vm_compute. exact I.
    + apply List.Forall_cons; [|apply List.Forall_nil].
      exists (mkProject "mid" "root" false). vm_compute. reflexivity.
    + exact Hrun.
    + discriminate.
  - assert (H : is_Ok (NewReporter (clock 18 0)
                         (Ok family) family_scan ["mid"; "leaf1"; "leaf2"]
                         ["mid"] []) = true)
      by (vm_compute; reflexivity).
    rewrite Hrun in H. discriminate.
Defined.

(** The report on [mid] selects [mid] and its two leaves, and not [root]. *)
Example NewReporter_selects_subtree :
  match NewReporter (clock 18 0) (Ok family)
          family_scan ["mid"; "leaf1"; "leaf2"] ["mid"] [] with
  | Ok rep => map fst (map_to_list (Projects rep))
  | Err _ => []
  end ≡ₚ ["mid"; "leaf1"; "leaf2"].
Proof. vm_compute. apply (bool_decide_unpack _). vm_compute. exact I. Qed.

(** ** Tags in notes (record.go, [ExtractTags] and [ExtractTagsSlice]) *)

Definition TagPrefix : string := "+".

(** [strings.Split(s, sep)] for a separator of one character: the pieces
    between the separators, at least one. *)
Fixpoint Split (s : string) (sep : ascii) : list string :=
  match s with
  | EmptyString => [EmptyString]
  | String c rest =>
      if Ascii.eqb c sep then EmptyString :: Split rest sep
      else
        match Split rest sep with
        | [] => [String c EmptyString]
        | piece :: pieces => String c piece :: pieces
        end
  end.

Definition HasPrefix (s prefix : string) : bool := String.prefix prefix s.

Definition TrimPrefix (s prefix : string) : string :=
  if HasPrefix s prefix then
    substring (String.length prefix) (String.length s - String.length prefix) s
  else s.

(** The body of the loop over the sub-tokens: [mapped] is the Go map used as
    the set of the tokens seen. *)
Definition tag_step (st : list string * gset string) (subToken : string)
  : list string * gset string :=
  let '(result, mapped) := st in
  if HasPrefix subToken TagPrefix then
    if bool_decide (subToken ∈ mapped) then (result, mapped)
    else (result ++ [TrimPrefix subToken TagPrefix], {[subToken]} ∪ mapped)
  else (result, mapped).

Definition ExtractTagsSlice (tokens : list string) : list string :=
  (fold_left
     (fun st token => fold_left tag_step (Split token " ") st)
     tokens ([], ∅)).1.

Definition ExtractTags (text : string) : list string :=
  (fold_left tag_step (Split text " ") ([], ∅)).1.

(** *** Strings *)

Lemma HasPrefix_plus (s : string) :
  HasPrefix s TagPrefix = true <-> exists t, s = String "+" t.
Proof.
  unfold HasPrefix, TagPrefix. destruct s as [|c rest].
  - split; [discriminate | intros [t Ht]; discriminate].
  - change (String.prefix "+" (String c rest))
      with (if ascii_dec "+" c then String.prefix "" rest else false).
    destruct (ascii_dec "+" c) as [<-|Hne].
    + split; [intros _; now exists rest | intros _; now destruct rest].
    + split; [discriminate | intros [t Ht]; congruence].
Qed.

Lemma substring_all (s : string) : substring 0 (String.length s) s = s.
Proof. induction s as [|c s IH]; cbn; [reflexivity | now rewrite IH]. Qed.

Lemma TrimPrefix_plus (t : string) : TrimPrefix (String "+" t) TagPrefix = t.
Proof.
  unfold TrimPrefix.
  rewrite (proj2 (HasPrefix_plus (String "+" t))) by now exists t.
  cbn. rewrite Nat.sub_0_r. apply substring_all.
Qed.

Lemma Split_nonempty (s : string) (sep : ascii) : Split s sep <> [].
Proof.
  destruct s as [|c rest]; cbn [Split]; [discriminate|].
  destruct (Ascii.eqb c sep); [discriminate|].
  destruct (Split rest sep); discriminate.
Qed.

(** Splitting the join of two strings gives the pieces of both. *)
Lemma Split_join (a b : string) (sep : ascii) :
  Split (a ++ String sep b)%string sep = Split a sep ++ Split b sep.
Proof.
  induction a as [|c a IH].
  - change (Split (String sep b) sep = [EmptyString] ++ Split b sep).
    cbn [Split app]. now rewrite Ascii.eqb_refl.
  - change (Split (String c (a ++ String sep b)%string) sep
            = Split (String c a) sep ++ Split b sep).
    cbn [Split]. destruct (Ascii.eqb c sep); [now rewrite IH|].
    rewrite IH. pose proof (Split_nonempty a sep).
    now destruct (Split a sep).
Qed.

(** *** The loop *)

Definition has_tag (s : string) : bool := HasPrefix s TagPrefix.

(** The tokens with the tag prefix, each at its first occurrence. *)
Definition first_tags (pieces : list string) : list string :=
  reverse (remove_dups (reverse (List.filter has_tag pieces))).

Lemma tag_steps (pieces : list string) :
  fold_left tag_step pieces ([], ∅)
  = ((fun s => TrimPrefix s TagPrefix) <$> first_tags pieces,
     list_to_set (List.filter has_tag pieces)).
Proof.
  induction pieces as [|x pieces IH] using rev_ind; [reflexivity|].
  rewrite fold_left_app, IH. cbn [fold_left tag_step].
  unfold first_tags. rewrite List.filter_app. cbn [List.filter].
  fold (has_tag x). destruct (has_tag x) eqn:Hx.
  - rewrite reverse_app. cbn [reverse rev_append app].
    change (rev_append [] [x]) with [x]. cbn [app remove_dups].
    destruct (decide_rel elem_of x (reverse (List.filter has_tag pieces)))
      as [Hin|Hnin]; rewrite elem_of_reverse in *.
    + rewrite bool_decide_eq_true_2 by (rewrite elem_of_list_to_set; exact Hin).
      f_equal. apply set_eq. intros y.
      rewrite !elem_of_list_to_set, elem_of_app, list_elem_of_singleton.
      split; [auto|]. intros [H| ->]; auto.
    + rewrite bool_decide_eq_false_2 by (rewrite elem_of_list_to_set; exact Hnin).
      f_equal.
      * rewrite reverse_cons, fmap_app. reflexivity.
      * apply set_eq. intros y.
        rewrite elem_of_union, elem_of_singleton, !elem_of_list_to_set,
          elem_of_app, list_elem_of_singleton. tauto.
  - now rewrite app_nil_r.
Qed.

Lemma first_tags_elem (pieces : list string) (x : string) :
  x ∈ first_tags pieces <-> x ∈ pieces /\ has_tag x = true.
Proof.
  unfold first_tags.
  rewrite elem_of_reverse, elem_of_remove_dups, elem_of_reverse.
  rewrite !list_elem_of_In. apply List.filter_In.
Qed.

Lemma tagged_pieces_inj (l : list string) (x y : string) :
  Forall (fun s => has_tag s = true) l ->
  x ∈ l -> y ∈ l ->
  TrimPrefix x TagPrefix = TrimPrefix y TagPrefix -> x = y.
Proof.
  rewrite Forall_forall. intros Hall Hx Hy.
  destruct (proj1 (HasPrefix_plus x) (Hall x Hx)) as [t ->].
  destruct (proj1 (HasPrefix_plus y) (Hall y Hy)) as [u ->].
  rewrite !TrimPrefix_plus. now intros ->.
Qed.

(** X22. [ExtractTags] returns the tagged words of the text without their
    prefix, each once, in the order of their first occurrence: the result has
    no duplicates, and a tag is in it exactly when the text, split at the
    spaces, has the word that is the prefix followed by the tag. *)
Theorem ExtractTags_first_occurrences :
  forall text : string,
    ExtractTags text
    = (fun s => TrimPrefix s TagPrefix) <$> first_tags (Split text " ")
    /\ NoDup (ExtractTags text)
    /\ forall tag : string,
         tag ∈ ExtractTags text
         <-> (TagPrefix ++ tag)%string ∈ Split text " ".
Proof.
  intros text.
  assert (Heq : ExtractTags text
                = (fun s => TrimPrefix s TagPrefix)
                    <$> first_tags (Split text " ")).
  { unfold ExtractTags. now rewrite tag_steps. }
  rewrite Heq. split; [reflexivity|]. split.
  - apply NoDup_fmap_2_strong.
    + intros x y Hx Hy. apply (tagged_pieces_inj (first_tags (Split text " ")));
        try assumption.
      apply Forall_forall. intros s Hs. now apply first_tags_elem in Hs.
    + unfold first_tags. rewrite reverse_Permutation. apply NoDup_remove_dups.
  - intros tag. rewrite list_elem_of_fmap.
    change (TagPrefix ++ tag)%string with (String "+" tag). split.
    + intros (x & -> & Hx). apply first_tags_elem in Hx as [Hin Htag].
      destruct (proj1 (HasPrefix_plus x) Htag) as [t ->].
      now rewrite TrimPrefix_plus.
    + intros Hin. exists (String "+" tag). split.
      * now rewrite TrimPrefix_plus.
      * apply first_tags_elem. split; [exact Hin|].
        apply HasPrefix_plus. now exists tag.
Qed.

Lemma tag_steps_tokens (tokens : list string) (st : list string * gset string) :
  fold_left (fun st token => fold_left tag_step (Split token " ") st) tokens st
  = fold_left tag_step (flat_map (fun token => Split token " ") tokens) st.
Proof.
  revert st. induction tokens as [|token tokens IH]; intros st; [reflexivity|].
  cbn [fold_left flat_map]. now rewrite fold_left_app, IH.
Qed.

Lemma Split_concat (tokens : list string) :
  tokens <> [] ->
  Split (String.concat " " tokens) " "
  = flat_map (fun token => Split token " ") tokens.
Proof.
  induction tokens as [|x [|y tokens] IH]; intros Hne; [congruence| |].
  - cbn [String.concat flat_map]. now rewrite app_nil_r.
  - change (String.concat " " (x :: y :: tokens))
      with (x ++ String " " (String.concat " " (y :: tokens)))%string.
    rewrite Split_join, IH by discriminate. reflexivity.
Qed.

(** X23. [ExtractTagsSlice] of a list of tokens is [ExtractTags] of the
    tokens joined by single spaces: the tags of a command line are those of
    the note it spells. *)
Theorem ExtractTagsSlice_joined :
  forall tokens : list string,
    ExtractTagsSlice tokens = ExtractTags (String.concat " " tokens).
Proof.
  intros tokens. unfold ExtractTagsSlice, ExtractTags.
  destruct tokens as [|x tokens]; [reflexivity|].
  now rewrite tag_steps_tokens, Split_concat.
Qed.

Example ExtractTags_note :
  ExtractTags "call +client about +invoice  +client and c++"
  = ["client"; "invoice"].
Proof. vm_compute. reflexivity. Qed.

Example ExtractTagsSlice_command_line :
  ExtractTagsSlice ["call +client"; "+invoice"; "+"; "+client"]
  = ["client"; "invoice"; ""].
Proof. vm_compute. reflexivity. Qed.
